(** * Project Spec Manager: task execution engine, evaluator, version control
      and spec parsing

    A shallow embedding of the TypeScript sources
      - the task executor (prepareTaskPrompt, executeTask, evaluateTask,
        evaluateWithLanguageModel, executeAllTasks; lines 86-519 of
        test-zod-validation.ts),
      - src/vcsManager.ts (detectVC, createBranch, cleanupBranch),
      - src/utils.ts (queryLanguageModel, getFormattedTimestamp),
      - the merge of the project settings into a spec (mergeAiderConfig;
        lines 778-833 of test-zod-validation.ts), the parser of a spec file
        and its validators (parseSpec, validateRequiredFields,
        validateAiderConfig, validateTasks, validateTask,
        validateTaskEvaluation; lines 1145-1329) and the command line
        (parseArgs; lines 1357-1401),
    followed by the properties of the specification that concern them and
    by further properties of the code.

    src/lessonsLogger.ts is not embedded: as given it does not parse (the
    single-quoted string literal that opens at its line 121 runs over the
    lines 121-126), so it cannot be loaded and none of its functions can
    run. The program meets it at one place only, the dynamic import of
    [executeAllTasks] (line 511), which is modelled as the rejected import
    it is.

    Modelling conventions.
    - JavaScript strings are byte strings ([string]); [toLowerCase] and
      [trim] act on the ASCII range.
    - [async]/[await] code is single threaded and every call is awaited at
      once, so it is modelled as sequential code.
    - Everything outside the program (child processes, the file system, the
      completion API, the clock, [path.join]) is an oracle of the environment
      [Env], indexed by the number of external calls made so far.
    - JavaScript exceptions are explicit: a computation returns [Ok] or
      [Throw], and state mutated before a throw stays mutated.
    - [console.log]/[console.error] lines are not modelled.
    - A value of type [any] is a [JsValue]; [yaml.load], [path.basename] and
      [path.extname] are parameters of the functions that call them.
    - The [while] loop of [executeTask] is a recursion on fuel, started with
      [retries] units; [retry_loop_exit] shows that the loop then ends by its
      own condition. *)

From Stdlib Require Import String Ascii List ZArith Arith Bool Lia RelationClasses.
From Stdlib Require Import DecimalString.
Import ListNotations.
Local Open Scope list_scope.
Local Open Scope string_scope.

(* ================================================================== *)
(** ** JavaScript string operations *)
(* ================================================================== *)

Module Js.

Definition nl : string := String (ascii_of_nat 10) EmptyString.
Definition dquote : string := String (ascii_of_nat 34) EmptyString.

Definition is_upper (c : ascii) : bool :=
  ((65 <=? nat_of_ascii c) && (nat_of_ascii c <=? 90))%nat.

Definition lower_char (c : ascii) : ascii :=
  if is_upper c then ascii_of_nat (nat_of_ascii c + 32) else c.

(** [String.prototype.toLowerCase] *)
Fixpoint toLowerCase (s : string) : string :=
  match s with
  | EmptyString => EmptyString
  | String c r => String (lower_char c) (toLowerCase r)
  end.

(** White space and line terminators of the ASCII range. *)
Definition is_space (c : ascii) : bool :=
  let n := nat_of_ascii c in
  (((9 <=? n) && (n <=? 13)) || (n =? 32))%nat.

Fixpoint trimStart (s : string) : string :=
  match s with
  | EmptyString => EmptyString
  | String c r => if is_space c then trimStart r else s
  end.

Fixpoint trimEnd (s : string) : string :=
  match s with
  | EmptyString => EmptyString
  | String c r =>
      match trimEnd r with
      | EmptyString => if is_space c then EmptyString else String c EmptyString
      | r' => String c r'
      end
  end.

(** [String.prototype.trim] *)
Definition trim (s : string) : string := trimEnd (trimStart s).

(** [s.includes(sub)] *)
Fixpoint includes (s sub : string) : bool :=
  prefix sub s ||
  match s with
  | EmptyString => false
  | String _ r => includes r sub
  end.

(** [s.substring(a, b)] for [a <= b] *)
Definition substring (s : string) (a b : nat) : string :=
  String.substring a (b - a) s.

(** [s.split(sep)] for a one-character separator *)
Fixpoint split (sep : ascii) (s : string) : list string :=
  match s with
  | EmptyString => [EmptyString]
  | String c r =>
      if Ascii.eqb c sep then EmptyString :: split sep r
      else match split sep r with
           | [] => [String c EmptyString]
           | h :: t => String c h :: t
           end
  end.

(** Template-literal rendering of integers. *)
Definition string_of_Z (z : Z) : string := NilZero.string_of_int (Z.to_int z).
Definition string_of_nat (n : nat) : string := NilZero.string_of_uint (Nat.to_uint n).

(** Truthiness of an optional string: [undefined] and the empty string are
    falsy. *)
Definition truthy (o : option string) : bool :=
  match o with
  | None => false
  | Some EmptyString => false
  | Some _ => true
  end.

(** Truthiness of a string: only the empty string is falsy. *)
Definition nonempty (s : string) : bool :=
  match s with
  | EmptyString => false
  | String _ _ => true
  end.

(** [o || dflt] *)
Definition or_else (o : option string) (dflt : string) : string :=
  match o with
  | None => dflt
  | Some EmptyString => dflt
  | Some s => s
  end.

End Js.

(* ================================================================== *)
(** ** Exceptions and the state-and-exception monad *)
(* ================================================================== *)

(** A thrown value: an [Error] object, whose [message] is a string, or any
    other value (JavaScript lets a program throw anything), on which
    [error.message] is [undefined]. *)
Inductive Thrown : Type :=
| ErrorObj (message : string)
| NonError.

Inductive Result (A : Type) : Type :=
| Ok (a : A)
| Throw (e : Thrown).
Arguments Ok {A} a.
Arguments Throw {A} e.

Definition M (St A : Type) : Type := St -> Result A * St.

Definition ret {St A} (a : A) : M St A := fun s => (Ok a, s).

Definition throw {St A} (e : Thrown) : M St A := fun s => (Throw e, s).

Definition bind {St A B} (c : M St A) (k : A -> M St B) : M St B :=
  fun s =>
    match c s with
    | (Ok a, s') => k a s'
    | (Throw e, s') => (Throw e, s')
    end.

(** [try { c } catch (error) { h error }]: the state reached when [c] threw
    is the state the handler starts from. *)
Definition try_catch {St A} (c : M St A) (h : Thrown -> M St A) : M St A :=
  fun s =>
    match c s with
    | (Ok a, s') => (Ok a, s')
    | (Throw e, s') => h e s'
    end.

Declare Scope js_scope.
Delimit Scope js_scope with js.
Notation "x <- c ;; k" := (bind c (fun x => k))
  (at level 100, c at next level, right associativity) : js_scope.
Notation "' pat <- c ;; k" := (bind c (fun x => match x with pat => k end))
  (at level 100, pat pattern, c at next level, right associativity) : js_scope.
Notation "c ;; k" := (bind c (fun _ => k))
  (at level 100, right associativity) : js_scope.
Local Open Scope js_scope.

(** Lift a result into the monad. *)
Definition of_result {St A} (r : Result A) : M St A := fun s => (r, s).

(** [`${error.message}`] *)
Definition message_text (error : Thrown) : string :=
  match error with
  | ErrorObj m => m
  | NonError => "undefined"
  end.

(* ================================================================== *)
(** ** The outside world *)
(* ================================================================== *)

(** A spawned child process: what reading its output streams and awaiting
    its exit give. Each of the three may reject on its own. *)
Record Proc : Type := {
  proc_stdout : Result string;
  proc_stderr : Result string;
  proc_exited : Result Z
}.

(** What the chat-completion request of [queryLanguageModel] does. *)
Inductive ApiOutcome : Type :=
| ApiContent (content : option string)
    (* response.choices[0]?.message?.content *)
| ApiHttpError (status : Z) (errorMessage : option string)
    (* a thrown error with error.response; errorData?.error?.message *)
| ApiOtherError (e : Thrown).
    (* a network or other error, without error.response *)

(** The oracles. The first argument of an oracle is the number of external
    calls made before this one. *)
Record Env : Type := {
  env_join : list string -> string;               (* path.join *)
  env_existsSync : nat -> string -> bool;         (* paths outside the file store *)
  env_chdir : nat -> string -> option string;     (* Some m: chdir throws Error(m) *)
  env_spawn : nat -> list string -> Result Proc;  (* Bun's spawn *)
  env_apiKey : option string;                     (* process.env.LANGUAGE_MODEL_API_KEY *)
  env_completion : nat -> string -> ApiOutcome;   (* openai.chat.completions.create *)
  env_now : nat -> string;                        (* new Date().toISOString() *)
  env_write : nat -> string -> string -> option Thrown;  (* Some e: Bun.write throws e *)
  env_read : nat -> string -> option Thrown;      (* Some e: file.text() throws e *)
  env_typeError : string
    (* the engine's message for the TypeError of [undefined.includes(..)] *)
}.

(** Observable actions, in the order they happen. *)
Inductive Event : Type :=
| EvSpawn (argv : list string)            (* a child process was launched *)
| EvChdir (path : string)                 (* process.chdir(path) was called *)
| EvLanguageModel (prompt : string)       (* queryLanguageModel(prompt) was called *)
| EvWrite (path content : string).        (* Bun.write(path, content) was called *)

Record World : Type := {
  cwd : string;                     (* the process working directory *)
  files : list (string * string);   (* regular files written through Bun.write *)
  tick : nat;                       (* external calls made so far *)
  trace : list Event                (* actions so far, oldest first *)
}.

Fixpoint lookup_file (path : string) (fs : list (string * string)) : option string :=
  match fs with
  | [] => None
  | (p, c) :: rest => if String.eqb p path then Some c else lookup_file path rest
  end.

Fixpoint store_file (path content : string) (fs : list (string * string))
  : list (string * string) :=
  match fs with
  | [] => [(path, content)]
  | (p, c) :: rest =>
      if String.eqb p path then (p, content) :: rest
      else (p, c) :: store_file path content rest
  end.

(** One external call: the counter advances and the events are recorded. *)
Definition advance (evs : list Event) (w : World) : World :=
  {| cwd := cwd w; files := files w; tick := S (tick w); trace := (trace w ++ evs)%list |}.

Definition set_cwd (path : string) (w : World) : World :=
  {| cwd := path; files := files w; tick := tick w; trace := trace w |}.

Definition set_files (fs : list (string * string)) (w : World) : World :=
  {| cwd := cwd w; files := fs; tick := tick w; trace := trace w |}.

(** Is this the launch of the coding agent? *)
Definition is_agent_spawn (e : Event) : bool :=
  match e with
  | EvSpawn (cmd :: _) => String.eqb cmd "aider"
  | _ => false
  end.

Definition is_spawn (e : Event) : bool :=
  match e with EvSpawn _ => true | _ => false end.

Definition is_language_model (e : Event) : bool :=
  match e with EvLanguageModel _ => true | _ => false end.

Definition is_write (e : Event) : bool :=
  match e with EvWrite _ _ => true | _ => false end.

Definition agent_invocations (w : World) : nat :=
  length (filter is_agent_spawn (trace w)).

Section Program.

Variable env : Env.

(* ------------------------------------------------------------------ *)
(** *** Primitives *)

(** [error.message.includes(sub)]: a TypeError when [error.message] is
    [undefined]. *)
Definition message_includes {St} (error : Thrown) (sub : string) : M St bool :=
  match error with
  | ErrorObj m => ret (Js.includes m sub)
  | NonError => throw (ErrorObj (env_typeError env))
  end.

Definition process_cwd : M World string := fun w => (Ok (cwd w), w).

Definition process_chdir (path : string) : M World unit :=
  fun w =>
    match env_chdir env (tick w) path with
    | None => (Ok tt, set_cwd path (advance [EvChdir path] w))
    | Some m => (Throw (ErrorObj m), advance [EvChdir path] w)
    end.

Definition existsSync (path : string) : M World bool :=
  fun w =>
    match lookup_file path (files w) with
    | Some _ => (Ok true, advance [] w)
    | None => (Ok (env_existsSync env (tick w) path), advance [] w)
    end.

Definition spawn (argv : list string) : M World Proc :=
  fun w => (env_spawn env (tick w) argv, advance [EvSpawn argv] w).

(** [await new Response(p.stdout).text()], [await new Response(p.stderr).text()]
    and [await p.exited]. *)
Definition stdout_text {St} (p : Proc) : M St string := of_result (proc_stdout p).
Definition stderr_text {St} (p : Proc) : M St string := of_result (proc_stderr p).
Definition exited {St} (p : Proc) : M St Z := of_result (proc_exited p).

Definition Bun_write (path content : string) : M World unit :=
  fun w =>
    match env_write env (tick w) path content with
    | None =>
        (Ok tt, set_files (store_file path content (files w))
                          (advance [EvWrite path content] w))
    | Some e => (Throw e, advance [EvWrite path content] w)
    end.

(** [Bun.file(path).text()] *)
Definition Bun_file_text (path : string) : M World string :=
  fun w =>
    match env_read env (tick w) path with
    | Some e => (Throw e, advance [] w)
    | None =>
        match lookup_file path (files w) with
        | Some c => (Ok c, advance [] w)
        | None =>
            (Throw (ErrorObj ("ENOENT: no such file or directory, open '"
                              ++ path ++ "'")),
             advance [] w)
        end
    end.

(* ------------------------------------------------------------------ *)
(** *** utils.ts *)

Definition queryLanguageModel (prompt : string) : M World string :=
  fun w =>
    let w1 := advance [EvLanguageModel prompt] w in
    if negb (Js.truthy (env_apiKey env)) then
      (Throw (ErrorObj "LANGUAGE_MODEL_API_KEY environment variable not set"), w1)
    else
      match env_completion env (tick w) prompt with
      | ApiContent content =>
          let responseContent := Js.or_else content EmptyString in
          match responseContent with
          | EmptyString => (Ok "No response received from language model.", w1)
          | _ => (Ok responseContent, w1)
          end
      | ApiHttpError status errorMessage =>
          if (status =? 401)%Z then
            (Throw (ErrorObj "Invalid API key. Please check your LANGUAGE_MODEL_API_KEY environment variable."), w1)
          else if (status =? 429)%Z then
            (Throw (ErrorObj "API rate limit exceeded. Please try again later."), w1)
          else if (status =? 500)%Z then
            (Throw (ErrorObj "Language model API server error. Please try again later."), w1)
          else
            (Throw (ErrorObj ("Language model API error: "
                              ++ Js.or_else errorMessage "Unknown error")), w1)
      | ApiOtherError e =>
          (Throw (ErrorObj ("Error querying language model: " ++ message_text e)), w1)
      end.

Definition getFormattedTimestamp : M World string :=
  fun w => (Ok (env_now env (tick w)), advance [] w).

(* ------------------------------------------------------------------ *)
(** *** vcsManager.ts *)

Inductive VCS : Type := JJ | Git.

Definition detectVC : M World VCS :=
  hasJj <- existsSync ".jj" ;;
  if hasJj then ret JJ
  else
    found <- try_catch
               (process <- spawn ["jj"; "status"] ;;
                exitCode <- exited process ;;
                if (exitCode =? 0)%Z then ret true
                else (_ <- stderr_text process ;; ret false))
               (fun _ => ret false) ;;
    if found then ret JJ else ret Git.

(** The [jj] and the [git] arm of [createBranch] run the same two steps and
    differ in the command lines only. *)
Definition branch_argv (vcs : VCS) (specName : string) : list string :=
  match vcs with
  | JJ => ["jj"; "branch"; "create"; specName]
  | Git => ["git"; "branch"; specName]
  end.

Definition worktree_argv (vcs : VCS) (worktreePath specName : string) : list string :=
  match vcs with
  | JJ => ["jj"; "worktree"; "add"; worktreePath; specName]
  | Git => ["git"; "worktree"; "add"; worktreePath; specName]
  end.

Definition createBranch_try (vcs : VCS) (specName worktreePath : string)
  : M World string :=
  branchProcess <- spawn (branch_argv vcs specName) ;;
  branchExitCode <- exited branchProcess ;;
  (if negb (branchExitCode =? 0)%Z then
     stderr <- stderr_text branchProcess ;;
     if negb (Js.includes stderr "already exists")
     then throw (ErrorObj ("Failed to create branch: " ++ stderr))
     else ret tt
   else ret tt) ;;
  worktreeProcess <- spawn (worktree_argv vcs worktreePath specName) ;;
  worktreeExitCode <- exited worktreeProcess ;;
  (if negb (worktreeExitCode =? 0)%Z then
     stderr <- stderr_text worktreeProcess ;;
     throw (ErrorObj ("Failed to create worktree: " ++ stderr))
   else ret tt) ;;
  ret worktreePath.

Definition createBranch_catch (specName worktreePath : string) (error : Thrown)
  : M World string :=
  let errorMessage := "Error creating branch and worktree: " ++ message_text error in
  b1 <- message_includes error "already exists" ;;
  if b1 then
    throw (ErrorObj ("Branch '" ++ specName ++ "' already exists. Use a different name or clean up the existing branch first."))
  else
  b2 <- message_includes error "not a git repository" ;;
  if b2 then
    throw (ErrorObj "Failed to create branch: Not a git repository. Ensure you're in the root of a valid git repository.")
  else
  b3 <- message_includes error "path already exists" ;;
  if b3 then
    throw (ErrorObj ("Worktree path '" ++ worktreePath ++ "' already exists. Remove it manually or use a different spec name."))
  else
  b4 <- message_includes error "Permission denied" ;;
  if b4 then
    throw (ErrorObj "Permission denied when creating branch or worktree. Check your file system permissions.")
  else
    throw (ErrorObj errorMessage).

Definition createBranch (specName : string) : M World string :=
  vcs <- detectVC ;;
  let worktreePath := env_join env [".."; "worktrees"; specName] in
  try_catch (createBranch_try vcs specName worktreePath)
            (createBranch_catch specName worktreePath).

(* ------------------------------------------------------------------ *)
(** *** taskExecutor.ts: data *)

Record TaskEvaluation : Type := {
  type : string;                    (* 'test' | 'command' *)
  command : option string;
  check_prompt : option string
}.

Record Task : Type := {
  name : string;
  done : option bool;
  prompt : string;
  evaluation : option TaskEvaluation
}.

(** [retries] is a non-negative integer (the schema of the spec file
    rejects anything else). *)
Record AiderConfig : Type := {
  model : string;
  architect_mode : bool;
  editable_files : list string;
  readonly_files : list string;
  retries : nat;
  test_command : option string
}.

Record Spec : Type := {
  aider_config : AiderConfig;
  objective : string;
  implementation_details : string;
  tasks : list Task
}.

Record TaskResult : Type := {
  success : bool;
  attempts : nat;
  error : option string;
  output : option string
}.

(** What [evaluateTask] and [evaluateWithLanguageModel] return. *)
Record Evaluation : Type := {
  e_success : bool;
  e_error : option string
}.

(** [if (task.done)] *)
Definition is_done (task : Task) : bool :=
  match done task with
  | Some true => true
  | _ => false
  end.

(** [task.done = true] *)
Definition mark_done (task : Task) : Task :=
  {| name := name task; done := Some true; prompt := prompt task;
     evaluation := evaluation task |}.

Definition prepareTaskPrompt (spec : Spec) (task : Task) : string :=
  "Objective:" ++ Js.nl ++
  objective spec ++ Js.nl ++
  Js.nl ++
  "Technical Notes:" ++ Js.nl ++
  implementation_details spec ++ Js.nl ++
  Js.nl ++
  "Task Prompt:" ++ Js.nl ++
  prompt task.

(* ------------------------------------------------------------------ *)
(** *** taskExecutor.ts: evaluation *)

(** The "Parse response" part of [evaluateWithLanguageModel]. *)
Definition parse_response (response : string) : Evaluation :=
  let normalizedResponse := Js.trim (Js.toLowerCase response) in
  if negb (String.eqb normalizedResponse "yes")
     && negb (String.eqb normalizedResponse "no")
  then
    let success :=
      Js.includes normalizedResponse "yes"
      || Js.includes normalizedResponse "pass"
      || Js.includes normalizedResponse "succeed"
      || Js.includes normalizedResponse "correct" in
    {| e_success := success;
       e_error :=
         if success then None
         else Some ("Language model evaluation could not confirm success. Response: "
                    ++ Js.dquote ++ Js.substring response 0 100 ++ "..." ++ Js.dquote) |}
  else
    let success := String.eqb normalizedResponse "yes" in
    {| e_success := success;
       e_error :=
         if success then None
         else Some ("Language model evaluation returned "
                    ++ Js.dquote ++ "no" ++ Js.dquote) |}.

Definition language_model_prompt (checkPrompt commandOutput : string) : string :=
  checkPrompt ++ Js.nl ++ Js.nl ++ "Command output:" ++ Js.nl ++ commandOutput
  ++ Js.nl ++ Js.nl ++ "Please respond with only 'yes' or 'no'.".

Definition evaluateWithLanguageModel (checkPrompt commandOutput : string)
  : M World Evaluation :=
  try_catch
    (let fullPrompt := language_model_prompt checkPrompt commandOutput in
     try_catch
       (response <- queryLanguageModel fullPrompt ;;
        ret (parse_response response))
       (fun apiError =>
          ret {| e_success := false;
                 e_error := Some ("Language model evaluation skipped due to API error: "
                                  ++ message_text apiError
                                  ++ ". Please review the task output manually.") |}))
    (fun error =>
       ret {| e_success := false;
              e_error := Some ("Error in language model evaluation: "
                               ++ message_text error
                               ++ ". Evaluation skipped; please review the task output manually.") |}).

Definition space : ascii := ascii_of_nat 32.

Definition evaluateTask (spec : Spec) (task : Task) (aiderOutput : string)
  : M World Evaluation :=
  match evaluation task with
  | None => ret {| e_success := true; e_error := None |}
  | Some ev =>
      try_catch
        (if String.eqb (type ev) "test" then
           (* Run test command from config *)
           let testCommand := test_command (aider_config spec) in
           if negb (Js.truthy testCommand) then
             let error := "Test command not specified in aider_config.test_command" in
             ret {| e_success := false; e_error := Some error |}
           else
             (* [cmd, ...args] = testCommand.split(' '); spawn([cmd, ...args]) *)
             testProcess <- spawn (Js.split space (Js.or_else testCommand EmptyString)) ;;
             exitCode <- exited testProcess ;;
             stderr <- stderr_text testProcess ;;
             if negb (exitCode =? 0)%Z then
               let error := "Test command failed with exit code "
                            ++ Js.string_of_Z exitCode ++ ": " ++ stderr in
               ret {| e_success := false; e_error := Some error |}
             else ret {| e_success := true; e_error := None |}
         else if String.eqb (type ev) "command" then
           (* Run custom command *)
           if negb (Js.truthy (command ev)) then
             let error := "Command not specified in task.evaluation.command" in
             ret {| e_success := false; e_error := Some error |}
           else
             commandProcess <- spawn (Js.split space (Js.or_else (command ev) EmptyString)) ;;
             stdout <- stdout_text commandProcess ;;
             stderr <- stderr_text commandProcess ;;
             exitCode <- exited commandProcess ;;
             if negb (exitCode =? 0)%Z then
               let error := "Command failed with exit code "
                            ++ Js.string_of_Z exitCode ++ ": " ++ stderr in
               ret {| e_success := false; e_error := Some error |}
             else if Js.truthy (check_prompt ev) then
               evaluateWithLanguageModel (Js.or_else (check_prompt ev) EmptyString) stdout
             else ret {| e_success := true; e_error := None |}
         else
           ret {| e_success := false;
                  e_error := Some ("Unknown evaluation type: " ++ type ev) |})
        (fun error =>
           ret {| e_success := false;
                  e_error := Some ("Error in evaluation: " ++ message_text error) |})
  end.

(* ------------------------------------------------------------------ *)
(** *** taskExecutor.ts: executeTask *)

(** The mutable variables of one call of [executeTask]: the [result] object
    and the four [let] variables of the retry loop. They sit in the state of
    the monad, so what was assigned before a throw is still there in the
    handler. *)
Record Frame : Type := {
  result : TaskResult;
  f_success : bool;
  f_attempts : nat;
  lastError : string;
  lastOutput : string
}.

Definition initial_frame : Frame :=
  {| result := {| success := false; attempts := 0; error := None; output := None |};
     f_success := false;
     f_attempts := 0;
     lastError := EmptyString;
     lastOutput := EmptyString |}.

Definition set_result (r : TaskResult) (f : Frame) : Frame :=
  {| result := r; f_success := f_success f; f_attempts := f_attempts f;
     lastError := lastError f; lastOutput := lastOutput f |}.

Definition set_success (b : bool) (f : Frame) : Frame :=
  {| result := result f; f_success := b; f_attempts := f_attempts f;
     lastError := lastError f; lastOutput := lastOutput f |}.

Definition set_lastError (m : string) (f : Frame) : Frame :=
  {| result := result f; f_success := f_success f; f_attempts := f_attempts f;
     lastError := m; lastOutput := lastOutput f |}.

Definition set_lastOutput (o : string) (f : Frame) : Frame :=
  {| result := result f; f_success := f_success f; f_attempts := f_attempts f;
     lastError := lastError f; lastOutput := o |}.

(** [attempts++; result.attempts = attempts;] *)
Definition count_attempt (f : Frame) : Frame :=
  let attempts' := S (f_attempts f) in
  {| result := {| success := success (result f); attempts := attempts';
                  error := error (result f); output := output (result f) |};
     f_success := f_success f; f_attempts := attempts';
     lastError := lastError f; lastOutput := lastOutput f |}.

Definition liftW {A} (c : M World A) : M (World * Frame) A :=
  fun s => let (r, w') := c (fst s) in (r, (w', snd s)).

Definition getF : M (World * Frame) Frame := fun s => (Ok (snd s), s).

Definition modifyF (g : Frame -> Frame) : M (World * Frame) unit :=
  fun s => (Ok tt, (fst s, g (snd s))).

Definition aider_args (spec : Spec) (prompt : string) : list string :=
  let cfg := aider_config spec in
  (["--model"; model cfg]
   ++ (if architect_mode cfg then ["--architect"] else [])
   ++ (if (0 <? length (editable_files cfg))%nat
       then "--files" :: editable_files cfg else [])
   ++ (if (0 <? length (readonly_files cfg))%nat
       then "--readonly" :: readonly_files cfg else [])
   ++ [prompt])%list.

(** The message for a non-zero exit of the agent. *)
Definition aider_exit_message (exitCode : Z) (stderr : string) : string :=
  if Js.includes stderr "command not found" then
    "Aider is not installed or not in PATH. Please ensure Aider is installed and accessible."
  else if Js.includes stderr "API key" then
    "Aider API key error: " ++ stderr ++ ". Please check your API key configuration."
  else if Js.includes stderr "rate limit" then
    "API rate limit exceeded: " ++ stderr ++ ". Please try again later."
  else if Js.includes stderr "timeout" then
    "Aider execution timed out: " ++ stderr ++ ". Consider simplifying the task or increasing timeout limits."
  else
    "Aider exited with code " ++ Js.string_of_Z exitCode ++ ": " ++ stderr.

(** The [try] block of one iteration. A [continue] ends the block. *)
Definition attempt_try (spec : Spec) (task : Task) (prompt : string)
  : M (World * Frame) unit :=
  aiderProcess <- liftW (spawn ("aider" :: aider_args spec prompt)) ;;
  stdout <- stdout_text aiderProcess ;;
  stderr <- stderr_text aiderProcess ;;
  modifyF (set_lastOutput stdout) ;;
  exitCode <- exited aiderProcess ;;
  if negb (exitCode =? 0)%Z then
    modifyF (set_lastError (aider_exit_message exitCode stderr))
  else
    match evaluation task with
    | Some _ =>
        evaluationResult <- liftW (evaluateTask spec task stdout) ;;
        modifyF (set_success (e_success evaluationResult)) ;;
        if negb (e_success evaluationResult) then
          modifyF (set_lastError
                     (Js.or_else (e_error evaluationResult)
                                 "Evaluation failed without specific error"))
        else ret tt
    | None => modifyF (set_success true)
    end.

(** The [catch] block of one iteration. *)
Definition attempt_catch (error : Thrown) : M (World * Frame) unit :=
  b1 <- message_includes error "ENOENT" ;;
  if b1 then
    modifyF (set_lastError "Aider executable not found. Please ensure Aider is installed and in your PATH.")
  else
  b2 <- message_includes error "EACCES" ;;
  if b2 then
    modifyF (set_lastError "Permission denied when executing Aider. Check file permissions.")
  else
  b3 <- message_includes error "ETIMEDOUT" ;;
  if b3 then
    modifyF (set_lastError "Connection timed out when executing Aider. Check your network connection.")
  else
    modifyF (set_lastError ("Error executing Aider: " ++ message_text error)).

(** [while (!success && attempts < maxRetries) { ... }]. The loop makes at
    most [maxRetries] iterations; [fuel] bounds them for the recursion, and
    [retry_loop_exit] below shows that [maxRetries] is enough fuel. *)
Fixpoint retry_loop (spec : Spec) (task : Task) (prompt : string)
  (maxRetries fuel : nat) : M (World * Frame) unit :=
  f <- getF ;;
  if negb (f_success f) && (f_attempts f <? maxRetries)%nat then
    match fuel with
    | O => ret tt
    | S fuel' =>
        modifyF count_attempt ;;
        try_catch (attempt_try spec task prompt) attempt_catch ;;
        retry_loop spec task prompt maxRetries fuel'
    end
  else ret tt.

(** "Set result properties" *)
Definition final_result (f : Frame) : TaskResult :=
  {| success := f_success f;
     attempts := attempts (result f);
     error :=
       if negb (f_success f) then
         Some ("Task failed after " ++ Js.string_of_nat (f_attempts f)
               ++ " attempts. Last error: " ++ lastError f)
       else error (result f);
     output := Some (lastOutput f) |}.

(** The outer [try] block. *)
Definition executeTask_try (spec : Spec) (task : Task) (specName : string)
  : M (World * Frame) TaskResult :=
  (* Create branch and worktree if they don't exist *)
  worktreePath <- liftW (createBranch specName) ;;
  (* Store the original working directory to return to later *)
  originalCwd <- liftW process_cwd ;;
  (* Change to the worktree directory *)
  here <- liftW process_cwd ;;
  let absoluteWorktreePath := env_join env [here; worktreePath] in
  present <- liftW (existsSync absoluteWorktreePath) ;;
  if negb present then
    throw (ErrorObj ("Worktree directory does not exist: " ++ absoluteWorktreePath))
  else
    liftW (process_chdir absoluteWorktreePath) ;;
    let prompt := prepareTaskPrompt spec task in
    let maxRetries := retries (aider_config spec) in
    retry_loop spec task prompt maxRetries maxRetries ;;
    (* Return to original directory *)
    liftW (process_chdir originalCwd) ;;
    f <- getF ;;
    modifyF (set_result (final_result f)) ;;
    ret (final_result f).

Definition set_error (m : string) (r : TaskResult) : TaskResult :=
  {| success := success r; attempts := attempts r; error := Some m;
     output := output r |}.

(** The outer [catch] block. *)
Definition executeTask_catch (error : Thrown) : M (World * Frame) TaskResult :=
  b1 <- message_includes error "Worktree directory does not exist" ;;
  m <- (if b1 then
          ret ("Failed to access worktree: " ++ message_text error
               ++ ". Check if the worktree was properly created.")
        else
        b2 <- message_includes error "Branch" ;;
        if b2 then
          ret ("Branch error: " ++ message_text error
               ++ ". Check version control system status.")
        else
        b3 <- message_includes error "chdir" ;;
        if b3 then
          ret ("Failed to change directory: " ++ message_text error
               ++ ". Check if the directory exists and is accessible.")
        else
          ret ("Error in task execution: " ++ message_text error)) ;;
  f <- getF ;;
  modifyF (set_result (set_error m (result f))) ;;
  ret (set_error m (result f)).

Definition executeTask (spec : Spec) (task : Task) (specName : string)
  : M World TaskResult :=
  fun w =>
    let (r, s) := try_catch (executeTask_try spec task specName)
                            executeTask_catch (w, initial_frame) in
    (r, fst s).

(* ------------------------------------------------------------------ *)
(** *** taskExecutor.ts: executeAllTasks *)

(** The object collected for every executed task (lines 488-495). *)
Record TaskExecutionData : Type := {
  d_specName : string;
  d_taskName : string;
  d_attempts : nat;
  d_success : bool;
  d_error : option string;
  d_output : option string
}.

Definition execution_data (specName : string) (task : Task) (r : TaskResult)
  : TaskExecutionData :=
  {| d_specName := specName;
     d_taskName := name task;
     d_attempts := attempts r;
     d_success := success r;
     d_error := error r;
     d_output := output r |}.

(** The [for] loop over [spec.tasks]. It returns the task list as the loop
    leaves it (a task object is mutated by [task.done = true]), the
    [results] array and the [executionDataArray], both in push order. *)
Fixpoint executeAllTasks_loop (spec : Spec) (specName : string) (todo : list Task)
  : M World (list Task * list TaskResult * list TaskExecutionData) :=
  match todo with
  | [] => ret ([], [], [])
  | task :: rest =>
      if is_done task then
        (* Skip tasks that are already done *)
        ' (rest', results, data) <- executeAllTasks_loop spec specName rest ;;
        ret (task :: rest', results, data)
      else
        r <- executeTask spec task specName ;;
        let executionData := execution_data specName task r in
        if success r then
          (* Mark task as done if successful *)
          ' (rest', results, data) <- executeAllTasks_loop spec specName rest ;;
          ret (mark_done task :: rest', r :: results, executionData :: data)
        else
          (* Stop execution on first failure *)
          ret (task :: rest, [r], [executionData])
  end.

(** What [import('./lessonsLogger')] would give: the export [logLessons]. *)
Definition LessonsLogger : Type :=
  string -> list TaskExecutionData -> M World nat.

(** [await import('./lessonsLogger')]. The file src/lessonsLogger.ts, as
    given, is a syntax error: the string literal that opens in single quotes
    at its line 121 runs over the lines 121-126. The module cannot be
    loaded, so the import rejects every time and [logLessons] is never
    obtained. The message of the error is the engine's; the program only
    prints it. *)
Definition import_lessonsLogger : M World LessonsLogger :=
  throw (ErrorObj "Unterminated string literal").

(** [executeAllTasks] returns [results]; the model returns with it the task
    list of the spec as the call leaves it. *)
Definition executeAllTasks (spec : Spec) (specName mainRepoRoot : string)
  : M World (list Task * list TaskResult) :=
  ' (tasks', results, data) <- executeAllTasks_loop spec specName (tasks spec) ;;
  (* Log lessons for all executed tasks *)
  try_catch
    (logLessons <- import_lessonsLogger ;;
     _ <- logLessons mainRepoRoot data ;;
     ret tt)
    (fun _ => ret tt) ;;
  ret (tasks', results).

End Program.

Arguments message_includes env {St} error sub.
Arguments stdout_text {St} p.
Arguments stderr_text {St} p.
Arguments exited {St} p.

(* ================================================================== *)
(** ** Concrete environments for the scenarios *)
(* ================================================================== *)

Module Scenario.

(** A child process whose streams can be read and that exits with [code]. *)
Definition clean_exit (code : Z) (out err : string) : Proc :=
  {| proc_stdout := Ok out; proc_stderr := Ok err; proc_exited := Ok code |}.

(** A repository at [/repo] under Jujutsu (the [.jj] directory exists), in
    which every version-control command succeeds, every directory exists
    but [/repo/LESSONS.md] has not been written yet, the file system never
    fails, and the completion API answers [reply]. [agent] says what the
    launches of [aider] do and [chdir] what [process.chdir] does. *)
Definition repo_env (agent : nat -> Result Proc)
  (chdir : nat -> string -> option string) (reply : string) : Env :=
  {| env_join := String.concat "/";
     env_existsSync := fun _ p => negb (String.eqb p "/repo/LESSONS.md");
     env_chdir := chdir;
     env_spawn := fun t argv =>
       match argv with
       | cmd :: _ =>
           if String.eqb cmd "aider" then agent t
           else Ok (clean_exit 0 EmptyString EmptyString)
       | [] => Ok (clean_exit 0 EmptyString EmptyString)
       end;
     env_apiKey := Some "sk-test";
     env_completion := fun _ _ => ApiContent (Some reply);
     env_now := fun _ => "2024-01-01T00:00:00.000Z";
     env_write := fun _ _ _ => None;
     env_read := fun _ _ => None;
     env_typeError :=
       "undefined is not an object (evaluating 'error.message.includes')" |}.

Definition chdir_ok : nat -> string -> option string := fun _ _ => None.

(** The same repository, except that the worktree directory is missing. *)
Definition no_worktree_env : Env :=
  {| env_join := String.concat "/";
     env_existsSync := fun _ p => String.eqb p ".jj";
     env_chdir := chdir_ok;
     env_spawn := fun _ _ => Ok (clean_exit 0 EmptyString EmptyString);
     env_apiKey := Some "sk-test";
     env_completion := fun _ _ => ApiContent (Some "yes");
     env_now := fun _ => "2024-01-01T00:00:00.000Z";
     env_write := fun _ _ _ => None;
     env_read := fun _ _ => None;
     env_typeError :=
       "undefined is not an object (evaluating 'error.message.includes')" |}.

Definition start : World :=
  {| cwd := "/repo"; files := []; tick := 0; trace := [] |}.

Definition config (n : nat) : AiderConfig :=
  {| model := "gpt-4"; architect_mode := false;
     editable_files := ["src/index.ts"]; readonly_files := [];
     retries := n; test_command := None |}.

Definition plain (n : string) : Task :=
  {| name := n; done := None; prompt := "Implement " ++ n; evaluation := None |}.

Definition tested (n : string) : Task :=
  {| name := n; done := None; prompt := "Implement " ++ n;
     evaluation := Some {| type := "test"; command := None; check_prompt := None |} |}.

Definition checked (n cmd : string) (cp : option string) : Task :=
  {| name := n; done := None; prompt := "Implement " ++ n;
     evaluation := Some {| type := "command"; command := Some cmd;
                           check_prompt := cp |} |}.

Definition spec_of (n : nat) (ts : list Task) : Spec :=
  {| aider_config := config n; objective := "Add a parser";
     implementation_details := "Use TypeScript"; tasks := ts |}.

(** The worktree of the spec [feat], as [executeTask] computes its path. *)
Definition worktree : string := "/repo/../worktrees/feat".

(** [process.chdir] fails when asked to go back to [/repo]. *)
Definition chdir_back_fails : nat -> string -> option string :=
  fun _ p =>
    if String.eqb p "/repo"
    then Some "ENOENT: no such file or directory, chdir '/repo/../worktrees/feat' -> '/repo'"
    else None.

(** The agent exits zero every time. *)
Definition passing_env : Env :=
  repo_env (fun _ => Ok (clean_exit 0 "ok" EmptyString)) chdir_ok
           "Check inputs first.".

(** The agent exits with code 1 every time. *)
Definition failing_env : Env :=
  repo_env (fun _ => Ok (clean_exit 1 EmptyString "boom")) chdir_ok
           "Check the agent setup.".

(** The agent exits with code 1 every time, after printing a draft that
    carries the number of the launch among the external calls. *)
Definition drafting_env : Env :=
  repo_env (fun t => Ok (clean_exit 1 ("draft " ++ Js.string_of_nat t) "boom"))
           chdir_ok "Check the agent setup.".

(** The agent exits zero, and the way back to [/repo] is closed. *)
Definition stuck_env : Env :=
  repo_env (fun _ => Ok (clean_exit 0 "ok" EmptyString)) chdir_back_fails "yes".

(** Every command exits with code 2 and writes [lint failed] to stderr. *)
Definition lint_fails_env : Env :=
  {| env_join := String.concat "/";
     env_existsSync := fun _ _ => true;
     env_chdir := chdir_ok;
     env_spawn := fun _ _ => Ok (clean_exit 2 "checked 3 files" "lint failed");
     env_apiKey := Some "sk-test";
     env_completion := fun _ _ => ApiContent (Some "yes");
     env_now := fun _ => "2024-01-01T00:00:00.000Z";
     env_write := fun _ _ _ => None;
     env_read := fun _ _ => None;
     env_typeError :=
       "undefined is not an object (evaluating 'error.message.includes')" |}.

Definition one_task (n : nat) : Spec := spec_of n [plain "parse"].

Definition two_tasks (n : nat) : Spec := spec_of n [plain "parse"; plain "print"].

Definition three_tasks (n : nat) : Spec :=
  spec_of n [plain "parse"; plain "print"; plain "check"].

End Scenario.

(* ================================================================== *)
(** ** Vocabulary of the properties *)
(* ================================================================== *)

(** *** Relations that every step of a computation keeps *)

Definition stable {St A} (R : St -> St -> Prop) (c : M St A) : Prop :=
  forall s, R s (snd (c s)).

(** The world moved on by events that all satisfy [P]. *)
Definition extends (P : Event -> Prop) (w w' : World) : Prop :=
  exists evs, trace w' = (trace w ++ evs)%list /\ Forall P evs.

(** A relation on worlds, seen on the states of [executeTask]. *)
Definition on_world (R : World -> World -> Prop) (s s' : World * Frame) : Prop :=
  R (fst s) (fst s').

(** Events of the version-control commands: neither the coding agent, nor
    the language model, nor a file write. *)
Definition version_control_only (e : Event) : Prop :=
  is_agent_spawn e = false /\ is_language_model e = false /\ is_write e = false.

Definition same_files (w w' : World) : Prop := files w' = files w.

Definition same_cwd (w w' : World) : Prop := cwd w' = cwd w.

(** A part of the frame of [executeTask] is as before. *)
Definition frame_kept {X} (part : Frame -> X) (s s' : World * Frame) : Prop :=
  part (snd s') = part (snd s).

(** The [output] and [success] fields of the [result] object. *)
Definition result_fields (f : Frame) : option string * bool :=
  (output (result f), success (result f)).

(** *** What a computation can throw *)

Definition is_error (e : Thrown) : Prop := exists m, e = ErrorObj m.

(** Whatever [c] throws is an [Error] object. *)
Definition throws_errors {St A} (c : M St A) : Prop :=
  forall s e, fst (c s) = Throw e -> is_error e.

(** *** Evaluation *)

(** The keyword fallback of the judgment step. *)
Definition keyword_match (normalized : string) : bool :=
  Js.includes normalized "yes" || Js.includes normalized "pass"
  || Js.includes normalized "succeed" || Js.includes normalized "correct".

(** The same task with another [check_prompt]. *)
Definition with_check_prompt (cp : option string) (task : Task) : Task :=
  {| name := name task; done := done task; prompt := prompt task;
     evaluation :=
       match evaluation task with
       | Some ev =>
           Some {| type := type ev; command := command ev; check_prompt := cp |}
       | None => None
       end |}.

Definition test_command_missing : string :=
  "Test command not specified in aider_config.test_command".

(** Every launch of the agent runs to a zero exit with readable streams. *)
Definition agent_always_exits_zero (env : Env) : Prop :=
  forall t args,
    exists p out err,
      env_spawn env t ("aider" :: args) = Ok p
      /\ proc_stdout p = Ok out
      /\ proc_stderr p = Ok err
      /\ proc_exited p = Ok 0%Z.

(** Every launch of the agent runs to a non-zero exit with readable
    streams. *)
Definition agent_always_exits_nonzero (env : Env) : Prop :=
  forall t args,
    exists p out err code,
      env_spawn env t ("aider" :: args) = Ok p
      /\ proc_stdout p = Ok out
      /\ proc_stderr p = Ok err
      /\ proc_exited p = Ok code
      /\ code <> 0%Z.

(** Every launch of the agent gives a process whose two streams can be read
    and whose standard output is [out]. Nothing is asked of its exit. *)
Definition agent_prints (env : Env) (out : string) : Prop :=
  forall t args,
    exists p err,
      env_spawn env t ("aider" :: args) = Ok p
      /\ proc_stdout p = Ok out
      /\ proc_stderr p = Ok err.

(** *** What the agent's process rejects with *)

Definition rejects_with_error {A} (r : Result A) : Prop :=
  match r with
  | Ok _ => True
  | Throw e => is_error e
  end.

(** Whatever goes wrong with the agent's process is reported as an [Error]
    object: the launch, the reading of either stream and the wait for the
    exit reject with [Error] objects only. *)
Definition agent_rejects_with_errors (env : Env) : Prop :=
  forall t args,
    match env_spawn env t ("aider" :: args) with
    | Ok p =>
        rejects_with_error (proc_stdout p)
        /\ rejects_with_error (proc_stderr p)
        /\ rejects_with_error (proc_exited p)
    | Throw e => is_error e
    end.

(** *** The attempts of executeTask *)

(** The world in which the retry loop of [executeTask] starts, when
    [createBranch] returned [worktreePath] in the world [w1]: the worktree
    directory was looked up and entered. *)
Definition in_worktree (env : Env) (worktreePath : string) (w1 : World) : World :=
  let absoluteWorktreePath := env_join env [cwd w1; worktreePath] in
  set_cwd absoluteWorktreePath (advance [EvChdir absoluteWorktreePath] (advance [] w1)).

(** The worlds in which the iterations of the retry loop start, first
    iteration first: the loop of [retry_loop], keeping the world of every
    iteration it makes. *)
Fixpoint attempt_starts (env : Env) (spec : Spec) (task : Task) (prompt : string)
  (maxRetries fuel : nat) (s : World * Frame) : list World :=
  if negb (f_success (snd s)) && (f_attempts (snd s) <? maxRetries)%nat then
    match fuel with
    | O => []
    | S fuel' =>
        fst s ::
        match try_catch (attempt_try env spec task prompt) (attempt_catch env)
                        (fst s, count_attempt (snd s)) with
        | (Ok _, s') => attempt_starts env spec task prompt maxRetries fuel' s'
        | (Throw _, _) => []
        end
    end
  else [].

(** What the iteration that starts in the world [w] captures: the standard
    output of the agent launched there, provided both streams of the process
    could be read ([lastOutput = stdout] comes after the two reads). *)
Definition captured (env : Env) (spec : Spec) (prompt : string) (w : World)
  : option string :=
  match env_spawn env (tick w) ("aider" :: aider_args spec prompt) with
  | Ok p =>
      match proc_stdout p, proc_stderr p with
      | Ok out, Ok _ => Some out
      | _, _ => None
      end
  | Throw _ => None
  end.

(** The output captured last by the iterations that started in [starts];
    [previous] when none of them captured any. *)
Definition last_captured (env : Env) (spec : Spec) (prompt : string)
  (starts : list World) (previous : string) : string :=
  fold_left (fun kept w =>
               match captured env spec prompt w with
               | Some out => out
               | None => kept
               end) starts previous.

(** *** Runs of the task loop *)

(** [if (task.done) continue] does not apply. *)
Definition pending (task : Task) : bool := negb (is_done task).

(** What happened to one task of the list during a run: the task object
    before and after, and the result of its execution if it was executed. *)
Record Step : Type := {
  before : Task;
  after : Task;
  outcome : option TaskResult
}.

Definition results_of (steps : list Step) : list TaskResult :=
  flat_map (fun st => match outcome st with Some r => [r] | None => [] end) steps.

Definition records_of (specName : string) (steps : list Step)
  : list TaskExecutionData :=
  flat_map (fun st =>
              match outcome st with
              | Some r => [execution_data specName (before st) r]
              | None => []
              end) steps.

Definition step_ok (st : Step) : Prop :=
  match outcome st with
  | None => after st = before st
  | Some r =>
      is_done (before st) = false
      /\ after st = (if success r then mark_done (before st) else before st)
  end.

Definition untouched (task : Task) : Step :=
  {| before := task; after := task; outcome := None |}.

(** [run env spec specName w steps w']: the steps are what the [for] loop of
    [executeAllTasks] does to a list of tasks, from the world [w] to the
    world [w']. A task that is done is passed over; a pending task is
    executed by [executeTask] in the world its predecessors left, and its
    result decides: on success the task is marked done and the loop goes on
    in the world the execution left, on failure the loop stops there and
    the tasks that follow are not looked at. *)
Inductive run (env : Env) (spec : Spec) (specName : string)
  : World -> list Step -> World -> Prop :=
| run_end w : run env spec specName w [] w
| run_skip w w' task steps :
    is_done task = true ->
    run env spec specName w steps w' ->
    run env spec specName w (untouched task :: steps) w'
| run_success w w1 w' task r steps :
    is_done task = false ->
    executeTask env spec task specName w = (Ok r, w1) ->
    success r = true ->
    run env spec specName w1 steps w' ->
    run env spec specName w
        ({| before := task; after := mark_done task; outcome := Some r |} :: steps) w'
| run_failure w w1 task r rest :
    is_done task = false ->
    executeTask env spec task specName w = (Ok r, w1) ->
    success r = false ->
    run env spec specName w
        ({| before := task; after := task; outcome := Some r |} :: map untouched rest) w1.

(* ================================================================== *)
(** ** More of the program *)
(* ================================================================== *)

(* ------------------------------------------------------------------ *)
(** *** vcsManager.ts: cleanupBranch *)

Section Cleanup.

Variable env : Env.

(** The [jj] and the [git] arm of [cleanupBranch] run the same two steps and
    differ in the command lines only. *)
Definition remove_worktree_argv (vcs : VCS) (worktreePath : string) : list string :=
  match vcs with
  | JJ => ["jj"; "worktree"; "remove"; worktreePath]
  | Git => ["git"; "worktree"; "remove"; worktreePath]
  end.

Definition delete_branch_argv (vcs : VCS) (specName : string) : list string :=
  match vcs with
  | JJ => ["jj"; "branch"; "delete"; specName]
  | Git => ["git"; "branch"; "-d"; specName]
  end.

(** One step, in its own [try]: launch the command, await its exit, read
    its stderr when the exit code is not zero. What is made of the stderr
    is a warning on the console; the [catch] block warns as well. *)
Definition cleanup_step (argv : list string) : M World unit :=
  try_catch
    (process <- spawn env argv ;;
     exitCode <- exited process ;;
     if negb (exitCode =? 0)%Z
     then (_ <- stderr_text process ;; ret tt)
     else ret tt)
    (fun _ => ret tt).

Definition cleanupBranch (specName : string) : M World unit :=
  vcs <- detectVC env ;;
  let worktreePath := env_join env [".."; "worktrees"; specName] in
  try_catch
    (cleanup_step (remove_worktree_argv vcs worktreePath) ;;
     cleanup_step (delete_branch_argv vcs specName))
    (fun error => throw error).

End Cleanup.

(* ------------------------------------------------------------------ *)
(** *** Merging the project settings into a spec: mergeAiderConfig
    (test-zod-validation.ts, lines 778-833) *)

(** [PartialAiderConfig], the [aider_config] of a spec file as the code
    reads it: every field is tested for [undefined] before it is used. *)
Module Partial.
Record AiderConfig : Type := {
  model : option string;
  architect_mode : option bool;
  editable_files : option (list string);
  readonly_files : option (list string);
  retries : option nat;
  test_command : option string
}.
End Partial.

(** [CompleteAiderConfig], the [aider_config] of the project settings and
    of a merged spec. *)
Module Complete.
Record AiderConfig : Type := {
  model : string;
  architect_mode : bool;
  editable_files : option (list string);
  readonly_files : option (list string);
  retries : nat;
  test_command : option string
}.
End Complete.

(** [set.add(x)]: a [Set] keeps its elements in insertion order and
    ignores a value it already holds. *)
Definition Set_add (set : list string) (x : string) : list string :=
  if existsb (String.eqb x) set then set else (set ++ [x])%list.

(** [[...new Set(xs)]] *)
Definition Set_of (xs : list string) : list string := fold_left Set_add xs [].

(** [a ?? b] *)
Definition nullish {A} (a : option A) (b : A) : A :=
  match a with Some x => x | None => b end.

(** [files || []] and [files ?? []]: an array is truthy, the empty one too. *)
Definition or_empty (files : option (list string)) : list string :=
  match files with Some l => l | None => [] end.

(** [[...new Set([...(projectFiles ?? []), ...specFiles])]] *)
Definition merge_files (projectFiles : option (list string)) (specFiles : list string)
  : list string :=
  Set_of (or_empty projectFiles ++ specFiles)%list.

(** [projectSettings] is [null] or an object whose only field is
    [aider_config]: the model passes that field. *)
Definition mergeAiderConfig (specConfig : option Partial.AiderConfig)
  (projectSettings : option Complete.AiderConfig) : Result Complete.AiderConfig :=
  match projectSettings with
  | None =>
      match specConfig with
      | None => Throw (ErrorObj "No Aider configuration found in spec or project settings")
      | Some specConfig =>
          Ok {| Complete.model :=
                  Js.or_else (Partial.model specConfig) EmptyString;
                Complete.architect_mode := nullish (Partial.architect_mode specConfig) false;
                Complete.editable_files :=
                  Some (or_empty (Partial.editable_files specConfig));
                Complete.readonly_files :=
                  Some (or_empty (Partial.readonly_files specConfig));
                Complete.retries := nullish (Partial.retries specConfig) 3;
                Complete.test_command := Partial.test_command specConfig |}
      end
  | Some project =>
      match specConfig with
      | None => Ok project
      | Some specConfig =>
          Ok {| Complete.model := nullish (Partial.model specConfig) (Complete.model project);
                Complete.architect_mode :=
                  nullish (Partial.architect_mode specConfig) (Complete.architect_mode project);
                Complete.editable_files :=
                  match Partial.editable_files specConfig with
                  | Some files => Some (merge_files (Complete.editable_files project) files)
                  | None => Complete.editable_files project
                  end;
                Complete.readonly_files :=
                  match Partial.readonly_files specConfig with
                  | Some files => Some (merge_files (Complete.readonly_files project) files)
                  | None => Complete.readonly_files project
                  end;
                Complete.retries :=
                  nullish (Partial.retries specConfig) (Complete.retries project);
                Complete.test_command :=
                  match Partial.test_command specConfig with
                  | Some c => Some c
                  | None => Complete.test_command project
                  end |}
      end
  end.

(* ------------------------------------------------------------------ *)
(** *** The command line: parseArgs (test-zod-validation.ts, lines 1357-1401) *)

Module Cli.

(** [ParsedArgs]; [command] holds the lowercased first argument. *)
Record ParsedArgs : Type := {
  command : string;
  specName : option string;
  specFile : option string;
  preset : option string
}.

(** [args.findIndex(p)]; [None] stands for [-1]. *)
Fixpoint findIndex (p : string -> bool) (args : list string) : option nat :=
  match args with
  | [] => None
  | arg :: rest =>
      if p arg then Some 0
      else match findIndex p rest with
           | Some i => Some (S i)
           | None => None
           end
  end.

Section ParseArgs.

(** [path.basename(p, ext)] and [path.extname(p)] *)
Variable basename : string -> string -> string.
Variable extname : string -> string.

(** [argv] is [process.argv]. *)
Definition parseArgs (argv : list string) : Result ParsedArgs :=
  (* Skip the first two arguments (node/bun and script path) *)
  let args := skipn 2 argv in
  match args with
  | [] => Throw (ErrorObj "No command specified")
  | arg0 :: rest =>
      let command := Js.toLowerCase arg0 in
      if negb (String.eqb command "generate") && negb (String.eqb command "run")
         && negb (String.eqb command "cleanup")
      then Throw (ErrorObj ("Invalid command: " ++ command
                            ++ ". Must be one of: generate, run, cleanup"))
      else
        match rest with
        | [] => Throw (ErrorObj ("Missing argument for command: " ++ command))
        | arg1 :: _ =>
            if String.eqb command "generate" then
              Ok {| command := command;
                    specName := Some arg1;
                    specFile := None;
                    preset :=
                      match findIndex (fun arg => String.eqb arg "--preset") args with
                      | Some presetIndex =>
                          if (presetIndex + 1 <? length args)%nat
                          then nth_error args (presetIndex + 1)
                          else None
                      | None => None
                      end |}
            else if String.eqb command "run" then
              Ok {| command := command;
                    specName := Some (basename arg1 (extname arg1));
                    specFile := Some arg1;
                    preset := None |}
            else if String.eqb command "cleanup" then
              Ok {| command := command;
                    specName := Some arg1;
                    specFile := None;
                    preset := None |}
            else
              Ok {| command := command; specName := None; specFile := None;
                    preset := None |}
        end
  end.

End ParseArgs.

(** [flag] first occurs in [args] at index [i]. *)
Definition first_at (flag : string) (args : list string) (i : nat) : Prop :=
  nth_error args i = Some flag
  /\ forall j, j < i -> nth_error args j <> Some flag.

End Cli.

(* ------------------------------------------------------------------ *)
(** *** Parsing and validating a spec: parseSpec and its validators
    (test-zod-validation.ts, lines 1145-1329) *)

(** A JavaScript number, as far as a comparison can tell: not-a-number, an
    infinity, or a fraction (every finite double is one). *)
Inductive Number : Type :=
| NaN
| Infinity (negative : bool)
| Finite (numerator : Z) (denominator : positive).

(** [n < 0] *)
Definition below_zero (n : Number) : bool :=
  match n with
  | NaN => false
  | Infinity negative => negative
  | Finite numerator _ => (numerator <? 0)%Z
  end.

(** What [yaml.load] returns: a value of type [any]. *)
#[local] Unset Elimination Schemes.
Inductive JsValue : Type :=
| JUndefined
| JNull
| JBoolean (b : bool)
| JNumber (n : Number)
| JString (s : string)
| JArray (items : list JsValue)
| JObject (fields : list (string * JsValue)).
#[local] Set Elimination Schemes.

Fixpoint lookup_field (field : string) (fields : list (string * JsValue))
  : option JsValue :=
  match fields with
  | [] => None
  | (k, v) :: rest => if String.eqb k field then Some v else lookup_field field rest
  end.

(** The value of a field of an object, [undefined] when it has none. *)
Definition field_of (fields : list (string * JsValue)) (field : string) : JsValue :=
  match lookup_field field fields with
  | Some v => v
  | None => JUndefined
  end.

Definition is_undefined (v : JsValue) : bool :=
  match v with JUndefined => true | _ => false end.

(** [typeof v === 'string'], [typeof v === 'boolean'], [Array.isArray(v)] *)
Definition is_string (v : JsValue) : bool :=
  match v with JString _ => true | _ => false end.

Definition is_boolean (v : JsValue) : bool :=
  match v with JBoolean _ => true | _ => false end.

Definition is_array (v : JsValue) : bool :=
  match v with JArray _ => true | _ => false end.

(** [v === literal] for a string literal *)
Definition is_literal (v : JsValue) (literal : string) : bool :=
  match v with JString s => String.eqb s literal | _ => false end.

(** [v.trim() === ''] for a [v] that is a string *)
Definition trims_to_empty (v : JsValue) : bool :=
  match v with
  | JString s => String.eqb (Js.trim s) EmptyString
  | _ => false
  end.

(** [typeof v !== 'string' || v.trim() === ''] *)
Definition not_a_filled_string (v : JsValue) : bool :=
  negb (is_string v) || trims_to_empty v.

Section Validators.

(** The engine's message for the TypeError of reading a property of [null]
    or [undefined]. *)
Variable typeError : JsValue -> string -> string.

Context {St : Type}.

(** [obj[field]]. The field names the validators read are names of the spec
    format; a primitive or an array has none of them. *)
Definition get (obj : JsValue) (field : string) : M St JsValue :=
  match obj with
  | JUndefined | JNull => throw (ErrorObj (typeError obj field))
  | JObject fields => ret (field_of fields field)
  | _ => ret JUndefined
  end.

(** [if (condition) { throw new Error(message); }] *)
Definition throw_if (condition : bool) (message : string) : M St unit :=
  if condition then throw (ErrorObj message) else ret tt.

Fixpoint validateRequiredFields (obj : JsValue) (requiredFields : list string)
  (objectName : string) : M St unit :=
  match requiredFields with
  | [] => ret tt
  | field :: rest =>
      v <- get obj field ;;
      throw_if (is_undefined v)
        ("Missing required field: " ++ objectName ++ "." ++ field) ;;
      validateRequiredFields obj rest objectName
  end.

Definition validateAiderConfig (config : JsValue) : M St unit :=
  (* Check required fields *)
  validateRequiredFields config
    ["model"; "architect_mode"; "editable_files"; "readonly_files"; "retries"]
    "aider_config" ;;
  (* Validate field types *)
  model <- get config "model" ;;
  throw_if (negb (is_string model)) "aider_config.model must be a string" ;;
  throw_if (trims_to_empty model) "aider_config.model cannot be empty" ;;
  architect_mode <- get config "architect_mode" ;;
  throw_if (negb (is_boolean architect_mode))
    "aider_config.architect_mode must be a boolean" ;;
  editable_files <- get config "editable_files" ;;
  throw_if (negb (is_array editable_files))
    "aider_config.editable_files must be an array" ;;
  readonly_files <- get config "readonly_files" ;;
  throw_if (negb (is_array readonly_files))
    "aider_config.readonly_files must be an array" ;;
  retries <- get config "retries" ;;
  throw_if (match retries with
            | JNumber n => below_zero n   (* typeof retries is 'number' *)
            | _ => true
            end)
    "aider_config.retries must be a non-negative number" ;;
  (* Validate optional fields if present *)
  test_command <- get config "test_command" ;;
  throw_if (negb (is_undefined test_command) && negb (is_string test_command))
    "aider_config.test_command must be a string if provided".

Definition evaluation_name (taskIndex : nat) : string :=
  "tasks[" ++ Js.string_of_nat taskIndex ++ "].evaluation".

Definition validateTaskEvaluation (evaluation : JsValue) (taskIndex : nat)
  : M St unit :=
  (* Check required fields *)
  validateRequiredFields evaluation ["type"] (evaluation_name taskIndex) ;;
  (* Validate type field *)
  type <- get evaluation "type" ;;
  throw_if (negb (is_literal type "test") && negb (is_literal type "command"))
    (evaluation_name taskIndex ++ ".type must be either 'test' or 'command'") ;;
  (* For 'command' type, additional fields are required *)
  if is_literal type "command" then
    validateRequiredFields evaluation ["command"; "check_prompt"]
      (evaluation_name taskIndex) ;;
    command <- get evaluation "command" ;;
    throw_if (not_a_filled_string command)
      (evaluation_name taskIndex ++ ".command must be a non-empty string") ;;
    check_prompt <- get evaluation "check_prompt" ;;
    throw_if (not_a_filled_string check_prompt)
      (evaluation_name taskIndex ++ ".check_prompt must be a non-empty string")
  else ret tt.

Definition task_name (index : nat) : string :=
  "tasks[" ++ Js.string_of_nat index ++ "]".

Definition validateTask (task : JsValue) (index : nat) : M St unit :=
  (* Check required fields *)
  validateRequiredFields task ["name"; "prompt"] (task_name index) ;;
  (* Validate field types *)
  name <- get task "name" ;;
  throw_if (not_a_filled_string name)
    (task_name index ++ ".name must be a non-empty string") ;;
  prompt <- get task "prompt" ;;
  throw_if (not_a_filled_string prompt)
    (task_name index ++ ".prompt must be a non-empty string") ;;
  (* If done is provided, it must be a boolean *)
  done <- get task "done" ;;
  throw_if (negb (is_undefined done) && negb (is_boolean done))
    (task_name index ++ ".done must be a boolean if provided") ;;
  (* Validate evaluation if present *)
  evaluation <- get task "evaluation" ;;
  if negb (is_undefined evaluation)
  then validateTaskEvaluation evaluation index
  else ret tt.

(** [tasks.forEach((task, index) => { validateTask(task, index); })], from
    [index] on. *)
Fixpoint validate_each (tasks : list JsValue) (index : nat) : M St unit :=
  match tasks with
  | [] => ret tt
  | task :: rest =>
      validateTask task index ;;
      validate_each rest (S index)
  end.

Definition validateTasks (tasks : JsValue) : M St unit :=
  (* Check if tasks is an array *)
  throw_if (negb (is_array tasks)) "tasks must be an array" ;;
  (* Check if tasks array is empty *)
  match tasks with
  | JArray items =>
      throw_if (length items =? 0)%nat "tasks array cannot be empty" ;;
      (* Validate each task *)
      validate_each items 0
  | _ => ret tt
  end.

End Validators.

(** [!v] is false: the truthiness of a value. *)
Definition truthy_value (v : JsValue) : bool :=
  match v with
  | JUndefined | JNull => false
  | JBoolean b => b
  | JNumber NaN => false
  | JNumber (Infinity _) => true
  | JNumber (Finite numerator _) => negb (numerator =? 0)%Z
  | JString s => Js.nonempty s
  | JArray _ | JObject _ => true
  end.

(** What [yaml.load] does with the text of a file: it returns a value, or
    throws a [YAMLException] with an optional mark (line and column, from
    zero) and a reason. *)
Inductive YamlOutcome : Type :=
| YamlValue (v : JsValue)
| YAMLException (mark : option (nat * nat)) (reason : string).

(** [mark ? ` at line ${mark.line + 1}, column ${mark.column + 1}` : ''] *)
Definition lineInfo (mark : option (nat * nat)) : string :=
  match mark with
  | Some (line, column) =>
      " at line " ++ Js.string_of_nat (line + 1)
      ++ ", column " ++ Js.string_of_nat (column + 1)
  | None => EmptyString
  end.

Section ParseSpec.

Variable env : Env.
Variable typeError : JsValue -> string -> string.
Variable yaml_load : string -> YamlOutcome.

(** The [catch] block of [parseSpec] replaces a [YAMLException] by an
    [Error] with the line information and rethrows every other error as it
    is. Only [yaml.load] throws a [YAMLException], so the replacement is
    written where [yaml.load] is called. *)
Definition parseSpec (filePath : string) : M World JsValue :=
  try_catch
    ((* Read the spec file *)
     fileContent <- Bun_file_text env filePath ;;
     (* Parse YAML content *)
     match yaml_load fileContent with
     | YAMLException mark reason =>
         throw (ErrorObj ("YAML parsing error" ++ lineInfo mark ++ ": " ++ reason))
     | YamlValue spec =>
         (* Check if spec is empty or invalid *)
         throw_if (negb (truthy_value spec)) "Empty or invalid YAML file" ;;
         (* Validate required top-level fields *)
         validateRequiredFields typeError spec ["aider_config"; "objective"; "tasks"]
           "spec" ;;
         (* Validate aider_config structure *)
         aider_config <- get typeError spec "aider_config" ;;
         validateAiderConfig typeError aider_config ;;
         (* Validate tasks *)
         tasks <- get typeError spec "tasks" ;;
         validateTasks typeError tasks ;;
         ret spec
     end)
    (fun error => throw error).

End ParseSpec.

(* ================================================================== *)
(** ** More concrete scenarios *)
(* ================================================================== *)

Module Cases.

(** The repository of [Scenario.passing_env], without an API key. *)
Definition no_key_env : Env :=
  {| env_join := env_join Scenario.passing_env;
     env_existsSync := env_existsSync Scenario.passing_env;
     env_chdir := env_chdir Scenario.passing_env;
     env_spawn := env_spawn Scenario.passing_env;
     env_apiKey := None;
     env_completion := env_completion Scenario.passing_env;
     env_now := env_now Scenario.passing_env;
     env_write := env_write Scenario.passing_env;
     env_read := env_read Scenario.passing_env;
     env_typeError := env_typeError Scenario.passing_env |}.

(** The same repository when the worktree of the spec is there already:
    creating the branch succeeds, adding the worktree fails. *)
Definition worktree_exists_env : Env :=
  {| env_join := env_join Scenario.passing_env;
     env_existsSync := env_existsSync Scenario.passing_env;
     env_chdir := env_chdir Scenario.passing_env;
     env_spawn := fun _ argv =>
       if existsb (String.eqb "worktree") argv
       then Ok (Scenario.clean_exit 128 EmptyString
                  "fatal: '../worktrees/feat' already exists")
       else Ok (Scenario.clean_exit 0 EmptyString EmptyString);
     env_apiKey := env_apiKey Scenario.passing_env;
     env_completion := env_completion Scenario.passing_env;
     env_now := env_now Scenario.passing_env;
     env_write := env_write Scenario.passing_env;
     env_read := env_read Scenario.passing_env;
     env_typeError := env_typeError Scenario.passing_env |}.

(** A spec whose configuration has a test command. *)
Definition tested_spec : Spec :=
  {| aider_config :=
       {| model := "gpt-4"; architect_mode := false;
          editable_files := ["src/index.ts"]; readonly_files := [];
          retries := 3; test_command := Some "bun test" |};
     objective := "Add a parser";
     implementation_details := "Use TypeScript";
     tasks := [Scenario.tested "parse"] |}.

(** The [aider_config] of a spec file and of the project settings. *)
Definition spec_config : Partial.AiderConfig :=
  {| Partial.model := None;
     Partial.architect_mode := Some true;
     Partial.editable_files := Some ["src/index.ts"; "src/cli.ts"; "src/index.ts"];
     Partial.readonly_files := None;
     Partial.retries := Some 5;
     Partial.test_command := None |}.

Definition project_config : Complete.AiderConfig :=
  {| Complete.model := "gpt-4";
     Complete.architect_mode := false;
     Complete.editable_files := Some ["src/cli.ts"; "README.md"];
     Complete.readonly_files := Some ["docs/spec.md"];
     Complete.retries := 10;
     Complete.test_command := Some "bun test" |}.

(** Project settings that list no editable files. *)
Definition bare_project_config : Complete.AiderConfig :=
  {| Complete.model := "gpt-4";
     Complete.architect_mode := false;
     Complete.editable_files := None;
     Complete.readonly_files := None;
     Complete.retries := 10;
     Complete.test_command := None |}.

(** [path.basename] and [path.extname] on names without directory and with
    the extension [.yaml] at most. *)
Definition extname (p : string) : string :=
  if Js.includes p ".yaml" then ".yaml" else EmptyString.

Definition basename (p ext : string) : string :=
  String.substring 0 (String.length p - String.length ext) p.

(** [bun cli.ts generate --preset docs] *)
Definition flag_as_name : list string :=
  ["bun"; "cli.ts"; "generate"; "--preset"; "docs"].

(** A task that validates, and the engine's message for reading a property
    of [null]. *)
Definition parse_task : JsValue :=
  JObject [("name", JString "parse"); ("prompt", JString "Implement parse")].

Definition null_message (obj : JsValue) (field : string) : string :=
  "null is not an object (evaluating 'obj[field]')".

(** What a spec file parses to: the objective is a number, and there are no
    implementation details. *)
Definition spec_value : JsValue :=
  JObject
    [("aider_config",
      JObject [("model", JString "gpt-4");
               ("architect_mode", JBoolean false);
               ("editable_files", JArray [JString "src/index.ts"]);
               ("readonly_files", JArray []);
               ("retries", JNumber (Finite 3 1))]);
     ("objective", JNumber (Finite 42 1));
     ("tasks", JArray [parse_task])].

(** The repository with a spec file in it. *)
Definition with_spec_file : World :=
  {| cwd := "/repo"; files := [("specs/feat.yaml", "tasks: ...")]; tick := 0;
     trace := [] |}.

End Cases.

(* ================================================================== *)
(** ** Vocabulary of the further properties *)
(* ================================================================== *)

(** *** Task results *)

(** What the retry loop keeps of a frame that satisfies it at the start. *)
Definition frame_ok (maxRetries : nat) (f : Frame) : Prop :=
  f_attempts f <= maxRetries
  /\ attempts (result f) = f_attempts f
  /\ error (result f) = None
  /\ success (result f) = false
  /\ (f_success f = true -> 1 <= f_attempts f).

(** *** Version control *)

(** The branch step of [createBranch] lets the function go on: the command
    exited zero, or its stderr says the branch already exists. *)
Definition branch_step_passes (p : Proc) : Prop :=
  proc_exited p = Ok 0%Z
  \/ exists code err,
       proc_exited p = Ok code /\ code <> 0%Z /\ proc_stderr p = Ok err
       /\ Js.includes err "already exists" = true.

Definition branch_exists_message (specName : string) : string :=
  "Branch '" ++ specName ++ "' already exists. Use a different name or clean up the existing branch first.".

Definition worktree_path_message (worktreePath : string) : string :=
  "Worktree path '" ++ worktreePath ++ "' already exists. Remove it manually or use a different spec name.".

(** *** Runs *)

Definition succeeded (r : TaskResult) : Prop := success r = true.

(** The results of a run: successes, then at most one failure, which is
    the last result. *)
Definition successes_then_failure (rs : list TaskResult) : Prop :=
  Forall succeeded rs
  \/ exists oks r, rs = (oks ++ [r])%list /\ Forall succeeded oks /\ success r = false.

(** *** Well-formed specs *)

Definition filled_string (v : JsValue) : Prop :=
  exists s, v = JString s /\ Js.trim s <> EmptyString.

Definition well_formed_evaluation (v : JsValue) : Prop :=
  exists fields,
    v = JObject fields
    /\ (field_of fields "type" = JString "test"
        \/ (field_of fields "type" = JString "command"
            /\ filled_string (field_of fields "command")
            /\ filled_string (field_of fields "check_prompt"))).

Definition well_formed_task (v : JsValue) : Prop :=
  exists fields,
    v = JObject fields
    /\ filled_string (field_of fields "name")
    /\ filled_string (field_of fields "prompt")
    /\ (field_of fields "done" = JUndefined
        \/ exists b, field_of fields "done" = JBoolean b)
    /\ (field_of fields "evaluation" = JUndefined
        \/ well_formed_evaluation (field_of fields "evaluation")).

Definition well_formed_tasks (v : JsValue) : Prop :=
  exists items, v = JArray items /\ items <> [] /\ Forall well_formed_task items.

Definition well_formed_config (v : JsValue) : Prop :=
  exists fields,
    v = JObject fields
    /\ filled_string (field_of fields "model")
    /\ (exists b, field_of fields "architect_mode" = JBoolean b)
    /\ (exists items, field_of fields "editable_files" = JArray items)
    /\ (exists items, field_of fields "readonly_files" = JArray items)
    /\ (exists n, field_of fields "retries" = JNumber n /\ below_zero n = false)
    /\ (field_of fields "test_command" = JUndefined
        \/ exists s, field_of fields "test_command" = JString s).

(** A spec as the validators accept it. The objective has to be there, of
    whatever type; the implementation details need not be. *)
Definition well_formed_spec (v : JsValue) : Prop :=
  exists fields,
    v = JObject fields
    /\ well_formed_config (field_of fields "aider_config")
    /\ field_of fields "objective" <> JUndefined
    /\ well_formed_tasks (field_of fields "tasks").

(* ================================================================== *)
(** ** Strings *)
(* ================================================================== *)

Lemma prefix_append (s t : string) : prefix s (s ++ t) = true.
Proof.
  induction s as [|c s IH]; simpl.
  - destruct t; reflexivity.
  - destruct (ascii_dec c c) as [_|n]; [exact IH | contradiction].
Qed.

Lemma prefix_refl (s : string) : prefix s s = true.
Proof.
  induction s as [|c s IH]; simpl.
  - reflexivity.
  - destruct (ascii_dec c c) as [_|n]; [exact IH | contradiction].
Qed.

Lemma includes_of_prefix (s sub : string) :
  prefix sub s = true -> Js.includes s sub = true.
Proof.
  intros H. destruct s; cbn [Js.includes]; rewrite H; reflexivity.
Qed.

Lemma includes_append_left (a s sub : string) :
  Js.includes s sub = true -> Js.includes (a ++ s) sub = true.
Proof.
  intros H. induction a as [|c a IH]; simpl.
  - exact H.
  - cbn [Js.includes]. rewrite IH. apply orb_true_r.
Qed.

Lemma includes_middle (a b c : string) : Js.includes (a ++ b ++ c) b = true.
Proof.
  apply includes_append_left, includes_of_prefix, prefix_append.
Qed.

Lemma includes_end (a s : string) : Js.includes (a ++ s) s = true.
Proof. apply includes_append_left, includes_of_prefix, prefix_refl. Qed.

Lemma substring_from_0_prefix (n : nat) (s : string) :
  prefix (String.substring 0 n s) s = true.
Proof.
  revert s. induction n as [|n IH]; intros s.
  - destruct s; reflexivity.
  - destruct s as [|c s]; simpl.
    + reflexivity.
    + destruct (ascii_dec c c) as [_|ne]; [apply IH | contradiction].
Qed.

Lemma substring_from_0_length (n : nat) (s : string) :
  String.length (String.substring 0 n s) <= n.
Proof.
  revert s. induction n as [|n IH]; intros s.
  - destruct s; simpl; lia.
  - destruct s as [|c s]; simpl.
    + lia.
    + specialize (IH s). lia.
Qed.

(* ================================================================== *)
(** ** The Judgment Client *)
(* ================================================================== *)

Lemma parse_response_yes (response : string) :
  Js.trim (Js.toLowerCase response) = "yes" ->
  parse_response response = {| e_success := true; e_error := None |}.
Proof. intros H. unfold parse_response. rewrite H. reflexivity. Qed.

Lemma parse_response_no (response : string) :
  Js.trim (Js.toLowerCase response) = "no" ->
  parse_response response =
    {| e_success := false;
       e_error := Some ("Language model evaluation returned "
                        ++ Js.dquote ++ "no" ++ Js.dquote) |}.
Proof. intros H. unfold parse_response. rewrite H. reflexivity. Qed.

Lemma parse_response_other (response : string) :
  Js.trim (Js.toLowerCase response) <> "yes" ->
  Js.trim (Js.toLowerCase response) <> "no" ->
  parse_response response =
    {| e_success := keyword_match (Js.trim (Js.toLowerCase response));
       e_error :=
         if keyword_match (Js.trim (Js.toLowerCase response)) then None
         else Some ("Language model evaluation could not confirm success. Response: "
                    ++ Js.dquote ++ Js.substring response 0 100 ++ "..." ++ Js.dquote) |}.
Proof.
  intros Hy Hn. unfold parse_response, keyword_match.
  apply String.eqb_neq in Hy. apply String.eqb_neq in Hn.
  rewrite Hy, Hn. reflexivity.
Qed.

(** C5. The judgment step works on the reply lowercased and trimmed. An
    exact [yes] is a success and an exact [no] a failure. Any other reply is
    a success iff the normalized text contains one of [yes], [pass],
    [succeed], [correct]; when it is a failure, the error message quotes the
    first 100 characters at most of the raw reply. The reply
    [Unfortunately, I cannot confirm success.] is a failure whose message
    quotes it. *)
Theorem language_model_judgment :
  (forall env checkPrompt commandOutput w response w',
      queryLanguageModel env (language_model_prompt checkPrompt commandOutput) w
        = (Ok response, w') ->
      evaluateWithLanguageModel env checkPrompt commandOutput w
        = (Ok (parse_response response), w'))
  /\ (forall response,
        let normalized := Js.trim (Js.toLowerCase response) in
        (normalized = "yes" ->
           parse_response response = {| e_success := true; e_error := None |})
        /\ (normalized = "no" -> e_success (parse_response response) = false)
        /\ (normalized <> "yes" -> normalized <> "no" ->
              e_success (parse_response response)
                = (Js.includes normalized "yes" || Js.includes normalized "pass"
                   || Js.includes normalized "succeed"
                   || Js.includes normalized "correct")
              /\ (e_success (parse_response response) = false ->
                    let quoted := Js.substring response 0 100 in
                    e_error (parse_response response)
                      = Some ("Language model evaluation could not confirm success. Response: "
                              ++ Js.dquote ++ quoted ++ "..." ++ Js.dquote)
                    /\ prefix quoted response = true
                    /\ String.length quoted <= 100)))
  /\ parse_response ("  YES " ++ Js.nl) = {| e_success := true; e_error := None |}
  /\ e_success (parse_response "No") = false
  /\ parse_response "Unfortunately, I cannot confirm success."
       = {| e_success := false;
            e_error :=
              Some ("Language model evaluation could not confirm success. Response: "
                    ++ Js.dquote ++ "Unfortunately, I cannot confirm success."
                    ++ "..." ++ Js.dquote) |}.
Proof.
  split; [|split; [|split; [|split]]].
  - intros env checkPrompt commandOutput w response w' H.
    unfold evaluateWithLanguageModel, try_catch, bind.
    rewrite H. reflexivity.
  - intros response normalized. subst normalized.
    split; [|split].
    + apply parse_response_yes.
    + intros H. rewrite (parse_response_no _ H). reflexivity.
    + intros Hy Hn. rewrite (parse_response_other _ Hy Hn). simpl.
      split; [reflexivity|].
      intros Hk. fold (keyword_match (Js.trim (Js.toLowerCase response))) in Hk.
      rewrite Hk.
      split; [reflexivity|]. split.
      * apply substring_from_0_prefix.
      * apply substring_from_0_length.
  - vm_compute. reflexivity.
  - vm_compute. reflexivity.
  - vm_compute. reflexivity.
Qed.

Lemma language_model_judgment_witness :
  evaluateWithLanguageModel Scenario.passing_env "Is the parser complete?"
    "3 tests passed" Scenario.start
  = (Ok (parse_response "Check inputs first."),
     advance [EvLanguageModel
                (language_model_prompt "Is the parser complete?" "3 tests passed")]
             Scenario.start).
Proof.
  apply (proj1 language_model_judgment). vm_compute. reflexivity.
Defined.

(* ================================================================== *)
(** ** The Evaluator *)
(* ================================================================== *)

Lemma evaluateTask_command_nonzero env spec task ev aiderOutput w p out err code :
  evaluation task = Some ev ->
  type ev = "command" ->
  Js.truthy (command ev) = true ->
  env_spawn env (tick w) (Js.split space (Js.or_else (command ev) EmptyString)) = Ok p ->
  proc_stdout p = Ok out ->
  proc_stderr p = Ok err ->
  proc_exited p = Ok code ->
  code <> 0%Z ->
  evaluateTask env spec task aiderOutput w
    = (Ok {| e_success := false;
             e_error := Some ("Command failed with exit code "
                              ++ Js.string_of_Z code ++ ": " ++ err) |},
       advance [EvSpawn (Js.split space (Js.or_else (command ev) EmptyString))] w).
Proof.
  intros Hev Hty Hcmd Hsp Hout Herr Hex Hcode.
  unfold evaluateTask. rewrite Hev, Hty.
  simpl (String.eqb "command" "test"). simpl (String.eqb "command" "command").
  cbv iota. rewrite Hcmd. cbn [negb].
  unfold try_catch, bind, spawn, stdout_text, stderr_text, exited, of_result.
  rewrite Hsp, Hout, Herr, Hex.
  apply Z.eqb_neq in Hcode. rewrite Hcode. reflexivity.
Qed.

(** C6. A Command-type evaluation whose command exits non-zero fails at
    once; the message contains the exit code and the captured stderr; the
    only event is the launch of the command, so the language model is not
    called; and the outcome is the same for every [check_prompt]. *)
Theorem command_nonzero_exit_fails_without_judgment :
  forall env spec task ev aiderOutput w p out err code,
    evaluation task = Some ev ->
    type ev = "command" ->
    Js.truthy (command ev) = true ->
    env_spawn env (tick w) (Js.split space (Js.or_else (command ev) EmptyString)) = Ok p ->
    proc_stdout p = Ok out ->
    proc_stderr p = Ok err ->
    proc_exited p = Ok code ->
    code <> 0%Z ->
    exists msg w',
      evaluateTask env spec task aiderOutput w
        = (Ok {| e_success := false; e_error := Some msg |}, w')
      /\ Js.includes msg (Js.string_of_Z code) = true
      /\ Js.includes msg err = true
      /\ trace w' = (trace w ++ [EvSpawn (Js.split space (Js.or_else (command ev) EmptyString))])%list
      /\ filter is_language_model (trace w') = filter is_language_model (trace w)
      /\ forall cp,
           evaluateTask env spec (with_check_prompt cp task) aiderOutput w
             = evaluateTask env spec task aiderOutput w.
Proof.
  intros env spec task ev aiderOutput w p out err code
         Hev Hty Hcmd Hsp Hout Herr Hex Hcode.
  eexists. eexists. split.
  - eapply evaluateTask_command_nonzero; eassumption.
  - split; [apply includes_middle|].
    split; [apply includes_append_left, includes_append_left, includes_end|].
    split; [reflexivity|].
    split.
    { simpl. rewrite filter_app. simpl. apply app_nil_r. }
    intros cp.
    rewrite (evaluateTask_command_nonzero env spec task ev aiderOutput w p out err code)
      by assumption.
    apply (evaluateTask_command_nonzero env spec (with_check_prompt cp task)
             {| type := type ev; command := command ev; check_prompt := cp |}
             aiderOutput w p out err code);
      try assumption.
    unfold with_check_prompt. simpl. rewrite Hev. reflexivity.
Qed.

Lemma command_nonzero_exit_fails_without_judgment_witness :
  exists msg w',
    evaluateTask Scenario.lint_fails_env (Scenario.one_task 3)
      (Scenario.checked "parse" "npm run lint" (Some "Is the lint output clean?"))
      "ok" Scenario.start
    = (Ok {| e_success := false; e_error := Some msg |}, w')
    /\ Js.includes msg "2" = true
    /\ Js.includes msg "lint failed" = true
    /\ filter is_language_model (trace w') = [].
Proof.
  destruct (command_nonzero_exit_fails_without_judgment
              Scenario.lint_fails_env (Scenario.one_task 3)
              (Scenario.checked "parse" "npm run lint" (Some "Is the lint output clean?"))
              {| type := "command"; command := Some "npm run lint";
                 check_prompt := Some "Is the lint output clean?" |}
              "ok" Scenario.start
              (Scenario.clean_exit 2 "checked 3 files" "lint failed")
              "checked 3 files" "lint failed" 2%Z
              eq_refl eq_refl eq_refl eq_refl eq_refl eq_refl eq_refl
              ltac:(discriminate))
    as [msg [w' [H1 [H2 [H3 [_ [H5 _]]]]]]].
  exists msg, w'. repeat split; assumption.
Defined.

Lemma evaluateTask_test_unconfigured env spec task ev aiderOutput w :
  evaluation task = Some ev ->
  type ev = "test" ->
  Js.truthy (test_command (aider_config spec)) = false ->
  evaluateTask env spec task aiderOutput w
    = (Ok {| e_success := false; e_error := Some test_command_missing |}, w).
Proof.
  intros Hev Hty Hcmd.
  unfold evaluateTask. rewrite Hev, Hty. simpl (String.eqb "test" "test"). cbv iota.
  rewrite Hcmd. reflexivity.
Qed.

(** C7. A Test-type evaluation with no test command configured returns a
    failure with the configuration-error message and leaves the world as it
    was: no process is launched, nothing else is called. *)
Theorem test_evaluation_without_test_command :
  forall env spec task ev aiderOutput w,
    evaluation task = Some ev ->
    type ev = "test" ->
    Js.truthy (test_command (aider_config spec)) = false ->
    evaluateTask env spec task aiderOutput w
      = (Ok {| e_success := false;
               e_error := Some "Test command not specified in aider_config.test_command" |},
         w).
Proof.
  intros env spec task ev aiderOutput w Hev Hty Hcmd.
  exact (evaluateTask_test_unconfigured env spec task ev aiderOutput w Hev Hty Hcmd).
Qed.

Lemma test_evaluation_without_test_command_witness :
  evaluateTask Scenario.passing_env (Scenario.one_task 3) (Scenario.tested "parse")
    "ok" Scenario.start
  = (Ok {| e_success := false;
           e_error := Some "Test command not specified in aider_config.test_command" |},
     Scenario.start).
Proof.
  apply (test_evaluation_without_test_command
           Scenario.passing_env (Scenario.one_task 3) (Scenario.tested "parse")
           {| type := "test"; command := None; check_prompt := None |});
    reflexivity.
Defined.

(* ================================================================== *)
(** ** Relations kept by every step *)
(* ================================================================== *)

Section Stable.

Context {St : Type} (R : St -> St -> Prop) {HR : PreOrder R}.

Lemma stable_ret {A} (a : A) : stable R (ret a).
Proof. intros s. simpl. reflexivity. Qed.

Lemma stable_throw {A} (e : Thrown) : stable R (@throw St A e).
Proof. intros s. simpl. reflexivity. Qed.

Lemma stable_of_result {A} (r : Result A) : stable R (@of_result St A r).
Proof. intros s. simpl. reflexivity. Qed.

Lemma stable_bind {A B} (c : M St A) (k : A -> M St B) :
  stable R c -> (forall a, stable R (k a)) -> stable R (bind c k).
Proof.
  intros Hc Hk s. unfold bind. specialize (Hc s).
  destruct (c s) as [[a|e] s1]; simpl in *.
  - etransitivity; [exact Hc | apply Hk].
  - exact Hc.
Qed.

Lemma stable_try_catch {A} (c : M St A) (h : Thrown -> M St A) :
  stable R c -> (forall e, stable R (h e)) -> stable R (try_catch c h).
Proof.
  intros Hc Hh s. unfold try_catch. specialize (Hc s).
  destruct (c s) as [[a|e] s1]; simpl in *.
  - exact Hc.
  - etransitivity; [exact Hc | apply Hh].
Qed.

Lemma stable_message_includes env (e : Thrown) (sub : string) :
  stable R (message_includes env e sub).
Proof. destruct e; [apply stable_ret | apply stable_throw]. Qed.

End Stable.

#[export] Instance extends_preorder (P : Event -> Prop) : PreOrder (extends P).
Proof.
  split.
  - intros w. exists []. split; [symmetry; apply app_nil_r | constructor].
  - intros a b c [e1 [H1 F1]] [e2 [H2 F2]].
    exists (e1 ++ e2)%list. split.
    + rewrite H2, H1. symmetry. apply app_assoc.
    + apply Forall_app. split; assumption.
Qed.

#[export] Instance on_world_preorder (R : World -> World -> Prop) {HR : PreOrder R} :
  PreOrder (on_world R).
Proof.
  split.
  - intros s. unfold on_world. reflexivity.
  - intros a b c. unfold on_world. intros. etransitivity; eassumption.
Qed.

#[export] Instance same_files_preorder : PreOrder same_files.
Proof.
  split.
  - intros w. reflexivity.
  - intros a b c H1 H2. unfold same_files in *. congruence.
Qed.

#[export] Instance same_cwd_preorder : PreOrder same_cwd.
Proof.
  split.
  - intros w. reflexivity.
  - intros a b c H1 H2. unfold same_cwd in *. congruence.
Qed.

#[export] Instance frame_kept_preorder {X} (part : Frame -> X) :
  PreOrder (frame_kept part).
Proof.
  split.
  - intros s. reflexivity.
  - intros a b c H1 H2. unfold frame_kept in *. congruence.
Qed.

Lemma extends_advance (P : Event -> Prop) (evs : list Event) (w : World) :
  Forall P evs -> extends P w (advance evs w).
Proof. intros H. exists evs. split; [reflexivity | exact H]. Qed.

Lemma filter_none {A} (f : A -> bool) (l : list A) :
  Forall (fun x => f x = false) l -> filter f l = [].
Proof.
  induction 1 as [|x l Hx _ IH]; simpl.
  - reflexivity.
  - rewrite Hx. exact IH.
Qed.

Lemma agent_invocations_extends (P : Event -> Prop) (w w' : World) :
  (forall e, P e -> is_agent_spawn e = false) ->
  extends P w w' -> agent_invocations w' = agent_invocations w.
Proof.
  intros HP [evs [Ht Hf]]. unfold agent_invocations.
  rewrite Ht, filter_app, (filter_none is_agent_spawn evs).
  - rewrite app_nil_r. reflexivity.
  - eapply Forall_impl; [|exact Hf]. exact HP.
Qed.

Lemma agent_invocations_spawn_agent args (w : World) :
  agent_invocations (advance [EvSpawn ("aider" :: args)] w) = S (agent_invocations w).
Proof.
  unfold agent_invocations, advance. cbn [trace].
  rewrite filter_app, length_app. simpl. lia.
Qed.

Section WorldSteps.

Variable env : Env.
Variable P : Event -> Prop.

Lemma stable_process_cwd : stable (extends P) process_cwd.
Proof. intros w. simpl. reflexivity. Qed.

Lemma stable_existsSync path : stable (extends P) (existsSync env path).
Proof.
  intros w. unfold existsSync.
  destruct (lookup_file path (files w)); simpl; apply extends_advance; constructor.
Qed.

Lemma stable_getFormattedTimestamp : stable (extends P) (getFormattedTimestamp env).
Proof. intros w. simpl. apply extends_advance. constructor. Qed.

Lemma stable_Bun_file_text path : stable (extends P) (Bun_file_text env path).
Proof.
  intros w. unfold Bun_file_text.
  destruct (env_read env (tick w) path); [|destruct (lookup_file path (files w))];
    simpl; apply extends_advance; constructor.
Qed.

Lemma stable_spawn argv : P (EvSpawn argv) -> stable (extends P) (spawn env argv).
Proof. intros H w. simpl. apply extends_advance. repeat constructor. exact H. Qed.

Lemma stable_process_chdir path :
  P (EvChdir path) -> stable (extends P) (process_chdir env path).
Proof.
  intros H w. unfold process_chdir.
  destruct (env_chdir env (tick w) path); simpl;
    exists [EvChdir path]; (split; [reflexivity | repeat constructor; exact H]).
Qed.

Lemma stable_queryLanguageModel prompt :
  P (EvLanguageModel prompt) -> stable (extends P) (queryLanguageModel env prompt).
Proof.
  intros H w. unfold queryLanguageModel.
  assert (E : extends P w (advance [EvLanguageModel prompt] w))
    by (apply extends_advance; repeat constructor; exact H).
  destruct (negb (Js.truthy (env_apiKey env))); [exact E|].
  destruct (env_completion env (tick w) prompt) as [c|st m|e].
  - destruct (Js.or_else c EmptyString); exact E.
  - destruct (st =? 401)%Z; [exact E|].
    destruct (st =? 429)%Z; [exact E|].
    destruct (st =? 500)%Z; exact E.
  - exact E.
Qed.

Lemma stable_liftW {A} (R : World -> World -> Prop) (c : M World A) :
  stable R c -> stable (on_world R) (liftW c).
Proof.
  intros H s. unfold liftW, on_world. specialize (H (fst s)).
  destruct (c (fst s)) as [r w']. exact H.
Qed.

Lemma stable_getF (R : World -> World -> Prop) {HR : PreOrder R} :
  stable (on_world R) getF.
Proof. intros s. unfold on_world. simpl. reflexivity. Qed.

Lemma stable_modifyF (R : World -> World -> Prop) {HR : PreOrder R} g :
  stable (on_world R) (modifyF g).
Proof. intros s. unfold on_world. simpl. reflexivity. Qed.

End WorldSteps.

(** One step of a structural proof of [stable]. *)
Ltac stable_step :=
  match goal with
  | |- PreOrder _ => typeclasses eauto
  | |- forall _, stable _ _ => intro
  | |- stable _ (ret _) => apply stable_ret
  | |- stable _ (throw _) => apply stable_throw
  | |- stable _ (of_result _) => apply stable_of_result
  | |- stable _ (message_includes _ _ _) => apply stable_message_includes
  | |- stable _ (bind _ _) => apply stable_bind
  | |- stable _ (try_catch _ _) => apply stable_try_catch
  | |- stable _ (liftW _) => apply stable_liftW
  | |- stable _ getF => apply stable_getF
  | |- stable _ (modifyF _) => apply stable_modifyF
  | |- stable _ process_cwd => apply stable_process_cwd
  | |- stable _ (existsSync _ _) => apply stable_existsSync
  | |- stable _ (getFormattedTimestamp _) => apply stable_getFormattedTimestamp
  | |- stable _ (Bun_file_text _ _) => apply stable_Bun_file_text
  | |- stable _ (if ?b then _ else _) => destruct b
  | |- stable _ (match ?x with _ => _ end) => destruct x
  end.

Lemma stable_detectVC env : stable (extends version_control_only) (detectVC env).
Proof.
  unfold detectVC, stdout_text, stderr_text, exited.
  repeat stable_step.
  apply stable_spawn. repeat split.
Qed.

(** [createBranch] launches version-control commands only. *)
Lemma stable_createBranch env specName :
  stable (extends version_control_only) (createBranch env specName).
Proof.
  unfold createBranch, createBranch_try, createBranch_catch,
    stdout_text, stderr_text, exited.
  pose proof (stable_detectVC env) as Hd.
  repeat (assumption || stable_step).
  all: apply stable_spawn; repeat split;
    match goal with v : VCS |- _ => destruct v end; reflexivity.
Qed.

(* ================================================================== *)
(** ** What the computations throw *)
(* ================================================================== *)

Section Throws.

Context {St : Type}.

Lemma throws_ret {A} (a : A) : throws_errors (@ret St A a).
Proof. intros s e H. discriminate H. Qed.

Lemma throws_throw {A} (m : string) : throws_errors (@throw St A (ErrorObj m)).
Proof. intros s e H. inversion H. exists m. reflexivity. Qed.

Lemma throws_bind {A B} (c : M St A) (k : A -> M St B) :
  throws_errors c -> (forall a, throws_errors (k a)) -> throws_errors (bind c k).
Proof.
  intros Hc Hk s e. unfold bind. specialize (Hc s).
  destruct (c s) as [[a|e0] s1]; simpl in *.
  - apply Hk.
  - intros H. inversion H; subst. apply Hc. reflexivity.
Qed.

(** A handler that throws only errors makes the whole [try] do so, whatever
    the body throws. *)
Lemma throws_try_catch {A} (c : M St A) (h : Thrown -> M St A) :
  (forall e, throws_errors (h e)) -> throws_errors (try_catch c h).
Proof.
  intros Hh s e. unfold try_catch.
  destruct (c s) as [[a|e0] s1]; simpl.
  - discriminate.
  - apply Hh.
Qed.

Lemma throws_message_includes env (e : Thrown) (sub : string) :
  throws_errors (@message_includes env St e sub).
Proof. destruct e; [apply throws_ret | apply throws_throw]. Qed.

End Throws.

Lemma throws_liftW {A} (c : M World A) : throws_errors c -> throws_errors (liftW c).
Proof.
  intros H s e. unfold liftW. specialize (H (fst s)).
  destruct (c (fst s)) as [r w']. exact (H e).
Qed.

Lemma throws_getF : throws_errors getF.
Proof. intros s e H. discriminate H. Qed.

Lemma throws_modifyF g : throws_errors (modifyF g).
Proof. intros s e H. discriminate H. Qed.

Lemma throws_process_cwd : throws_errors process_cwd.
Proof. intros s e H. discriminate H. Qed.

Lemma throws_existsSync env path : throws_errors (existsSync env path).
Proof.
  intros w e. unfold existsSync.
  destruct (lookup_file path (files w)); discriminate.
Qed.

Lemma throws_process_chdir env path : throws_errors (process_chdir env path).
Proof.
  intros w e. unfold process_chdir.
  destruct (env_chdir env (tick w) path) as [m|]; simpl; intros H.
  - inversion H. exists m. reflexivity.
  - discriminate H.
Qed.

Ltac throws_step :=
  match goal with
  | |- forall _, throws_errors _ => intro
  | |- throws_errors (ret _) => apply throws_ret
  | |- throws_errors (throw (ErrorObj _)) => apply throws_throw
  | |- throws_errors (message_includes _ _ _) => apply throws_message_includes
  | |- throws_errors (bind _ _) => apply throws_bind
  | |- throws_errors (try_catch _ _) => apply throws_try_catch
  | |- throws_errors (liftW _) => apply throws_liftW
  | |- throws_errors getF => apply throws_getF
  | |- throws_errors (modifyF _) => apply throws_modifyF
  | |- throws_errors process_cwd => apply throws_process_cwd
  | |- throws_errors (existsSync _ _) => apply throws_existsSync
  | |- throws_errors (process_chdir _ _) => apply throws_process_chdir
  | |- throws_errors (if ?b then _ else _) => destruct b
  | |- throws_errors (match ?x with _ => _ end) => destruct x
  end.

Lemma throws_detectVC env : throws_errors (detectVC env).
Proof. unfold detectVC. repeat throws_step. Qed.

(** [createBranch] rethrows whatever went wrong as a new [Error]. *)
Lemma throws_createBranch env specName : throws_errors (createBranch env specName).
Proof.
  unfold createBranch, createBranch_catch.
  pose proof (throws_detectVC env).
  repeat (assumption || throws_step).
Qed.

(** An error can leave the retry loop only through the handler of an
    attempt, as the TypeError of [error.message.includes]. *)
Lemma throws_retry_loop env spec task prompt maxRetries fuel :
  throws_errors (retry_loop env spec task prompt maxRetries fuel).
Proof.
  induction fuel as [|fuel IH]; simpl; unfold attempt_catch;
    repeat (assumption || throws_step).
Qed.

Lemma throws_executeTask_try env spec task specName :
  throws_errors (executeTask_try env spec task specName).
Proof.
  unfold executeTask_try.
  pose proof (throws_createBranch env specName).
  pose proof (throws_retry_loop env spec task (prepareTaskPrompt spec task)
                (retries (aider_config spec)) (retries (aider_config spec))).
  repeat (assumption || throws_step).
Qed.

(** The outer handler, given an [Error] object, returns the [result] object
    with [error] set. *)
Lemma executeTask_catch_error env (m : string) (s : World * Frame) :
  exists msg,
    executeTask_catch env (ErrorObj m) s
      = (Ok (set_error msg (result (snd s))),
         (fst s, set_result (set_error msg (result (snd s))) (snd s))).
Proof.
  unfold executeTask_catch, message_includes, bind, ret, getF, modifyF.
  destruct (Js.includes m "Worktree directory does not exist");
    [eexists; reflexivity|].
  destruct (Js.includes m "Branch"); [eexists; reflexivity|].
  destruct (Js.includes m "chdir"); eexists; reflexivity.
Qed.

(** [executeTask] never throws: it always returns a [TaskResult]. *)
Lemma executeTask_returns env spec task specName (w : World) :
  exists r w', executeTask env spec task specName w = (Ok r, w').
Proof.
  unfold executeTask, try_catch.
  pose proof (throws_executeTask_try env spec task specName (w, initial_frame)) as Ht.
  destruct (executeTask_try env spec task specName (w, initial_frame)) as [[r|e] s].
  - eexists. eexists. reflexivity.
  - destruct (Ht e eq_refl) as [m ->].
    destruct (executeTask_catch_error env m s) as [msg ->].
    eexists. eexists. reflexivity.
Qed.

(* ================================================================== *)
(** ** The frame during the retry loop *)
(* ================================================================== *)

Lemma kept_liftW {X A} (part : Frame -> X) (c : M World A) :
  stable (frame_kept part) (liftW c).
Proof.
  intros s. unfold liftW, frame_kept. destruct (c (fst s)) as [r w']. reflexivity.
Qed.

Lemma kept_getF {X} (part : Frame -> X) : stable (frame_kept part) getF.
Proof. intros s. reflexivity. Qed.

Lemma kept_modifyF {X} (part : Frame -> X) (g : Frame -> Frame) :
  (forall f, part (g f) = part f) -> stable (frame_kept part) (modifyF g).
Proof. intros H s. exact (H (snd s)). Qed.

Ltac kept_step :=
  match goal with
  | |- stable _ (liftW _) => apply kept_liftW
  | |- stable _ getF => apply kept_getF
  | |- stable _ (modifyF _) => apply kept_modifyF; intros ?; reflexivity
  | _ => stable_step
  end.

(** One iteration, after [attempts++], leaves the attempt counter alone. *)
Lemma attempt_keeps_attempts env spec task prompt :
  stable (frame_kept f_attempts)
         (try_catch (attempt_try env spec task prompt) (attempt_catch env)).
Proof.
  unfold attempt_try, attempt_catch, stdout_text, stderr_text, exited.
  repeat kept_step.
Qed.

(** Nor the [result] object. *)
Lemma attempt_keeps_counters env spec task prompt :
  stable (frame_kept (fun f => (f_attempts f, result f)))
         (try_catch (attempt_try env spec task prompt) (attempt_catch env)).
Proof.
  unfold attempt_try, attempt_catch, stdout_text, stderr_text, exited.
  repeat kept_step.
Qed.

(** The loop never touches the [output] and [success] fields of [result]. *)
Lemma retry_loop_keeps_result env spec task prompt maxRetries fuel :
  stable (frame_kept result_fields)
         (retry_loop env spec task prompt maxRetries fuel).
Proof.
  induction fuel as [|fuel IH]; simpl;
    unfold attempt_try, attempt_catch, stdout_text, stderr_text, exited;
    repeat (assumption || kept_step).
Qed.

(** The loop leaves through its condition: [maxRetries] is enough fuel. *)
Lemma retry_loop_exit env spec task prompt maxRetries fuel :
  forall s s',
    maxRetries <= f_attempts (snd s) + fuel ->
    retry_loop env spec task prompt maxRetries fuel s = (Ok tt, s') ->
    f_success (snd s') = true \/ maxRetries <= f_attempts (snd s').
Proof.
  induction fuel as [|fuel IH]; intros s s' Hfuel; simpl;
    unfold bind at 1; unfold getF at 1; cbn [fst snd].
  - destruct (f_success (snd s)) eqn:Hs; cbn [negb andb].
    + intros H. inversion H; subst. left. exact Hs.
    + destruct (f_attempts (snd s) <? maxRetries)%nat eqn:Hlt.
      * apply Nat.ltb_lt in Hlt. lia.
      * intros H. inversion H; subst. right. apply Nat.ltb_ge in Hlt. exact Hlt.
  - destruct (f_success (snd s)) eqn:Hs; cbn [negb andb].
    + intros H. inversion H; subst. left. exact Hs.
    + destruct (f_attempts (snd s) <? maxRetries)%nat eqn:Hlt.
      * unfold bind at 1. unfold modifyF at 1. cbn [fst snd].
        unfold bind at 1.
        pose proof (attempt_keeps_attempts env spec task prompt
                      (fst s, count_attempt (snd s))) as Ha.
        destruct (try_catch (attempt_try env spec task prompt) (attempt_catch env)
                    (fst s, count_attempt (snd s))) as [[[]|e] s1];
          [|discriminate].
        unfold frame_kept in Ha. cbn [fst snd count_attempt f_attempts] in Ha.
        apply IH. lia.
      * intros H. inversion H; subst. right. apply Nat.ltb_ge in Hlt. exact Hlt.
Qed.

Lemma existsSync_state env path w : snd (existsSync env path w) = advance [] w.
Proof. unfold existsSync. destruct (lookup_file path (files w)); reflexivity. Qed.

(* ================================================================== *)
(** ** The output captured by the attempts *)
(* ================================================================== *)

(** The handler of an attempt leaves [lastOutput] alone. *)
Lemma attempt_catch_keeps_lastOutput env (e : Thrown) :
  stable (frame_kept lastOutput) (attempt_catch env e).
Proof. unfold attempt_catch. repeat kept_step. Qed.

(** One iteration assigns [lastOutput] once, after both streams of the
    agent's process were read, and nowhere else: whatever happens next, the
    variable holds the standard output just read; when the launch or one of
    the reads failed, it holds what it held. *)
Lemma attempt_captures env spec task prompt (w : World) (f : Frame) :
  lastOutput
    (snd (snd (try_catch (attempt_try env spec task prompt) (attempt_catch env)
                 (w, f))))
  = match captured env spec prompt w with
    | Some out => out
    | None => lastOutput f
    end.
Proof.
  pose proof (attempt_catch_keeps_lastOutput env) as Hcatch.
  unfold stable, frame_kept in Hcatch.
  unfold captured, try_catch, attempt_try, bind, liftW, spawn, stdout_text,
    stderr_text, exited, of_result, modifyF, ret.
  cbn [fst snd].
  destruct (env_spawn env (tick w) ("aider" :: aider_args spec prompt)) as [p|e0];
    [|apply Hcatch].
  destruct (proc_stdout p) as [out|e0]; [|apply Hcatch].
  destruct (proc_stderr p) as [err|e0]; [|apply Hcatch].
  cbn [fst snd].
  destruct (proc_exited p) as [code|e0]; [|apply Hcatch].
  destruct (negb (code =? 0)%Z); [reflexivity|].
  destruct (evaluation task); [|reflexivity].
  match goal with
  | |- context [evaluateTask env spec task out ?w0] =>
      destruct (evaluateTask env spec task out w0) as [[ev|e0] w1]
  end; cbn [fst snd].
  - destruct (negb (e_success ev)); reflexivity.
  - apply Hcatch.
Qed.

(** The retry loop ends with the output captured last in [lastOutput]. *)
Lemma retry_loop_captures env spec task prompt maxRetries fuel :
  forall s,
    lastOutput (snd (snd (retry_loop env spec task prompt maxRetries fuel s)))
    = last_captured env spec prompt
        (attempt_starts env spec task prompt maxRetries fuel s)
        (lastOutput (snd s)).
Proof.
  induction fuel as [|fuel IH]; intros s; simpl;
    unfold bind at 1; unfold getF at 1; cbn [fst snd];
    destruct (negb (f_success (snd s)) && (f_attempts (snd s) <? maxRetries)%nat);
    try reflexivity.
  unfold bind at 1. unfold modifyF at 1. cbn [fst snd]. unfold bind at 1.
  pose proof (attempt_captures env spec task prompt (fst s) (count_attempt (snd s)))
    as Hc.
  unfold last_captured. cbn [fold_left].
  destruct (try_catch (attempt_try env spec task prompt) (attempt_catch env)
              (fst s, count_attempt (snd s))) as [[[]|e] s1];
    cbn [fst snd] in Hc |- *.
  - rewrite IH. unfold last_captured. rewrite Hc. reflexivity.
  - cbn [fold_left]. exact Hc.
Qed.

(** The loop makes one attempt for each of its iterations. *)
Lemma retry_loop_counts env spec task prompt maxRetries fuel :
  forall s s',
    retry_loop env spec task prompt maxRetries fuel s = (Ok tt, s') ->
    attempts (result (snd s)) = f_attempts (snd s) ->
    attempts (result (snd s'))
    = f_attempts (snd s)
      + length (attempt_starts env spec task prompt maxRetries fuel s).
Proof.
  induction fuel as [|fuel IH]; intros s s'; simpl;
    unfold bind at 1; unfold getF at 1; cbn [fst snd];
    destruct (negb (f_success (snd s)) && (f_attempts (snd s) <? maxRetries)%nat);
    try (intros H Ha; inversion H; subst; cbn [length]; lia).
  unfold bind at 1. unfold modifyF at 1. cbn [fst snd]. unfold bind at 1.
  pose proof (attempt_keeps_counters env spec task prompt
                (fst s, count_attempt (snd s))) as Hk.
  destruct (try_catch (attempt_try env spec task prompt) (attempt_catch env)
              (fst s, count_attempt (snd s))) as [[[]|e] s1];
    [|discriminate].
  unfold frame_kept in Hk. cbn [fst snd] in Hk. injection Hk as Ha Hr.
  intros Hloop _. cbn [length].
  rewrite (IH s1 s' Hloop).
  - rewrite Ha. cbn [count_attempt f_attempts]. lia.
  - rewrite Ha, Hr. reflexivity.
Qed.

(** When every launch prints the same text, that text is what is captured
    last, as soon as there is one attempt. *)
Lemma last_captured_agent_prints env spec prompt out (starts : list World) previous :
  agent_prints env out ->
  starts <> [] ->
  last_captured env spec prompt starts previous = out.
Proof.
  intros Hprints.
  assert (Hc : forall w, captured env spec prompt w = Some out).
  { intros w. unfold captured.
    destruct (Hprints (tick w) (aider_args spec prompt)) as [p [err [-> [-> ->]]]].
    reflexivity. }
  unfold last_captured.
  assert (Hfold : forall l : list World,
             fold_left (fun kept w =>
                          match captured env spec prompt w with
                          | Some o => o
                          | None => kept
                          end) l out = out).
  { induction l as [|w l IH]; cbn [fold_left]; [reflexivity|].
    rewrite Hc. exact IH. }
  destruct starts as [|w l]; [congruence|].
  intros _. cbn [fold_left]. rewrite Hc. apply Hfold.
Qed.

(* ================================================================== *)
(** ** executeTask *)
(* ================================================================== *)

(** The ways through the outer [try] block: [createBranch] throws; the
    worktree directory is missing or cannot be entered; an error leaves the
    retry loop; the [process.chdir] back throws; the block ends. *)
Lemma executeTask_try_paths env spec task specName (w : World) res s :
  executeTask_try env spec task specName (w, initial_frame) = (res, s) ->
  (exists e w1,
      createBranch env specName w = (Throw e, w1)
      /\ res = Throw e /\ s = (w1, initial_frame))
  \/ exists path w1,
       createBranch env specName w = (Ok path, w1)
       /\ ((exists e, res = Throw e /\ cwd (fst s) = cwd w1 /\ snd s = initial_frame)
           \/ (exists e,
                 retry_loop env spec task (prepareTaskPrompt spec task)
                   (retries (aider_config spec)) (retries (aider_config spec))
                   (in_worktree env path w1, initial_frame) = (Throw e, s)
                 /\ res = Throw e)
           \/ exists w4 f4,
                retry_loop env spec task (prepareTaskPrompt spec task)
                  (retries (aider_config spec)) (retries (aider_config spec))
                  (in_worktree env path w1, initial_frame) = (Ok tt, (w4, f4))
                /\ ((exists m,
                       env_chdir env (tick w4) (cwd w1) = Some m
                       /\ res = Throw (ErrorObj m)
                       /\ s = (advance [EvChdir (cwd w1)] w4, f4))
                    \/ (env_chdir env (tick w4) (cwd w1) = None
                        /\ res = Ok (final_result f4)
                        /\ s = (set_cwd (cwd w1) (advance [EvChdir (cwd w1)] w4),
                                set_result (final_result f4) f4)))).
Proof.
  unfold executeTask_try, bind, liftW, process_cwd.
  cbn [fst snd].
  destruct (createBranch env specName w) as [[path|e] w1];
    [|intros H; inversion H; subst; left; exists e, w1; repeat split].
  cbn [fst snd]. intros H. right. exists path, w1. split; [reflexivity|].
  pose proof (existsSync_state env (env_join env [cwd w1; path]) w1) as Hst.
  destruct (existsSync env (env_join env [cwd w1; path]) w1) as [[present|e] w2];
    cbn [snd] in Hst; subst w2;
    [|inversion H; subst; left; exists e; repeat split].
  destruct present; cbn [negb fst snd] in H;
    [|inversion H; subst; left; eexists; repeat split].
  unfold process_chdir at 1 in H. cbn [fst snd] in H.
  destruct (env_chdir env (tick (advance [] w1)) (env_join env [cwd w1; path]))
    as [m|];
    [inversion H; subst; left; eexists; repeat split|].
  cbn [fst snd] in H. fold (in_worktree env path w1) in H.
  right.
  destruct (retry_loop env spec task (prepareTaskPrompt spec task)
              (retries (aider_config spec)) (retries (aider_config spec))
              (in_worktree env path w1, initial_frame)) as [[[]|e] [w4 f4]];
    [|inversion H; subst; left; exists e; split; reflexivity].
  right. exists w4, f4. split; [reflexivity|].
  cbn [fst snd] in H. unfold process_chdir in H.
  destruct (env_chdir env (tick w4) (cwd w1)) as [m|].
  - inversion H; subst. left. exists m. repeat split.
  - unfold getF, modifyF, ret in H. cbn [fst snd] in H.
    inversion H; subst. right. repeat split.
Qed.

(** [executeTask] returns what its [try] block returned, or the [result]
    object with the message of the outer handler, in the world the [try]
    block left. *)
Lemma executeTask_inv env spec task specName (w : World) r w' :
  executeTask env spec task specName w = (Ok r, w') ->
  exists res s,
    executeTask_try env spec task specName (w, initial_frame) = (res, s)
    /\ w' = fst s
    /\ match res with
       | Ok r0 => r = r0
       | Throw _ => exists msg, r = set_error msg (result (snd s))
       end.
Proof.
  unfold executeTask, try_catch. intros H.
  pose proof (throws_executeTask_try env spec task specName (w, initial_frame)) as Ht.
  destruct (executeTask_try env spec task specName (w, initial_frame))
    as [[r0|e] s].
  - inversion H; subst. exists (Ok r), s. repeat split.
  - destruct (Ht e eq_refl) as [m ->].
    destruct (executeTask_catch_error env m s) as [msg Hc].
    rewrite Hc in H. inversion H; subst.
    exists (Throw (ErrorObj m)), s. split; [reflexivity|].
    split; [reflexivity|]. exists msg. reflexivity.
Qed.

(** C4. With [retries = 0], [executeTask] returns a result with
    [attempts = 0] and [success = false], and the coding agent is not
    launched: the trace has as many launches of [aider] as before. *)
Theorem zero_retries_make_no_attempt :
  forall env spec task specName w,
    retries (aider_config spec) = 0 ->
    exists r w',
      executeTask env spec task specName w = (Ok r, w')
      /\ attempts r = 0
      /\ success r = false
      /\ agent_invocations w' = agent_invocations w.
Proof.
  intros env spec task specName w H0.
  pose proof (stable_createBranch env specName w) as Hcb.
  pose proof (throws_createBranch env specName w) as Hth.
  apply (agent_invocations_extends version_control_only) in Hcb;
    [|intros e He; apply He].
  unfold executeTask, try_catch, executeTask_try, bind, liftW.
  rewrite H0. cbn [fst snd].
  destruct (createBranch env specName w) as [[path|e] w1]; cbn [fst snd] in *.
  - unfold process_cwd, existsSync, process_chdir, executeTask_catch,
      message_includes, bind, ret, throw, getF, modifyF.
    cbn [fst snd retry_loop].
    repeat match goal with
           | |- context [match lookup_file ?p ?f with _ => _ end] =>
               destruct (lookup_file p f)
           | |- context [if negb (env_existsSync ?e ?t ?p) then _ else _] =>
               destruct (env_existsSync e t p)
           | |- context [match env_chdir ?e ?t ?p with _ => _ end] =>
               destruct (env_chdir e t p)
           | |- context [if Js.includes ?a ?b then _ else _] =>
               destruct (Js.includes a b)
           | _ => progress cbn [fst snd negb andb bind getF modifyF ret throw
                                  initial_frame f_success f_attempts Nat.ltb Nat.leb]
           end.
    all: eexists; eexists; split; [reflexivity|];
      split; [reflexivity|]; split; [reflexivity|];
      rewrite <- Hcb; unfold agent_invocations; cbn;
      rewrite ?filter_app; cbn; rewrite ?app_nil_r; reflexivity.
  - destruct (Hth e eq_refl) as [m ->].
    destruct (executeTask_catch_error env m (w1, initial_frame)) as [msg ->].
    eexists. eexists. split; [reflexivity|]. cbn. auto.
Qed.

Lemma zero_retries_make_no_attempt_witness :
  exists r w',
    executeTask Scenario.passing_env (Scenario.one_task 0) (Scenario.plain "parse")
      "feat" Scenario.start = (Ok r, w')
    /\ attempts r = 0
    /\ success r = false
    /\ agent_invocations w' = agent_invocations Scenario.start.
Proof.
  apply (zero_retries_make_no_attempt Scenario.passing_env (Scenario.one_task 0)).
  reflexivity.
Defined.

(** The two ways out of the outer [try] block. *)
Lemma executeTask_try_outcome env spec task specName (w : World) res s :
  executeTask_try env spec task specName (w, initial_frame) = (res, s) ->
  match res with
  | Ok r => output r = Some (lastOutput (snd s))
  | Throw _ => output (result (snd s)) = None /\ success (result (snd s)) = false
  end.
Proof.
  unfold executeTask_try, bind, liftW, process_cwd.
  cbn [fst snd].
  destruct (createBranch env specName w) as [[path|e] w1];
    [|intros H; inversion H; subst; cbn; split; reflexivity].
  cbn [fst snd].
  destruct (existsSync env (env_join env [cwd w1; path]) w1) as [[present|e] w2];
    [|intros H; inversion H; subst; cbn; split; reflexivity].
  destruct present; cbn [negb fst snd];
    [|intros H; inversion H; subst; cbn; split; reflexivity].
  destruct (process_chdir env (env_join env [cwd w1; path]) w2) as [[[]|e] w3];
    [|intros H; inversion H; subst; cbn; split; reflexivity].
  cbn [fst snd].
  pose proof (retry_loop_keeps_result env spec task (prepareTaskPrompt spec task)
                (retries (aider_config spec)) (retries (aider_config spec))
                (w3, initial_frame)) as Hk.
  destruct (retry_loop env spec task (prepareTaskPrompt spec task)
              (retries (aider_config spec)) (retries (aider_config spec))
              (w3, initial_frame)) as [[[]|e] [w4 f4]];
    unfold frame_kept, result_fields in Hk; cbn in Hk;
    injection Hk as Ho Hs; cbn [fst snd];
    [|intros H; inversion H; subst; cbn; split; assumption].
  destruct (process_chdir env (cwd w1) w4) as [[[]|e] w5];
    [|intros H; inversion H; subst; cbn; split; assumption].
  unfold getF, modifyF, ret. cbn [fst snd].
  intros H; inversion H; subst. reflexivity.
Qed.

(** Without any attempt the [try] block returns the empty output. *)
Lemma try_block_output_without_attempt env spec task specName (w : World) r s :
  retries (aider_config spec) = 0 ->
  executeTask_try env spec task specName (w, initial_frame) = (Ok r, s) ->
  output r = Some EmptyString.
Proof.
  intros H0. unfold executeTask_try, bind, liftW, process_cwd.
  rewrite H0. cbn [fst snd].
  destruct (createBranch env specName w) as [[path|e] w1]; [|discriminate].
  cbn [fst snd].
  destruct (existsSync env (env_join env [cwd w1; path]) w1) as [[present|e] w2];
    [|discriminate].
  destruct present; cbn [negb fst snd]; [|discriminate].
  destruct (process_chdir env (env_join env [cwd w1; path]) w2) as [[[]|e] w3];
    [|discriminate].
  cbn [fst snd retry_loop bind getF initial_frame f_success f_attempts negb andb
       Nat.ltb Nat.leb ret].
  unfold bind, getF, ret. cbn [fst snd].
  destruct (process_chdir env (cwd w1) w3) as [[[]|e] w5]; [|discriminate].
  unfold modifyF. cbn [fst snd].
  intros H. inversion H; subst. reflexivity.
Qed.

(** C8, as the code has it. When [executeTask] returns through the end of
    its [try] block, after the retry loop, the [output] field is present and
    holds the standard output of the agent captured last: the output of the
    most recent attempt whose process had both streams read, the empty
    string when no attempt captured any. There is one attempt for each
    iteration of the loop; so when every launch of the agent prints the
    same text and there was an attempt, that text is the output. The field
    is present whether [success] is true or false, in particular whenever
    [success] is true. When [executeTask] returns through its outer [catch]
    block the field is absent and [success] is false. With [retries = 0]
    the output of the normal path is the empty string. *)
Theorem output_present_unless_outer_catch :
  forall env spec task specName w r w',
    executeTask env spec task specName w = (Ok r, w') ->
    ((exists s path w1,
         executeTask_try env spec task specName (w, initial_frame) = (Ok r, s)
         /\ createBranch env specName w = (Ok path, w1)
         /\ output r = Some (lastOutput (snd s))
         /\ length (attempt_starts env spec task (prepareTaskPrompt spec task)
                      (retries (aider_config spec)) (retries (aider_config spec))
                      (in_worktree env path w1, initial_frame))
            = attempts r
         /\ output r
            = Some (last_captured env spec (prepareTaskPrompt spec task)
                      (attempt_starts env spec task (prepareTaskPrompt spec task)
                         (retries (aider_config spec)) (retries (aider_config spec))
                         (in_worktree env path w1, initial_frame))
                      EmptyString)
         /\ (forall out,
               agent_prints env out -> 0 < attempts r -> output r = Some out))
     \/ (exists e s,
           executeTask_try env spec task specName (w, initial_frame) = (Throw e, s)
           /\ output r = None
           /\ success r = false))
    /\ (success r = true -> exists out, output r = Some out)
    /\ (retries (aider_config spec) = 0 ->
          output r = Some EmptyString \/ output r = None).
Proof.
  intros env spec task specName w r w' H.
  assert (Hcases :
    (exists s path w1,
        executeTask_try env spec task specName (w, initial_frame) = (Ok r, s)
        /\ createBranch env specName w = (Ok path, w1)
        /\ output r = Some (lastOutput (snd s))
        /\ length (attempt_starts env spec task (prepareTaskPrompt spec task)
                     (retries (aider_config spec)) (retries (aider_config spec))
                     (in_worktree env path w1, initial_frame))
           = attempts r
        /\ output r
           = Some (last_captured env spec (prepareTaskPrompt spec task)
                     (attempt_starts env spec task (prepareTaskPrompt spec task)
                        (retries (aider_config spec)) (retries (aider_config spec))
                        (in_worktree env path w1, initial_frame))
                     EmptyString)
        /\ (forall out,
              agent_prints env out -> 0 < attempts r -> output r = Some out))
    \/ (exists e s,
          executeTask_try env spec task specName (w, initial_frame) = (Throw e, s)
          /\ output r = None
          /\ success r = false)).
  { destruct (executeTask_inv env spec task specName w r w' H)
      as [res [s [Htry [_ Hr]]]].
    pose proof (executeTask_try_outcome env spec task specName w _ _ Htry) as Hout.
    destruct res as [r0|e].
    - subst r0. left.
      destruct (executeTask_try_paths env spec task specName w _ _ Htry)
        as [[e [w1 [_ [Hres _]]]] | [path [w1 [Hcb Hpaths]]]]; [discriminate|].
      destruct Hpaths as [[e [Hres _]] | [[e [_ Hres]] | [w4 [f4 [Hloop Hback]]]]];
        try discriminate.
      destruct Hback as [[m [_ [Hres _]]] | [_ [Hres Hs]]]; [discriminate|].
      injection Hres as ->. subst s.
      pose proof (retry_loop_captures env spec task (prepareTaskPrompt spec task)
                    (retries (aider_config spec)) (retries (aider_config spec))
                    (in_worktree env path w1, initial_frame)) as Hcap.
      pose proof (retry_loop_counts env spec task (prepareTaskPrompt spec task)
                    (retries (aider_config spec)) (retries (aider_config spec))
                    _ _ Hloop eq_refl) as Hcount.
      rewrite Hloop in Hcap. cbn [fst snd initial_frame lastOutput f_attempts] in *.
      cbn [Nat.add] in Hcount.
      exists (set_cwd (cwd w1) (advance [EvChdir (cwd w1)] w4),
              set_result (final_result f4) f4), path, w1.
      split; [exact Htry|]. split; [exact Hcb|]. split; [exact Hout|].
      split; [symmetry; exact Hcount|].
      split; [cbn [final_result output]; rewrite Hcap; reflexivity|].
      intros out Hprints Hpos. cbn [final_result output attempts] in *.
      rewrite Hcap. f_equal.
      apply last_captured_agent_prints; [exact Hprints|].
      intros Hnil. rewrite Hnil in Hcount. cbn [length] in Hcount. lia.
    - destruct Hr as [msg ->]. destruct Hout as [Ho Hs].
      right. exists e, s. split; [exact Htry|]. split; assumption. }
  split; [exact Hcases|]. split.
  - intros Hs. destruct Hcases as [[s [_ [_ [_ [_ [Ho _]]]]]] | [e [s [_ [_ Hf]]]]].
    + eexists. exact Ho.
    + congruence.
  - intros H0. destruct Hcases as [[s [_ [_ [Htry _]]]] | [e [s [_ [Hnone _]]]]].
    + left. exact (try_block_output_without_attempt env spec task specName w r s H0 Htry).
    + right. exact Hnone.
Qed.

Lemma output_present_unless_outer_catch_witness :
  (exists r w',
      executeTask Scenario.drafting_env (Scenario.one_task 2) (Scenario.plain "parse")
        "feat" Scenario.start = (Ok r, w')
      /\ success r = false
      /\ attempts r = 2
      /\ output r = Some "draft 6"
      /\ map (captured Scenario.drafting_env (Scenario.one_task 2)
                (prepareTaskPrompt (Scenario.one_task 2) (Scenario.plain "parse")))
             (attempt_starts Scenario.drafting_env (Scenario.one_task 2)
                (Scenario.plain "parse")
                (prepareTaskPrompt (Scenario.one_task 2) (Scenario.plain "parse")) 2 2
                (in_worktree Scenario.drafting_env "../worktrees/feat"
                   (snd (createBranch Scenario.drafting_env "feat" Scenario.start)),
                 initial_frame))
         = [Some "draft 5"; Some "draft 6"])
  /\ (exists r w',
        executeTask Scenario.passing_env (Scenario.one_task 2) (Scenario.plain "parse")
          "feat" Scenario.start = (Ok r, w')
        /\ success r = true
        /\ attempts r = 1
        /\ output r = Some "ok").
Proof.
  split.
  - destruct (executeTask Scenario.drafting_env (Scenario.one_task 2)
                (Scenario.plain "parse") "feat" Scenario.start) as [res w'] eqn:E.
    assert (Hr : exists r, res = Ok r /\ success r = false /\ attempts r = 2).
    { vm_compute in E. inversion E. eexists. repeat split. }
    destruct Hr as [r [-> [Hs Ha]]].
    exists r, w'. split; [reflexivity|]. split; [exact Hs|]. split; [exact Ha|].
    split; [|vm_compute; reflexivity].
    destruct (proj1 (output_present_unless_outer_catch _ _ _ _ _ _ _ E))
      as [[s [path [w1 [_ [Hcb [_ [_ [Ho _]]]]]]]] | [e [s [Hthrow _]]]].
    + rewrite Ho.
      assert (Hp : path = "../worktrees/feat"
                   /\ w1 = snd (createBranch Scenario.drafting_env "feat"
                                  Scenario.start)).
      { rewrite Hcb. cbn [snd]. split; [|reflexivity].
        vm_compute in Hcb. injection Hcb as <- _. reflexivity. }
      destruct Hp as [-> ->]. vm_compute. reflexivity.
    + vm_compute in Hthrow. discriminate Hthrow.
  - destruct (executeTask Scenario.passing_env (Scenario.one_task 2)
                (Scenario.plain "parse") "feat" Scenario.start) as [res w'] eqn:E.
    assert (Hr : exists r, res = Ok r /\ success r = true /\ attempts r = 1).
    { vm_compute in E. inversion E. eexists. repeat split. }
    destruct Hr as [r [-> [Hs Ha]]].
    exists r, w'. split; [reflexivity|]. split; [exact Hs|]. split; [exact Ha|].
    destruct (proj1 (output_present_unless_outer_catch _ _ _ _ _ _ _ E))
      as [[s [path [w1 [_ [_ [_ [_ [_ Hprints]]]]]]]] | [e [s [_ [_ Hf]]]]].
    + apply Hprints.
      * intros t args. eexists. eexists. repeat split.
      * rewrite Ha. apply Nat.lt_0_1.
    + rewrite Hs in Hf. discriminate Hf.
Defined.

(** C8, as stated, fails: when the worktree directory is missing the task
    fails before any launch of the agent and the result has no [output]. *)
Lemma output_absent_without_worktree :
  (exists r,
      fst (executeTask Scenario.no_worktree_env (Scenario.one_task 3)
             (Scenario.plain "parse") "feat" Scenario.start) = Ok r
      /\ success r = false /\ attempts r = 0 /\ output r = None)
  /\ agent_invocations
       (snd (executeTask Scenario.no_worktree_env (Scenario.one_task 3)
               (Scenario.plain "parse") "feat" Scenario.start)) = 0.
Proof. vm_compute. split; [eexists; repeat split | reflexivity]. Qed.

Lemma cwd_existsSync env path : stable same_cwd (existsSync env path).
Proof.
  intros w. unfold existsSync, same_cwd.
  destruct (lookup_file path (files w)); reflexivity.
Qed.

Lemma cwd_spawn env argv : stable same_cwd (spawn env argv).
Proof. intros w. reflexivity. Qed.

(** The version-control commands are run where the process is. *)
Lemma cwd_createBranch env specName : stable same_cwd (createBranch env specName).
Proof.
  unfold createBranch, createBranch_try, createBranch_catch, detectVC,
    stdout_text, stderr_text, exited.
  repeat (stable_step || apply cwd_existsSync || apply cwd_spawn).
Qed.

(* ================================================================== *)
(** ** Errors during an attempt *)
(* ================================================================== *)

Lemma throws_evaluateTask env spec task aiderOutput :
  throws_errors (evaluateTask env spec task aiderOutput).
Proof. unfold evaluateTask. repeat throws_step. Qed.

Section AgentErrors.

Variable env : Env.
Variable spec : Spec.
Variable task : Task.
Variable prompt : string.

Hypothesis Hagent : agent_rejects_with_errors env.

(** The [try] block of an attempt throws [Error] objects only. *)
Lemma throws_attempt_try : throws_errors (attempt_try env spec task prompt).
Proof.
  intros [w f] e.
  pose proof (Hagent (tick w) (aider_args spec prompt)) as Hp.
  unfold attempt_try, bind, liftW, spawn, stdout_text, stderr_text, exited,
    of_result, modifyF, ret.
  cbn [fst snd].
  destruct (env_spawn env (tick w) ("aider" :: aider_args spec prompt)) as [p|e0];
    [|intros H; inversion H; subst; exact Hp].
  destruct Hp as [Hout [Herr Hex]].
  destruct (proc_stdout p) as [out|e0];
    [|intros H; inversion H; subst; exact Hout].
  destruct (proc_stderr p) as [err|e0];
    [|intros H; inversion H; subst; exact Herr].
  cbn [fst snd].
  destruct (proc_exited p) as [code|e0];
    [|intros H; inversion H; subst; exact Hex].
  destruct (negb (code =? 0)%Z); [discriminate|].
  destruct (evaluation task); [|discriminate].
  match goal with
  | |- context [evaluateTask env spec task out ?w0] =>
      pose proof (throws_evaluateTask env spec task out w0) as Hev;
      destruct (evaluateTask env spec task out w0) as [[ev|e0] w1]
  end; cbn [fst snd].
  - destruct (negb (e_success ev)); discriminate.
  - intros H. inversion H; subst. apply Hev. reflexivity.
Qed.

(** The handler of an attempt, given an [Error] object, records a message
    and returns. *)
Lemma attempt_catch_returns (m : string) (s : World * Frame) :
  exists msg,
    attempt_catch env (ErrorObj m) s = (Ok tt, (fst s, set_lastError msg (snd s))).
Proof.
  unfold attempt_catch, message_includes, bind, ret, modifyF.
  destruct (Js.includes m "ENOENT"); [eexists; reflexivity|].
  destruct (Js.includes m "EACCES"); [eexists; reflexivity|].
  destruct (Js.includes m "ETIMEDOUT"); eexists; reflexivity.
Qed.

(** So no error leaves an iteration of the retry loop. *)
Lemma attempt_returns (s : World * Frame) :
  exists s',
    try_catch (attempt_try env spec task prompt) (attempt_catch env) s = (Ok tt, s').
Proof.
  unfold try_catch.
  pose proof (throws_attempt_try s) as Ht.
  destruct (attempt_try env spec task prompt s) as [[[]|e] s1].
  - exists s1. reflexivity.
  - destruct (Ht e eq_refl) as [m ->].
    destruct (attempt_catch_returns m s1) as [msg ->].
    eexists. reflexivity.
Qed.

Lemma retry_loop_returns (maxRetries fuel : nat) :
  forall s, exists s',
    retry_loop env spec task prompt maxRetries fuel s = (Ok tt, s').
Proof.
  induction fuel as [|fuel IH]; intros s; simpl;
    unfold bind at 1; unfold getF at 1; cbn [fst snd];
    destruct (negb (f_success (snd s)) && (f_attempts (snd s) <? maxRetries)%nat);
    try (exists s; reflexivity).
  unfold bind at 1. unfold modifyF at 1. cbn [fst snd]. unfold bind at 1.
  destruct (attempt_returns (fst s, count_attempt (snd s))) as [s1 ->].
  apply IH.
Qed.

End AgentErrors.

(* ================================================================== *)
(** ** The working directory *)
(* ================================================================== *)

(** C1, as the code has it. Provided the failures of the agent's process
    are [Error] objects, every error of an attempt is caught inside the
    retry loop, and [executeTask] returns with the process in the directory
    it started from, whether the task succeeded, the retries are exhausted,
    or the working context could not be acquired. The one exception is the
    [process.chdir] back to the original directory: when that call itself
    throws, the outer [catch] reports the failure and the process stays
    where the retry loop left it. *)
Theorem working_directory_restored_unless_the_way_back_fails :
  forall env spec task specName w r w',
    agent_rejects_with_errors env ->
    executeTask env spec task specName w = (Ok r, w') ->
    (cwd w' = cwd w
     \/ exists path w1 w4 f4 m,
          createBranch env specName w = (Ok path, w1)
          /\ retry_loop env spec task (prepareTaskPrompt spec task)
               (retries (aider_config spec)) (retries (aider_config spec))
               (in_worktree env path w1, initial_frame) = (Ok tt, (w4, f4))
          /\ env_chdir env (tick w4) (cwd w) = Some m
          /\ w' = advance [EvChdir (cwd w)] w4
          /\ success r = false)
    /\ (success r = true -> cwd w' = cwd w)
    /\ ((forall t, env_chdir env t (cwd w) = None) -> cwd w' = cwd w).
Proof.
  intros env spec task specName w r w' Hagent Hrun.
  assert (Hcases :
    cwd w' = cwd w
    \/ exists path w1 w4 f4 m,
         createBranch env specName w = (Ok path, w1)
         /\ retry_loop env spec task (prepareTaskPrompt spec task)
              (retries (aider_config spec)) (retries (aider_config spec))
              (in_worktree env path w1, initial_frame) = (Ok tt, (w4, f4))
         /\ env_chdir env (tick w4) (cwd w) = Some m
         /\ w' = advance [EvChdir (cwd w)] w4
         /\ success r = false).
  { destruct (executeTask_inv env spec task specName w r w' Hrun)
      as [res [s [Htry [-> Hr]]]].
    pose proof (cwd_createBranch env specName w) as Hcwd. unfold same_cwd in Hcwd.
    destruct (executeTask_try_paths env spec task specName w res s Htry)
      as [[e [w1 [Hcb [_ ->]]]] | [path [w1 [Hcb Hpaths]]]];
      rewrite Hcb in Hcwd; cbn [snd] in Hcwd.
    - left. exact Hcwd.
    - destruct Hpaths as [[e [_ [Hc _]]] | [[e [Hloop _]] | [w4 [f4 [Hloop Hback]]]]].
      + left. rewrite Hc. exact Hcwd.
      + destruct (retry_loop_returns env spec task (prepareTaskPrompt spec task)
                    Hagent (retries (aider_config spec)) (retries (aider_config spec))
                    (in_worktree env path w1, initial_frame)) as [s' Hok].
        rewrite Hok in Hloop. discriminate Hloop.
      + destruct Hback as [[m [Hm [-> ->]]] | [_ [_ ->]]].
        * right. exists path, w1, w4, f4, m. rewrite <- Hcwd.
          split; [exact Hcb|]. split; [exact Hloop|]. split; [exact Hm|].
          split; [reflexivity|].
          destruct Hr as [msg ->]. cbn [success set_error snd].
          pose proof (retry_loop_keeps_result env spec task (prepareTaskPrompt spec task)
                        (retries (aider_config spec)) (retries (aider_config spec))
                        (in_worktree env path w1, initial_frame)) as Hk.
          rewrite Hloop in Hk. unfold frame_kept, result_fields in Hk.
          cbn in Hk. injection Hk as _ Hs. exact Hs.
        * left. cbn. exact Hcwd. }
  split; [exact Hcases|]. split.
  - intros Hs. destruct Hcases as [H | [path [w1 [w4 [f4 [m [_ [_ [_ [_ Hf]]]]]]]]]].
    + exact H.
    + congruence.
  - intros Hback. destruct Hcases as [H | [path [w1 [w4 [f4 [m [_ [_ [Hm _]]]]]]]]].
    + exact H.
    + rewrite Hback in Hm. discriminate Hm.
Qed.

Lemma working_directory_restored_unless_the_way_back_fails_witness :
  exists r w',
    executeTask Scenario.failing_env (Scenario.one_task 3) (Scenario.plain "parse")
      "feat" Scenario.start = (Ok r, w')
    /\ success r = false
    /\ attempts r = 3
    /\ cwd w' = "/repo".
Proof.
  destruct (executeTask Scenario.failing_env (Scenario.one_task 3)
              (Scenario.plain "parse") "feat" Scenario.start) as [res w'] eqn:E.
  assert (Hr : exists r, res = Ok r /\ success r = false /\ attempts r = 3).
  { vm_compute in E. inversion E. eexists. repeat split. }
  destruct Hr as [r [-> [Hs Ha]]].
  exists r, w'. split; [reflexivity|]. split; [exact Hs|]. split; [exact Ha|].
  apply (proj2 (proj2 (working_directory_restored_unless_the_way_back_fails
                         Scenario.failing_env (Scenario.one_task 3)
                         (Scenario.plain "parse") "feat" Scenario.start r w'
                         (fun t args => conj I (conj I I)) E))).
  intros t. reflexivity.
Defined.

(** C1, as stated, fails. The agent's process fails with [Error] objects
    only; the call enters the worktree, the first attempt succeeds, and the
    [process.chdir] back to [/repo] throws: [executeTask] returns a failure
    and the process is still in the worktree. *)
Lemma working_directory_not_restored_when_the_way_back_fails :
  agent_rejects_with_errors Scenario.stuck_env
  /\ cwd Scenario.start = "/repo"
  /\ exists r w',
       executeTask Scenario.stuck_env (Scenario.one_task 3) (Scenario.plain "parse")
         "feat" Scenario.start = (Ok r, w')
       /\ r = {| success := false; attempts := 1;
                 error := Some ("Failed to change directory: "
                                ++ "ENOENT: no such file or directory, chdir '/repo/../worktrees/feat' -> '/repo'"
                                ++ ". Check if the directory exists and is accessible.");
                 output := None |}
       /\ trace w'
          = [EvSpawn ["jj"; "branch"; "create"; "feat"];
             EvSpawn ["jj"; "worktree"; "add"; "../worktrees/feat"; "feat"];
             EvChdir Scenario.worktree;
             EvSpawn ("aider" :: aider_args (Scenario.one_task 3)
                                   (prepareTaskPrompt (Scenario.one_task 3)
                                                      (Scenario.plain "parse")));
             EvChdir "/repo"]
       /\ cwd w' = Scenario.worktree
       /\ ~ cwd w' = cwd Scenario.start.
Proof.
  split; [intros t args; exact (conj I (conj I I))|].
  split; [reflexivity|].
  eexists. eexists. split; [vm_compute; reflexivity|].
  split; [reflexivity|]. split; [reflexivity|]. split; [reflexivity|].
  cbn. discriminate.
Qed.

(* ================================================================== *)
(** ** The retry loop under an agent that always fails *)
(* ================================================================== *)

Section FailingAgent.

Variable env : Env.
Variable spec : Spec.
Variable task : Task.
Variable prompt : string.

Hypothesis Hagent : agent_always_exits_nonzero env.

(** One iteration: the agent is launched once, its output is kept, its exit
    becomes the last error, and nothing ends the loop. *)
Lemma attempt_agent_fails (w : World) (f : Frame) :
  exists out msg,
    try_catch (attempt_try env spec task prompt) (attempt_catch env) (w, f)
      = (Ok tt,
         (advance [EvSpawn ("aider" :: aider_args spec prompt)] w,
          set_lastError msg (set_lastOutput out f))).
Proof.
  destruct (Hagent (tick w) (aider_args spec prompt))
    as [p [out [err [code [Hsp [Hout [Herr [Hex Hcode]]]]]]]].
  exists out, (aider_exit_message code err).
  unfold try_catch, attempt_try, bind, liftW, spawn, stdout_text, stderr_text,
    exited, of_result, modifyF.
  cbn [fst snd]. rewrite Hsp, Hout, Herr, Hex. cbn [fst snd].
  apply Z.eqb_neq in Hcode. rewrite Hcode. reflexivity.
Qed.

Lemma retry_loop_agent_fails (maxRetries fuel : nat) :
  forall w f,
    f_success f = false ->
    f_attempts f + fuel = maxRetries ->
    exists w' f',
      retry_loop env spec task prompt maxRetries fuel (w, f) = (Ok tt, (w', f'))
      /\ f_success f' = false
      /\ attempts (result f')
           = match fuel with O => attempts (result f) | S _ => maxRetries end
      /\ agent_invocations w' = agent_invocations w + fuel.
Proof.
  induction fuel as [|fuel IH]; intros w f Hs Ha.
  - exists w, f. simpl. unfold bind, getF. cbn [fst snd]. rewrite Hs.
    replace (f_attempts f <? maxRetries)%nat with false
      by (symmetry; apply Nat.ltb_ge; lia).
    repeat split; try reflexivity; lia.
  - simpl. unfold bind at 1. unfold getF at 1. cbn [fst snd]. rewrite Hs.
    replace (f_attempts f <? maxRetries)%nat with true
      by (symmetry; apply Nat.ltb_lt; lia).
    cbn [negb andb]. unfold bind at 1. unfold modifyF at 1. cbn [fst snd].
    unfold bind at 1.
    destruct (attempt_agent_fails w (count_attempt f)) as [out [msg Hstep]].
    rewrite Hstep.
    destruct (IH (advance [EvSpawn ("aider" :: aider_args spec prompt)] w)
                (set_lastError msg (set_lastOutput out (count_attempt f))))
      as [w' [f' [Hloop [H1 [H2 H3]]]]].
    { exact Hs. }
    { simpl. lia. }
    exists w', f'. split; [exact Hloop|].
    rewrite agent_invocations_spawn_agent in H3.
    split; [exact H1|]. split.
    + rewrite H2. destruct fuel; simpl in *; lia.
    + lia.
Qed.

End FailingAgent.

(** With the working context acquired and an agent that exits non-zero
    every time, [executeTask] makes all its [retries] attempts and fails. *)
Lemma executeTask_agent_fails env spec task specName (w : World) path w1 :
  agent_always_exits_nonzero env ->
  createBranch env specName w = (Ok path, w1) ->
  fst (existsSync env (env_join env [cwd w1; path]) w1) = Ok true ->
  (forall t p, env_chdir env t p = None) ->
  exists r w',
    executeTask env spec task specName w = (Ok r, w')
    /\ success r = false
    /\ attempts r = retries (aider_config spec)
    /\ agent_invocations w' = agent_invocations w + retries (aider_config spec).
Proof.
  intros Hagent Hcb Hex Hchdir.
  pose proof (stable_createBranch env specName w) as Hvc.
  rewrite Hcb in Hvc. cbn [snd] in Hvc.
  apply (agent_invocations_extends version_control_only) in Hvc;
    [|intros e He; apply He].
  pose proof (existsSync_state env (env_join env [cwd w1; path]) w1) as Hst.
  destruct (existsSync env (env_join env [cwd w1; path]) w1) as [present w2] eqn:Eex.
  cbn [fst snd] in Hex, Hst. subst present w2.
  destruct (retry_loop_agent_fails env spec task (prepareTaskPrompt spec task) Hagent
              (retries (aider_config spec)) (retries (aider_config spec))
              (in_worktree env path w1) initial_frame eq_refl eq_refl)
    as [w4 [f4 [Hloop [H1 [H2 H3]]]]].
  unfold executeTask, try_catch, executeTask_try, bind, liftW, process_cwd,
    process_chdir.
  cbn [fst snd]. rewrite Hcb. cbn [fst snd]. rewrite Eex.
  cbn [negb fst snd]. rewrite Hchdir. cbn [fst snd].
  fold (in_worktree env path w1).
  rewrite Hloop. cbn [fst snd]. rewrite Hchdir.
  unfold getF, modifyF, ret. cbn [fst snd].
  eexists. eexists. split; [reflexivity|].
  unfold final_result. cbn [success attempts]. rewrite H1, H2.
  split; [reflexivity|]. split.
  - destruct (retries (aider_config spec)); reflexivity.
  - unfold agent_invocations in *. cbn [trace set_cwd advance] in *.
    rewrite filter_app. cbn [filter is_agent_spawn]. rewrite app_nil_r.
    rewrite H3. unfold in_worktree. cbn [trace set_cwd advance].
    rewrite !filter_app. cbn [filter is_agent_spawn]. rewrite !app_nil_r.
    rewrite Hvc. reflexivity.
Qed.

(* ================================================================== *)
(** ** The task loop *)
(* ================================================================== *)

Section Loop.

Variable env : Env.
Variable spec : Spec.
Variable specName : string.

Lemma loop_returns (todo : list Task) (w : World) :
  exists todo' rs ds w', executeAllTasks_loop env spec specName todo w = (Ok (todo', rs, ds), w').
Proof.
  revert w. induction todo as [|task rest IH]; intros w; simpl.
  - eexists. eexists. eexists. eexists. reflexivity.
  - destruct (is_done task).
    + unfold bind. destruct (IH w) as [t' [rs [ds [w' ->]]]].
      eexists. eexists. eexists. eexists. reflexivity.
    + unfold bind.
      destruct (executeTask_returns env spec task specName w) as [r [w1 ->]].
      destruct (success r).
      * destruct (IH w1) as [t' [rs [ds [w' ->]]]].
        eexists. eexists. eexists. eexists. reflexivity.
      * eexists. eexists. eexists. eexists. reflexivity.
Qed.

(** When every task of [pre] that ran succeeded, the loop over [pre ++ rest]
    is the loop over [pre] followed by the loop over [rest]. *)
Lemma loop_app (pre rest : list Task) :
  forall w pre' rs ds w1,
    executeAllTasks_loop env spec specName pre w = (Ok (pre', rs, ds), w1) ->
    Forall (fun r => success r = true) rs ->
    executeAllTasks_loop env spec specName (pre ++ rest)%list w =
      match executeAllTasks_loop env spec specName rest w1 with
      | (Ok (rest', rs2, ds2), w2) => (Ok ((pre' ++ rest')%list, (rs ++ rs2)%list, (ds ++ ds2)%list), w2)
      | (Throw e, w2) => (Throw e, w2)
      end.
Proof.
  induction pre as [|task pre IH]; intros w pre' rs ds w1 Hrun Hall.
  - simpl in Hrun. inversion Hrun; subst. simpl.
    destruct (executeAllTasks_loop env spec specName rest w1) as [[[[r' rs2] ds2]|e] w2]; reflexivity.
  - simpl in Hrun. simpl. destruct (is_done task).
    + unfold bind in *.
      destruct (executeAllTasks_loop env spec specName pre w) as [[[[p' rs0] ds0]|e] w0] eqn:Epre; [|discriminate].
      inversion Hrun; subst.
      rewrite (IH w p' rs ds w1 Epre Hall).
      destruct (executeAllTasks_loop env spec specName rest w1) as [[[[r' rs2] ds2]|e] w2]; reflexivity.
    + unfold bind in *.
      destruct (executeTask env spec task specName w) as [[r|e] w0]; [|discriminate].
      destruct (success r) eqn:Hs.
      * destruct (executeAllTasks_loop env spec specName pre w0) as [[[[p' rs0] ds0]|e] w3] eqn:Epre; [|discriminate].
        inversion Hrun; subst. inversion Hall; subst.
        rewrite (IH w0 p' rs0 ds0 w1 Epre H2).
        destruct (executeAllTasks_loop env spec specName rest w1) as [[[[r' rs2] ds2]|e] w2]; reflexivity.
      * inversion Hrun; subst. inversion Hall; subst. congruence.
Qed.

(** The loop stops at a failing task. *)
Lemma loop_failure (task : Task) (post : list Task) (w : World) r w' :
  is_done task = false ->
  executeTask env spec task specName w = (Ok r, w') ->
  success r = false ->
  executeAllTasks_loop env spec specName (task :: post) w
    = (Ok (task :: post, [r], [execution_data specName task r]), w').
Proof.
  intros Hd He Hs. simpl. rewrite Hd. unfold bind. rewrite He, Hs. reflexivity.
Qed.

(** The tasks that ran are the first pending ones, in list order, one result
    and one telemetry record each. *)
Lemma loop_order (todo : list Task) :
  forall w todo' rs ds w',
    executeAllTasks_loop env spec specName todo w = (Ok (todo', rs, ds), w') ->
    ds = map (fun p => execution_data specName (fst p) (snd p))
             (combine (filter pending todo) rs)
    /\ length rs <= length (filter pending todo)
    /\ map name todo' = map name todo.
Proof.
  induction todo as [|task rest IH]; intros w todo' rs ds w' Hrun; simpl in Hrun.
  - inversion Hrun; subst. simpl. auto.
  - cbn [filter].
    assert (Hp : pending task = negb (is_done task)) by reflexivity.
    destruct (is_done task) eqn:Hd; unfold bind in Hrun; rewrite Hp; cbn [negb].
    + destruct (executeAllTasks_loop env spec specName rest w)
        as [[[[p' rs0] ds0]|e] w0] eqn:Erest; [|discriminate].
      inversion Hrun; subst.
      destruct (IH _ _ _ _ _ Erest) as [H1 [H2 H3]].
      repeat split; [exact H1 | exact H2 | simpl; f_equal; exact H3].
    + destruct (executeTask env spec task specName w) as [[r|e] w0]; [|discriminate].
      destruct (success r) eqn:Hs.
      * destruct (executeAllTasks_loop env spec specName rest w0)
          as [[[[p' rs0] ds0]|e] w3] eqn:Erest; [|discriminate].
        inversion Hrun; subst.
        destruct (IH _ _ _ _ _ Erest) as [H1 [H2 H3]].
        split; [|split]; simpl.
        { f_equal. exact H1. }
        { lia. }
        { f_equal; exact H3. }
      * inversion Hrun; subst.
        split; [|split]; simpl;
          [destruct (filter pending rest); reflexivity | lia | reflexivity].
Qed.

(** The loop over a list with no pending task does nothing. *)
Lemma loop_nothing_pending (todo : list Task) (w : World) :
  filter pending todo = [] ->
  executeAllTasks_loop env spec specName todo w = (Ok (todo, [], []), w).
Proof.
  induction todo as [|task rest IH]; intros Hnone; simpl.
  - reflexivity.
  - cbn [filter] in Hnone.
    assert (Hp : pending task = negb (is_done task)) by reflexivity.
    rewrite Hp in Hnone.
    destruct (is_done task); cbn [negb] in Hnone; [|discriminate].
    unfold bind. rewrite (IH Hnone). reflexivity.
Qed.

End Loop.

Lemma untouched_steps (l : list Task) :
  map before (map untouched l) = l
  /\ map after (map untouched l) = l
  /\ results_of (map untouched l) = []
  /\ (forall n, records_of n (map untouched l) = [])
  /\ Forall step_ok (map untouched l).
Proof.
  induction l as [|t l [H1 [H2 [H3 [H4 H5]]]]]; simpl.
  - repeat split; constructor.
  - split; [f_equal; exact H1|]. split; [f_equal; exact H2|].
    split; [exact H3|]. split; [exact H4|].
    constructor; [reflexivity | exact H5].
Qed.

Section Runs.

Variable env : Env.
Variable spec : Spec.
Variable specName : string.

(** A return of the loop is a run: one step per task, each executed task
    executed by [executeTask] in the world its predecessors left. *)
Lemma loop_steps (todo : list Task) :
  forall w todo' rs ds w',
    executeAllTasks_loop env spec specName todo w = (Ok (todo', rs, ds), w') ->
    exists steps,
      run env spec specName w steps w'
      /\ map before steps = todo
      /\ map after steps = todo'
      /\ results_of steps = rs
      /\ records_of specName steps = ds
      /\ Forall step_ok steps.
Proof.
  induction todo as [|task rest IH]; intros w todo' rs ds w' Hrun; simpl in Hrun.
  - inversion Hrun; subst. exists []. repeat split; constructor.
  - destruct (is_done task) eqn:Hd; unfold bind in Hrun.
    + destruct (executeAllTasks_loop env spec specName rest w)
        as [[[[p' rs0] ds0]|e] w0] eqn:Erest; [|discriminate].
      inversion Hrun; subst.
      destruct (IH _ _ _ _ _ Erest) as [steps [H0 [H1 [H2 [H3 [H4 H5]]]]]].
      exists (untouched task :: steps). simpl.
      split; [exact (run_skip env spec specName _ _ _ _ Hd H0)|].
      repeat split; try (f_equal; assumption); try assumption.
      constructor; [reflexivity | exact H5].
    + destruct (executeTask env spec task specName w) as [[r|e] w0] eqn:Eexec;
        [|discriminate].
      destruct (success r) eqn:Hs.
      * destruct (executeAllTasks_loop env spec specName rest w0)
          as [[[[p' rs0] ds0]|e] w3] eqn:Erest; [|discriminate].
        inversion Hrun; subst.
        destruct (IH _ _ _ _ _ Erest) as [steps [H0 [H1 [H2 [H3 [H4 H5]]]]]].
        exists ({| before := task; after := mark_done task; outcome := Some r |}
                  :: steps).
        split; [exact (run_success env spec specName _ _ _ _ _ _ Hd Eexec Hs H0)|].
        simpl. repeat split; try (f_equal; assumption).
        constructor; [|exact H5].
        unfold step_ok. simpl. rewrite Hs. split; [exact Hd | reflexivity].
      * inversion Hrun; subst.
        destruct (untouched_steps rest) as [H1 [H2 [H3 [H4 H5]]]].
        exists ({| before := task; after := task; outcome := Some r |}
                  :: map untouched rest).
        split; [exact (run_failure env spec specName _ _ _ _ rest Hd Eexec Hs)|].
        simpl. rewrite H1, H2, H3, H4. repeat split.
        constructor; [|exact H5].
        unfold step_ok. simpl. rewrite Hs. split; [exact Hd | reflexivity].
Qed.

(** [executeAllTasks] is the loop followed by the import of the lessons
    logger, which rejects and is swallowed: the world the loop left is the
    world [executeAllTasks] returns in. *)
Lemma executeAllTasks_after_loop (mainRepoRoot : string) (w : World)
  todo' rs ds w1 :
  executeAllTasks_loop env spec specName (tasks spec) w = (Ok (todo', rs, ds), w1) ->
  executeAllTasks env spec specName mainRepoRoot w = (Ok (todo', rs), w1).
Proof.
  intros Hrun. unfold executeAllTasks, bind, try_catch. rewrite Hrun.
  reflexivity.
Qed.

Lemma executeAllTasks_inv (mainRepoRoot : string) (w : World) tasks' rs w' :
  executeAllTasks env spec specName mainRepoRoot w = (Ok (tasks', rs), w') ->
  exists ds,
    executeAllTasks_loop env spec specName (tasks spec) w = (Ok (tasks', rs, ds), w').
Proof.
  intros H.
  destruct (loop_returns env spec specName (tasks spec) w) as [t' [rs' [ds [w1 Hl]]]].
  rewrite (executeAllTasks_after_loop mainRepoRoot w _ _ _ _ Hl) in H.
  inversion H; subst. exists ds. exact Hl.
Qed.

(** Tasks that are already done can be taken out of the list: the results,
    the telemetry records and the final world are the same. *)
Lemma loop_skips_done (todo : list Task) :
  forall w todo' rs ds w',
    executeAllTasks_loop env spec specName todo w = (Ok (todo', rs, ds), w') ->
    exists kept',
      executeAllTasks_loop env spec specName (filter pending todo) w
        = (Ok (kept', rs, ds), w').
Proof.
  induction todo as [|task rest IH]; intros w todo' rs ds w' Hrun.
  - simpl in Hrun. inversion Hrun; subst. exists []. reflexivity.
  - cbn [filter]. assert (Hp : pending task = negb (is_done task)) by reflexivity.
    simpl in Hrun. destruct (is_done task) eqn:Hd; rewrite Hp; cbn [negb];
      unfold bind in Hrun.
    + destruct (executeAllTasks_loop env spec specName rest w)
        as [[[[p' rs0] ds0]|e] w0] eqn:Erest; [|discriminate].
      inversion Hrun; subst.
      exact (IH _ _ _ _ _ Erest).
    + simpl. rewrite Hd. unfold bind.
      destruct (executeTask env spec task specName w) as [[r|e] w0]; [|discriminate].
      destruct (success r).
      * destruct (executeAllTasks_loop env spec specName rest w0)
          as [[[[p' rs0] ds0]|e] w3] eqn:Erest; [|discriminate].
        inversion Hrun; subst.
        destruct (IH _ _ _ _ _ Erest) as [kept' Hk]. rewrite Hk.
        eexists. reflexivity.
      * inversion Hrun; subst. eexists. reflexivity.
Qed.

End Runs.

(** C2. [executeAllTasks] runs the tasks one after the other in list order
    and stops at the first task whose result has [success = false]: the
    tasks after it keep their state, no result is produced for them and no
    process is launched after the failing task returned. With an agent that
    exits non-zero every time and the working context acquired, the first
    pending task of any spec fails with [success = false] and
    [attempts = retries] after as many launches of the agent, its result is
    the only one, and the task list is as it was. In Scenario A
    ([retries = 3], two tasks) the result has [attempts = 3] and the second
    task is not run. *)
Theorem tasks_run_in_order_and_halt_at_first_failure :
  (forall env spec specName mainRepoRoot pre task post w pre' rs ds w1 r w2,
      tasks spec = (pre ++ task :: post)%list ->
      executeAllTasks_loop env spec specName pre w = (Ok (pre', rs, ds), w1) ->
      Forall (fun r => success r = true) rs ->
      is_done task = false ->
      executeTask env spec task specName w1 = (Ok r, w2) ->
      success r = false ->
      exists w3,
        executeAllTasks env spec specName mainRepoRoot w
          = (Ok ((pre' ++ task :: post)%list, (rs ++ [r])%list), w3)
        /\ filter is_spawn (trace w3) = filter is_spawn (trace w2))
  /\ (forall env spec specName mainRepoRoot w tasks' rs w',
        executeAllTasks env spec specName mainRepoRoot w = (Ok (tasks', rs), w') ->
        exists ds w1,
          executeAllTasks_loop env spec specName (tasks spec) w
            = (Ok (tasks', rs, ds), w1)
          /\ ds = map (fun p => execution_data specName (fst p) (snd p))
                      (combine (filter pending (tasks spec)) rs)
          /\ length rs <= length (filter pending (tasks spec)))
  /\ (forall env spec specName mainRepoRoot pre task post w path w1,
        tasks spec = (pre ++ task :: post)%list ->
        filter pending pre = [] ->
        is_done task = false ->
        agent_always_exits_nonzero env ->
        createBranch env specName w = (Ok path, w1) ->
        fst (existsSync env (env_join env [cwd w1; path]) w1) = Ok true ->
        (forall t p, env_chdir env t p = None) ->
        exists r w',
          executeAllTasks env spec specName mainRepoRoot w
            = (Ok ((pre ++ task :: post)%list, [r]), w')
          /\ executeTask env spec task specName w = (Ok r, w')
          /\ success r = false
          /\ attempts r = retries (aider_config spec)
          /\ agent_invocations w'
             = agent_invocations w + retries (aider_config spec))
  /\ (fst (executeAllTasks Scenario.failing_env (Scenario.two_tasks 3) "feat" "/repo"
             Scenario.start)
        = Ok ([Scenario.plain "parse"; Scenario.plain "print"],
              [{| success := false; attempts := 3;
                  error := Some "Task failed after 3 attempts. Last error: Aider exited with code 1: boom";
                  output := Some EmptyString |}])
      /\ agent_invocations
           (snd (executeAllTasks Scenario.failing_env (Scenario.two_tasks 3) "feat"
                   "/repo" Scenario.start)) = 3).
Proof.
  split; [|split; [|split]].
  - intros env spec specName mainRepoRoot pre task post w pre' rs ds w1 r w2
           Htasks Hpre Hall Hd Hexec Hfail.
    pose proof (loop_app env spec specName pre (task :: post) w pre' rs ds w1 Hpre Hall)
      as Happ.
    rewrite (loop_failure env spec specName task post w1 r w2 Hd Hexec Hfail) in Happ.
    rewrite <- Htasks in Happ.
    exists w2. split; [|reflexivity].
    exact (executeAllTasks_after_loop env spec specName mainRepoRoot w _ _ _ _ Happ).
  - intros env spec specName mainRepoRoot w tasks' rs w' H.
    destruct (executeAllTasks_inv env spec specName mainRepoRoot w _ _ _ H)
      as [ds Hl].
    exists ds, w'. split; [exact Hl|].
    destruct (loop_order env spec specName _ _ _ _ _ _ Hl) as [H1 [H2 _]].
    split; assumption.
  - intros env spec specName mainRepoRoot pre task post w path w1
           Htasks Hpre Hd Hagent Hcb Hex Hchdir.
    destruct (executeTask_agent_fails env spec task specName w path w1
                Hagent Hcb Hex Hchdir) as [r [w' [Hexec [Hfail [Hatt Hinv]]]]].
    exists r, w'.
    pose proof (loop_app env spec specName pre (task :: post) w pre [] [] w
                  (loop_nothing_pending env spec specName pre w Hpre) (Forall_nil _))
      as Happ.
    rewrite (loop_failure env spec specName task post w r w' Hd Hexec Hfail) in Happ.
    rewrite <- Htasks in Happ. cbn [app] in Happ.
    split; [rewrite <- Htasks;
            exact (executeAllTasks_after_loop env spec specName mainRepoRoot w
                     _ _ _ _ Happ)|].
    repeat split; assumption.
  - vm_compute. split; reflexivity.
Qed.


Lemma tasks_run_in_order_and_halt_at_first_failure_witness :
  (exists r w2 w3,
      executeTask Scenario.failing_env (Scenario.two_tasks 3) (Scenario.plain "parse")
        "feat" Scenario.start = (Ok r, w2)
      /\ success r = false
      /\ executeAllTasks Scenario.failing_env (Scenario.two_tasks 3) "feat" "/repo"
           Scenario.start
         = (Ok ([Scenario.plain "parse"; Scenario.plain "print"], [r]), w3)
      /\ filter is_spawn (trace w3) = filter is_spawn (trace w2))
  /\ (exists r w',
        executeAllTasks Scenario.drafting_env
          (Scenario.spec_of 4 [mark_done (Scenario.plain "parse");
                               Scenario.plain "print"; Scenario.plain "check"])
          "feat" "/repo" Scenario.start
          = (Ok ([mark_done (Scenario.plain "parse"); Scenario.plain "print";
                  Scenario.plain "check"], [r]), w')
        /\ success r = false
        /\ attempts r = 4
        /\ agent_invocations w' = agent_invocations Scenario.start + 4).
Proof.
  split.
  - destruct (executeTask Scenario.failing_env (Scenario.two_tasks 3)
                (Scenario.plain "parse") "feat" Scenario.start) as [res w2] eqn:E.
    assert (Hr : exists r, res = Ok r /\ success r = false).
    { vm_compute in E. inversion E. eexists. split; reflexivity. }
    destruct Hr as [r [-> Hs]].
    destruct (proj1 tasks_run_in_order_and_halt_at_first_failure
                Scenario.failing_env (Scenario.two_tasks 3) "feat" "/repo" []
                (Scenario.plain "parse") [Scenario.plain "print"] Scenario.start
                [] [] [] Scenario.start r w2
                eq_refl eq_refl (Forall_nil _) eq_refl E Hs) as [w3 [H1 H2]].
    exists r, w2, w3. repeat split; assumption.
  - destruct (proj1 (proj2 (proj2 tasks_run_in_order_and_halt_at_first_failure))
                Scenario.drafting_env
                (Scenario.spec_of 4 [mark_done (Scenario.plain "parse");
                                     Scenario.plain "print"; Scenario.plain "check"])
                "feat" "/repo" [mark_done (Scenario.plain "parse")]
                (Scenario.plain "print") [Scenario.plain "check"] Scenario.start
                "../worktrees/feat"
                (snd (createBranch Scenario.drafting_env "feat" Scenario.start)))
      as [r [w' [H1 [_ [H2 [H3 H4]]]]]].
    + reflexivity.
    + reflexivity.
    + reflexivity.
    + intros t args. eexists. eexists. eexists. eexists.
      repeat split; try reflexivity. discriminate.
    + vm_compute. reflexivity.
    + vm_compute. reflexivity.
    + intros t p. reflexivity.
    + exists r, w'. repeat split; assumption.
Defined.

Lemma is_done_mark_done (task : Task) : is_done (mark_done task) = true.
Proof. reflexivity. Qed.

(** What [step_ok] says about the [done] flag. *)
Lemma step_ok_done (st : Step) :
  step_ok st ->
  (is_done (before st) = true -> outcome st = None /\ after st = before st)
  /\ (is_done (before st) = true -> is_done (after st) = true)
  /\ (is_done (after st) = true <->
        is_done (before st) = true
        \/ exists r, outcome st = Some r /\ success r = true)
  /\ name (after st) = name (before st)
  /\ prompt (after st) = prompt (before st)
  /\ evaluation (after st) = evaluation (before st).
Proof.
  unfold step_ok. destruct (outcome st) as [r|].
  - intros [Hd Ha]. rewrite Ha, Hd.
    destruct (success r) eqn:Hs.
    + rewrite is_done_mark_done. repeat split; try discriminate.
      right. exists r. split; [reflexivity | exact Hs].
    + rewrite Hd. repeat split; try discriminate.
      intros [H | [r' [Hr' Hs']]]; [discriminate|].
      inversion Hr'; subst. congruence.
  - intros Ha. rewrite Ha. repeat split; auto.
    intros [H | [r' [Hr' _]]]; [exact H | discriminate].
Qed.

(** C10. The [done] discipline of [executeAllTasks]: the call is a run of
    one step per task of the list, in which every task that was not done is
    executed by [executeTask], in the world the tasks before it left, until
    one fails. A task that was already done is skipped (not executed, no
    result, no telemetry record, the task untouched, and the call is the
    same as on the list without the done tasks: same results, same records,
    same final world); a task that is executed gets [done = true] exactly
    when the result of its execution has [success = true]; no step takes
    [done] from true to false. *)
Theorem done_flag_discipline :
  forall env spec specName mainRepoRoot w tasks' rs w',
    executeAllTasks env spec specName mainRepoRoot w = (Ok (tasks', rs), w') ->
    exists steps,
      run env spec specName w steps w'
      /\ map before steps = tasks spec
      /\ map after steps = tasks'
      /\ results_of steps = rs
      /\ executeAllTasks_loop env spec specName (tasks spec) w
           = (Ok (tasks', rs, records_of specName steps), w')
      /\ (exists kept',
            executeAllTasks_loop env spec specName (filter pending (tasks spec)) w
              = (Ok (kept', rs, records_of specName steps), w'))
      /\ Forall
           (fun st =>
              (is_done (before st) = true ->
                 outcome st = None /\ after st = before st)
              /\ (outcome st = None -> after st = before st)
              /\ (forall r, outcome st = Some r ->
                    is_done (after st) = success r)
              /\ (is_done (before st) = true -> is_done (after st) = true)
              /\ (is_done (after st) = true <->
                    is_done (before st) = true
                    \/ exists r, outcome st = Some r /\ success r = true))
           steps.
Proof.
  intros env spec specName mainRepoRoot w tasks' rs w' H.
  destruct (executeAllTasks_inv env spec specName mainRepoRoot w _ _ _ H)
    as [ds Hl].
  destruct (loop_steps env spec specName _ _ _ _ _ _ Hl)
    as [steps [H0 [H1 [H2 [H3 [H4 H5]]]]]].
  exists steps. subst ds.
  repeat (split; [assumption|]).
  split; [exact (loop_skips_done env spec specName _ _ _ _ _ _ Hl)|].
  eapply Forall_impl; [|exact H5].
  intros st Hok.
  destruct (step_ok_done st Hok) as [A [B [C _]]].
  split; [exact A|]. split.
  { intros Hn. unfold step_ok in Hok. rewrite Hn in Hok. exact Hok. }
  split.
  { intros r Hr. unfold step_ok in Hok. rewrite Hr in Hok.
    destruct Hok as [Hd Ha]. rewrite Ha.
    destruct (success r); [reflexivity | exact Hd]. }
  split; assumption.
Qed.

Lemma done_flag_discipline_witness :
  exists steps w',
    run Scenario.passing_env
        (Scenario.spec_of 2 [mark_done (Scenario.plain "parse");
                             Scenario.plain "print"; Scenario.plain "check"])
        "feat" Scenario.start steps w'
    /\ map before steps
       = [mark_done (Scenario.plain "parse"); Scenario.plain "print";
          Scenario.plain "check"]
    /\ map after steps
       = [mark_done (Scenario.plain "parse"); mark_done (Scenario.plain "print");
          mark_done (Scenario.plain "check")]
    /\ length (results_of steps) = 2.
Proof.
  destruct (executeAllTasks Scenario.passing_env
              (Scenario.spec_of 2 [mark_done (Scenario.plain "parse");
                                   Scenario.plain "print"; Scenario.plain "check"])
              "feat" "/repo" Scenario.start) as [res w'] eqn:E.
  assert (Hr : exists rs,
             res = Ok ([mark_done (Scenario.plain "parse");
                        mark_done (Scenario.plain "print");
                        mark_done (Scenario.plain "check")], rs)
             /\ length rs = 2).
  { vm_compute in E. inversion E. eexists. split; reflexivity. }
  destruct Hr as [rs [-> Hlen]].
  destruct (done_flag_discipline Scenario.passing_env _ "feat" "/repo"
              Scenario.start _ _ _ E)
    as [steps [H0 [H1 [H2 [H3 _]]]]].
  exists steps, w'. split; [exact H0|]. split; [exact H1|]. split; [exact H2|].
  rewrite H3. exact Hlen.
Defined.

(** C9. The lesson pipeline never runs. [logLessons] is reached through
    the import of src/lessonsLogger.ts only, and that module does not load:
    the import rejects, the rejection is caught and printed, and
    [executeAllTasks] returns in the world its loop left, whatever telemetry
    records the loop collected. In Scenario E (three tasks that succeed at
    the first attempt) the three results are successes, and no section is
    appended to any file: nothing is written and the language model is not
    asked for a lesson. *)
Theorem lessons_are_never_logged :
  (forall env spec specName mainRepoRoot w,
      exists tasks' rs ds w',
        executeAllTasks_loop env spec specName (tasks spec) w
          = (Ok (tasks', rs, ds), w')
        /\ executeAllTasks env spec specName mainRepoRoot w = (Ok (tasks', rs), w'))
  /\ (exists rs ds w',
        executeAllTasks_loop Scenario.passing_env (Scenario.three_tasks 3) "feat"
          (tasks (Scenario.three_tasks 3)) Scenario.start
          = (Ok (map mark_done (tasks (Scenario.three_tasks 3)), rs, ds), w')
        /\ executeAllTasks Scenario.passing_env (Scenario.three_tasks 3) "feat" "/repo"
             Scenario.start
           = (Ok (map mark_done (tasks (Scenario.three_tasks 3)), rs), w')
        /\ map success rs = [true; true; true]
        /\ map attempts rs = [1; 1; 1]
        /\ map d_taskName ds = ["parse"; "print"; "check"]
        /\ files w' = []
        /\ filter is_write (trace w') = []
        /\ filter is_language_model (trace w') = []).
Proof.
  split.
  - intros env spec specName mainRepoRoot w.
    destruct (loop_returns env spec specName (tasks spec) w)
      as [tasks' [rs [ds [w' Hl]]]].
    exists tasks', rs, ds, w'. split; [exact Hl|].
    exact (executeAllTasks_after_loop env spec specName mainRepoRoot w _ _ _ _ Hl).
  - eexists. eexists. eexists.
    split; [vm_compute; reflexivity|].
    split; [vm_compute; reflexivity|].
    repeat split.
Qed.

(* ================================================================== *)
(** ** The retry loop under a configuration error *)
(* ================================================================== *)

Section ConfigurationError.

Variable env : Env.
Variable spec : Spec.
Variable task : Task.
Variable ev : TaskEvaluation.
Variable prompt : string.

Hypothesis Hev : evaluation task = Some ev.
Hypothesis Hty : type ev = "test".
Hypothesis Hcmd : Js.truthy (test_command (aider_config spec)) = false.
Hypothesis Hagent : agent_always_exits_zero env.

(** One iteration: the agent is launched once, the evaluation fails with the
    configuration error, and nothing ends the loop. *)
Lemma attempt_config_error (w : World) (f : Frame) :
  exists out,
    try_catch (attempt_try env spec task prompt) (attempt_catch env) (w, f)
      = (Ok tt,
         (advance [EvSpawn ("aider" :: aider_args spec prompt)] w,
          set_lastError test_command_missing
            (set_success false (set_lastOutput out f)))).
Proof.
  destruct (Hagent (tick w) (aider_args spec prompt))
    as [p [out [err [Hsp [Hout [Herr Hex]]]]]].
  exists out.
  unfold try_catch, attempt_try, bind, liftW, spawn, stdout_text, stderr_text,
    exited, of_result, modifyF.
  cbn [fst snd]. rewrite Hsp, Hout, Herr, Hex. cbn [Z.eqb negb fst snd].
  rewrite Hev.
  rewrite (evaluateTask_test_unconfigured env spec task ev out _ Hev Hty Hcmd).
  reflexivity.
Qed.

Lemma retry_loop_config_error (maxRetries fuel : nat) :
  forall w f,
    f_success f = false ->
    f_attempts f + fuel = maxRetries ->
    exists w' f',
      retry_loop env spec task prompt maxRetries fuel (w, f) = (Ok tt, (w', f'))
      /\ f_success f' = false
      /\ f_attempts f' = maxRetries
      /\ attempts (result f')
           = match fuel with O => attempts (result f) | S _ => maxRetries end
      /\ lastError f'
           = match fuel with O => lastError f | S _ => test_command_missing end
      /\ output (result f') = output (result f)
      /\ error (result f') = error (result f)
      /\ agent_invocations w' = agent_invocations w + fuel
      /\ cwd w' = cwd w.
Proof.
  induction fuel as [|fuel IH]; intros w f Hs Ha.
  - exists w, f. simpl. unfold bind, getF. cbn [fst snd]. rewrite Hs.
    replace (f_attempts f <? maxRetries)%nat with false
      by (symmetry; apply Nat.ltb_ge; lia).
    repeat split; try reflexivity; lia.
  - simpl. unfold bind at 1. unfold getF at 1. cbn [fst snd]. rewrite Hs.
    replace (f_attempts f <? maxRetries)%nat with true
      by (symmetry; apply Nat.ltb_lt; lia).
    cbn [negb andb]. unfold bind at 1. unfold modifyF at 1. cbn [fst snd].
    unfold bind at 1.
    destruct (attempt_config_error w (count_attempt f)) as [out' Hstep'].
    rewrite Hstep'.
    destruct (IH (advance [EvSpawn ("aider" :: aider_args spec prompt)] w)
                (set_lastError test_command_missing
                   (set_success false (set_lastOutput out' (count_attempt f)))))
      as [w' [f' [Hloop [H1 [H2 [H3 [H4 [H5 [H6 [H7 H8]]]]]]]]]].
    { reflexivity. }
    { simpl. lia. }
    exists w', f'. split; [exact Hloop|].
    rewrite agent_invocations_spawn_agent in H7.
    repeat split; try assumption.
    + rewrite H3. destruct fuel; simpl in *; lia.
    + rewrite H4. destruct fuel; reflexivity.
    + lia.
Qed.

End ConfigurationError.

(** C3, as the code has it. A configuration error is an evaluation failure
    like any other: it becomes the last error and the loop goes on. With an
    agent that exits zero every time, a Test evaluation and no test command,
    [executeTask] makes all its [retries] attempts, launches the agent that
    many times, and fails with the configuration error as last error. *)
Theorem configuration_error_uses_every_retry :
  forall env spec task ev specName w path w1,
    evaluation task = Some ev ->
    type ev = "test" ->
    Js.truthy (test_command (aider_config spec)) = false ->
    agent_always_exits_zero env ->
    createBranch env specName w = (Ok path, w1) ->
    fst (existsSync env (env_join env [cwd w1; path]) w1) = Ok true ->
    (forall t p, env_chdir env t p = None) ->
    0 < retries (aider_config spec) ->
    exists r w',
      executeTask env spec task specName w = (Ok r, w')
      /\ success r = false
      /\ attempts r = retries (aider_config spec)
      /\ error r = Some ("Task failed after "
                         ++ Js.string_of_nat (retries (aider_config spec))
                         ++ " attempts. Last error: " ++ test_command_missing)
      /\ agent_invocations w' = agent_invocations w + retries (aider_config spec).
Proof.
  intros env spec task ev specName w path w1 Hev Hty Hcmd Hagent Hcb Hex Hchdir Hpos.
  pose proof (stable_createBranch env specName w) as Hvc.
  rewrite Hcb in Hvc. cbn [snd] in Hvc.
  apply (agent_invocations_extends version_control_only) in Hvc;
    [|intros e He; apply He].
  pose proof (existsSync_state env (env_join env [cwd w1; path]) w1) as Hst.
  destruct (existsSync env (env_join env [cwd w1; path]) w1) as [present w2] eqn:Eex.
  cbn [fst snd] in Hex, Hst. subst present w2.
  set (abs := env_join env [cwd w1; path]) in *.
  set (w3 := set_cwd abs (advance [EvChdir abs] (advance [] w1))).
  destruct (retry_loop_config_error env spec task ev (prepareTaskPrompt spec task)
              Hev Hty Hcmd Hagent
              (retries (aider_config spec)) (retries (aider_config spec))
              w3 initial_frame eq_refl eq_refl)
    as [w4 [f4 [Hloop [H1 [H2 [H3 [H4 [H5 [H6 [H7 H8]]]]]]]]]].
  unfold executeTask, try_catch, executeTask_try, bind, liftW, process_cwd,
    process_chdir.
  cbn [fst snd]. rewrite Hcb. cbn [fst snd]. fold abs. rewrite Eex.
  cbn [negb fst snd]. rewrite Hchdir. cbn [advance tick]. fold w3.
  rewrite Hloop. cbn [fst snd]. rewrite Hchdir.
  unfold getF, modifyF, ret. cbn [fst snd].
  eexists. eexists. split; [reflexivity|].
  unfold final_result. cbn [success attempts error]. rewrite H1, H2, H3, H4.
  destruct (retries (aider_config spec)) as [|n] eqn:Hn; [lia|].
  repeat split.
  unfold agent_invocations in *. cbn [trace set_cwd advance] in *.
  rewrite filter_app. cbn [filter is_agent_spawn]. rewrite app_nil_r.
  rewrite H7. subst w3. cbn [trace set_cwd advance].
  rewrite !filter_app. cbn [filter is_agent_spawn]. rewrite !app_nil_r.
  rewrite Hvc. reflexivity.
Qed.

Lemma configuration_error_uses_every_retry_witness :
  exists r w',
    executeTask Scenario.passing_env (Scenario.spec_of 3 [Scenario.tested "parse"])
      (Scenario.tested "parse") "feat" Scenario.start = (Ok r, w')
    /\ success r = false
    /\ attempts r = 3
    /\ error r = Some ("Task failed after 3 attempts. Last error: "
                       ++ test_command_missing)
    /\ agent_invocations w' = agent_invocations Scenario.start + 3.
Proof.
  apply (configuration_error_uses_every_retry
           Scenario.passing_env (Scenario.spec_of 3 [Scenario.tested "parse"])
           (Scenario.tested "parse")
           {| type := "test"; command := None; check_prompt := None |}
           "feat" Scenario.start "../worktrees/feat"
           (snd (createBranch Scenario.passing_env "feat" Scenario.start))).
  - reflexivity.
  - reflexivity.
  - reflexivity.
  - intros t args. eexists. eexists. eexists. repeat split; reflexivity.
  - vm_compute. reflexivity.
  - vm_compute. reflexivity.
  - intros t p. reflexivity.
  - simpl. lia.
Defined.

(** C3, as stated, fails: with [retries = 3] the first attempt already ends
    in the configuration error (it is the last error of the run with
    [retries = 1]), and the engine still makes the second and the third
    attempt, launching the agent three times. *)
Lemma configuration_error_is_retried :
  (exists r1,
      fst (executeTask Scenario.passing_env (Scenario.spec_of 1 [Scenario.tested "parse"])
             (Scenario.tested "parse") "feat" Scenario.start) = Ok r1
      /\ attempts r1 = 1
      /\ error r1 = Some ("Task failed after 1 attempts. Last error: "
                          ++ test_command_missing))
  /\ (exists r,
        fst (executeTask Scenario.passing_env
               (Scenario.spec_of 3 [Scenario.tested "parse"])
               (Scenario.tested "parse") "feat" Scenario.start) = Ok r
        /\ attempts r = 3
        /\ error r = Some ("Task failed after 3 attempts. Last error: "
                           ++ test_command_missing)
        /\ ~ attempts r <= 1)
  /\ agent_invocations
       (snd (executeTask Scenario.passing_env
               (Scenario.spec_of 3 [Scenario.tested "parse"])
               (Scenario.tested "parse") "feat" Scenario.start)) = 3.
Proof.
  vm_compute. split; [|split].
  - eexists. repeat split.
  - eexists. split; [reflexivity|]. split; [reflexivity|]. split; [reflexivity|].
    intros H. inversion H as [|n H1]. inversion H1.
  - reflexivity.
Qed.

(* ================================================================== *)
(** * Further properties of the code *)
(* ================================================================== *)

(* ================================================================== *)
(** ** The result of executeTask *)
(* ================================================================== *)

Lemma retry_loop_frame_ok env spec task prompt maxRetries fuel :
  forall s,
    frame_ok maxRetries (snd s) ->
    frame_ok maxRetries (snd (snd (retry_loop env spec task prompt maxRetries fuel s))).
Proof.
  induction fuel as [|fuel IH]; intros s Hok; simpl;
    unfold bind at 1; unfold getF at 1; cbn [fst snd].
  - destruct (negb (f_success (snd s)) && (f_attempts (snd s) <? maxRetries)%nat);
      exact Hok.
  - destruct (negb (f_success (snd s)) && (f_attempts (snd s) <? maxRetries)%nat)
      eqn:Hcond; [|exact Hok].
    apply andb_true_iff in Hcond. destruct Hcond as [_ Hlt].
    apply Nat.ltb_lt in Hlt.
    unfold bind at 1. unfold modifyF at 1. cbn [fst snd].
    unfold bind at 1.
    pose proof (attempt_keeps_counters env spec task prompt
                  (fst s, count_attempt (snd s))) as Hk.
    destruct (try_catch (attempt_try env spec task prompt) (attempt_catch env)
                (fst s, count_attempt (snd s))) as [[[]|e] s1];
      unfold frame_kept in Hk; cbn [fst snd] in Hk; injection Hk as Ha Hr.
    + apply IH. destruct Hok as [H1 [H2 [H3 [H4 H5]]]].
      unfold frame_ok. rewrite Ha, Hr. cbn. repeat split; try assumption; lia.
    + cbn [snd]. destruct Hok as [H1 [H2 [H3 [H4 H5]]]].
      unfold frame_ok. rewrite Ha, Hr. cbn. repeat split; try assumption; lia.
Qed.

Lemma frame_ok_initial n : frame_ok n initial_frame.
Proof. unfold frame_ok. cbn. repeat split; try lia; discriminate. Qed.

(** The outer [try] block ends with a frame the loop left, either thrown out
    of or returned from with the final result. *)
Lemma executeTask_try_frame env spec task specName (w : World) res s :
  executeTask_try env spec task specName (w, initial_frame) = (res, s) ->
  exists f,
    frame_ok (retries (aider_config spec)) f
    /\ ((exists e, res = Throw e /\ snd s = f)
        \/ res = Ok (final_result f)).
Proof.
  unfold executeTask_try, bind, liftW, process_cwd.
  cbn [fst snd].
  destruct (createBranch env specName w) as [[path|e] w1];
    [|intros H; inversion H; subst; exists initial_frame;
      split; [apply frame_ok_initial | left; eexists; split; reflexivity]].
  cbn [fst snd].
  destruct (existsSync env (env_join env [cwd w1; path]) w1) as [[present|e] w2];
    [|intros H; inversion H; subst; exists initial_frame;
      split; [apply frame_ok_initial | left; eexists; split; reflexivity]].
  destruct present; cbn [negb fst snd];
    [|intros H; inversion H; subst; exists initial_frame;
      split; [apply frame_ok_initial | left; eexists; split; reflexivity]].
  destruct (process_chdir env (env_join env [cwd w1; path]) w2) as [[[]|e] w3];
    [|intros H; inversion H; subst; exists initial_frame;
      split; [apply frame_ok_initial | left; eexists; split; reflexivity]].
  cbn [fst snd].
  pose proof (retry_loop_frame_ok env spec task (prepareTaskPrompt spec task)
                (retries (aider_config spec)) (retries (aider_config spec))
                (w3, initial_frame) (frame_ok_initial _)) as Hok.
  destruct (retry_loop env spec task (prepareTaskPrompt spec task)
              (retries (aider_config spec)) (retries (aider_config spec))
              (w3, initial_frame)) as [[[]|e] [w4 f4]]; cbn [fst snd] in *;
    [|intros H; inversion H; subst; exists f4;
      split; [exact Hok | left; eexists; split; reflexivity]].
  destruct (process_chdir env (cwd w1) w4) as [[[]|e] w5];
    [|intros H; inversion H; subst; exists f4;
      split; [exact Hok | left; eexists; split; reflexivity]].
  unfold getF, modifyF, ret. cbn [fst snd].
  intros H; inversion H; subst. exists f4. split; [exact Hok | right; reflexivity].
Qed.

(** X1. The result of [executeTask] keeps the shape of a [TaskResult]:
    [attempts] never exceeds [retries]; a success has no [error] and took at
    least one attempt; a failure always carries an [error]. *)
Theorem task_result_shape :
  forall env spec task specName w r w',
    executeTask env spec task specName w = (Ok r, w') ->
    attempts r <= retries (aider_config spec)
    /\ (success r = true -> error r = None /\ 1 <= attempts r)
    /\ (success r = false -> exists m, error r = Some m).
Proof.
  intros env spec task specName w r w' H.
  unfold executeTask, try_catch in H.
  pose proof (throws_executeTask_try env spec task specName (w, initial_frame)) as Ht.
  destruct (executeTask_try env spec task specName (w, initial_frame))
    as [[r0|e] s] eqn:E.
  - inversion H; subst.
    destruct (executeTask_try_frame env spec task specName w _ _ E)
      as [f [[H1 [H2 [H3 [H4 H5]]]] [[e [He _]] | Hr]]]; [discriminate|].
    inversion Hr; subst. unfold final_result. cbn.
    split; [lia|]. split.
    + intros Hs. rewrite Hs. cbn. split; [exact H3 | specialize (H5 Hs); lia].
    + intros Hs. rewrite Hs. cbn. eexists. reflexivity.
  - destruct (Ht e eq_refl) as [m ->].
    destruct (executeTask_try_frame env spec task specName w _ _ E)
      as [f [[H1 [H2 [H3 [H4 H5]]]] [[e [_ Hf]] | Hr]]]; [|discriminate].
    destruct (executeTask_catch_error env m s) as [msg Hc].
    rewrite Hc in H. inversion H; subst. cbn.
    split; [lia|]. split.
    + intros Hs. congruence.
    + intros _. eexists. reflexivity.
Qed.

Lemma task_result_shape_witness :
  exists r,
    fst (executeTask Scenario.passing_env (Scenario.one_task 3)
           (Scenario.plain "parse") "feat" Scenario.start) = Ok r
    /\ attempts r <= 3.
Proof.
  destruct (executeTask Scenario.passing_env (Scenario.one_task 3)
              (Scenario.plain "parse") "feat" Scenario.start) as [res w'] eqn:E.
  assert (Hr : exists r, res = Ok r).
  { vm_compute in E. inversion E. eexists. reflexivity. }
  destruct Hr as [r ->]. exists r. split; [reflexivity|].
  exact (proj1 (task_result_shape _ _ _ _ _ _ _ E)).
Defined.

(** Once [success] is set the loop is over. *)
Lemma retry_loop_done env spec task prompt maxRetries fuel s :
  f_success (snd s) = true ->
  retry_loop env spec task prompt maxRetries fuel s = (Ok tt, s).
Proof.
  intros Hs. destruct fuel; simpl; unfold bind, getF; cbn [fst snd];
    rewrite Hs; reflexivity.
Qed.

(** X2. A task without evaluation succeeds on the first attempt when the
    agent exits zero: one launch, [attempts = 1], no error, the agent's
    stdout as output, and the process back in its directory. *)
Theorem unevaluated_task_succeeds_on_first_zero_exit :
  forall env spec task specName w path w1 p out err,
    evaluation task = None ->
    createBranch env specName w = (Ok path, w1) ->
    fst (existsSync env (env_join env [cwd w1; path]) w1) = Ok true ->
    (forall t d, env_chdir env t d = None) ->
    (forall t, env_spawn env t
                 ("aider" :: aider_args spec (prepareTaskPrompt spec task)) = Ok p) ->
    proc_stdout p = Ok out ->
    proc_stderr p = Ok err ->
    proc_exited p = Ok 0%Z ->
    0 < retries (aider_config spec) ->
    exists w',
      executeTask env spec task specName w
        = (Ok {| success := true; attempts := 1; error := None; output := Some out |},
           w')
      /\ cwd w' = cwd w
      /\ agent_invocations w' = S (agent_invocations w).
Proof.
  intros env spec task specName w path w1 p out err
         Hev Hcb Hex Hchdir Hsp Hout Herr Hexit Hpos.
  pose proof (stable_createBranch env specName w) as Hvc.
  pose proof (cwd_createBranch env specName w) as Hcwd.
  rewrite Hcb in Hvc, Hcwd. cbn [snd] in Hvc, Hcwd. unfold same_cwd in Hcwd.
  apply (agent_invocations_extends version_control_only) in Hvc;
    [|intros e He; apply He].
  pose proof (existsSync_state env (env_join env [cwd w1; path]) w1) as Hst.
  destruct (existsSync env (env_join env [cwd w1; path]) w1) as [present w2] eqn:Eex.
  cbn [fst snd] in Hex, Hst. subst present w2.
  destruct (retries (aider_config spec)) as [|n] eqn:Hn; [lia|].
  unfold executeTask, try_catch, executeTask_try, bind, liftW, process_cwd,
    process_chdir.
  cbn [fst snd]. rewrite Hcb. cbn [fst snd]. rewrite Eex.
  cbn [negb fst snd]. rewrite Hchdir. cbn [advance tick]. rewrite Hn.
  cbn [retry_loop]. unfold bind at 1. unfold getF at 1.
  cbn [fst snd initial_frame f_success f_attempts negb andb Nat.ltb Nat.leb].
  unfold bind at 1. unfold modifyF at 1. cbn [fst snd].
  unfold bind at 1.
  unfold try_catch at 1, attempt_try, bind, liftW, spawn, stdout_text, stderr_text,
    exited, of_result, modifyF.
  cbn [fst snd set_cwd advance tick]. rewrite Hsp, Hout, Herr, Hexit.
  cbn [Z.eqb negb fst snd]. rewrite Hev. cbn [fst snd].
  rewrite retry_loop_done by reflexivity.
  cbn [fst snd]. rewrite Hchdir.
  unfold getF, ret. cbn [fst snd].
  eexists. split; [reflexivity|]. split; [cbn; exact Hcwd|].
  rewrite <- Hvc. unfold agent_invocations. cbn [trace set_cwd advance].
  rewrite !filter_app, !length_app. cbn. lia.
Qed.

Lemma unevaluated_task_succeeds_on_first_zero_exit_witness :
  exists w',
    executeTask Scenario.passing_env (Scenario.one_task 3) (Scenario.plain "parse")
      "feat" Scenario.start
      = (Ok {| success := true; attempts := 1; error := None; output := Some "ok" |},
         w')
    /\ cwd w' = cwd Scenario.start
    /\ agent_invocations w' = S (agent_invocations Scenario.start).
Proof.
  apply (unevaluated_task_succeeds_on_first_zero_exit
           Scenario.passing_env (Scenario.one_task 3) (Scenario.plain "parse")
           "feat" Scenario.start "../worktrees/feat"
           (snd (createBranch Scenario.passing_env "feat" Scenario.start))
           (Scenario.clean_exit 0 "ok" EmptyString) "ok" EmptyString).
  - reflexivity.
  - vm_compute. reflexivity.
  - vm_compute. reflexivity.
  - intros t d. reflexivity.
  - intros t. reflexivity.
  - reflexivity.
  - reflexivity.
  - reflexivity.
  - simpl. lia.
Defined.

(* ================================================================== *)
(** ** queryLanguageModel *)
(* ================================================================== *)

Lemma queryLanguageModel_state env prompt w :
  snd (queryLanguageModel env prompt w) = advance [EvLanguageModel prompt] w.
Proof.
  unfold queryLanguageModel.
  destruct (negb (Js.truthy (env_apiKey env))); [reflexivity|].
  destruct (env_completion env (tick w) prompt) as [c|st m|e].
  - destruct (Js.or_else c EmptyString); reflexivity.
  - destruct (st =? 401)%Z; [reflexivity|].
    destruct (st =? 429)%Z; [reflexivity|].
    destruct (st =? 500)%Z; reflexivity.
  - reflexivity.
Qed.

(** X3. [queryLanguageModel] never returns an empty reply and throws [Error]
    objects only, whatever the API does; without an API key it throws before
    the API can answer. *)
Theorem language_model_reply_is_never_empty :
  forall env prompt w,
    match fst (queryLanguageModel env prompt w) with
    | Ok reply => reply <> EmptyString
    | Throw e => is_error e
    end
    /\ (Js.truthy (env_apiKey env) = false ->
        fst (queryLanguageModel env prompt w)
          = Throw (ErrorObj "LANGUAGE_MODEL_API_KEY environment variable not set")).
Proof.
  intros env prompt w. unfold queryLanguageModel. split.
  - destruct (negb (Js.truthy (env_apiKey env))); [eexists; reflexivity|].
    destruct (env_completion env (tick w) prompt) as [c|st m|e].
    + destruct (Js.or_else c EmptyString) eqn:E; cbn; discriminate.
    + destruct (st =? 401)%Z; [eexists; reflexivity|].
      destruct (st =? 429)%Z; [eexists; reflexivity|].
      destruct (st =? 500)%Z; eexists; reflexivity.
    + eexists. reflexivity.
  - intros H. rewrite H. reflexivity.
Qed.

(* ================================================================== *)
(** ** evaluateWithLanguageModel *)
(* ================================================================== *)

Lemma evaluateWithLanguageModel_state env cp out w :
  snd (evaluateWithLanguageModel env cp out w)
    = advance [EvLanguageModel (language_model_prompt cp out)] w.
Proof.
  unfold evaluateWithLanguageModel, try_catch, bind, ret.
  pose proof (queryLanguageModel_state env (language_model_prompt cp out) w) as H.
  destruct (queryLanguageModel env (language_model_prompt cp out) w) as [[r|e] w1];
    exact H.
Qed.

(** X4. A failure of the language-model call is never a success of the
    evaluation and never an exception: [evaluateWithLanguageModel] returns a
    failure whose message carries the message of the API error. *)
Theorem judgment_api_failure_is_a_failed_evaluation :
  forall env checkPrompt commandOutput w e,
    fst (queryLanguageModel env (language_model_prompt checkPrompt commandOutput) w)
      = Throw e ->
    fst (evaluateWithLanguageModel env checkPrompt commandOutput w)
      = Ok {| e_success := false;
              e_error := Some ("Language model evaluation skipped due to API error: "
                               ++ message_text e
                               ++ ". Please review the task output manually.") |}.
Proof.
  intros env cp out w e H.
  unfold evaluateWithLanguageModel, try_catch, bind, ret.
  destruct (queryLanguageModel env (language_model_prompt cp out) w) as [[r|e0] w1];
    cbn [fst] in H; [discriminate|].
  inversion H; subst. reflexivity.
Qed.

Lemma judgment_api_failure_is_a_failed_evaluation_witness :
  fst (evaluateWithLanguageModel Cases.no_key_env "Is the build clean?" "0 errors"
         Scenario.start)
    = Ok {| e_success := false;
            e_error := Some ("Language model evaluation skipped due to API error: "
                             ++ "LANGUAGE_MODEL_API_KEY environment variable not set"
                             ++ ". Please review the task output manually.") |}.
Proof.
  apply (judgment_api_failure_is_a_failed_evaluation Cases.no_key_env
           "Is the build clean?" "0 errors" Scenario.start
           (ErrorObj "LANGUAGE_MODEL_API_KEY environment variable not set")).
  reflexivity.
Defined.

(* ================================================================== *)
(** ** evaluateTask *)
(* ================================================================== *)

(** X5. [evaluateTask] turns every exception into a failed evaluation: it
    always returns, and when the evaluation command cannot be launched the
    error is [Error in evaluation:] followed by the message of the thrown
    value. *)
Theorem evaluation_never_throws :
  forall env spec task aiderOutput w,
    (exists ev w', evaluateTask env spec task aiderOutput w = (Ok ev, w'))
    /\ (forall ev e,
          evaluation task = Some ev ->
          (type ev = "test" /\ Js.truthy (test_command (aider_config spec)) = true
           /\ env_spawn env (tick w)
                (Js.split space (Js.or_else (test_command (aider_config spec))
                                            EmptyString)) = Throw e)
          \/ (type ev = "command" /\ Js.truthy (command ev) = true
              /\ env_spawn env (tick w)
                   (Js.split space (Js.or_else (command ev) EmptyString)) = Throw e) ->
          fst (evaluateTask env spec task aiderOutput w)
            = Ok {| e_success := false;
                    e_error := Some ("Error in evaluation: " ++ message_text e) |}).
Proof.
  intros env spec task aiderOutput w. split.
  - unfold evaluateTask. destruct (evaluation task) as [ev|].
    + unfold try_catch, ret.
      match goal with |- context [match ?c w with _ => _ end] =>
        destruct (c w) as [[r|e] w1] end; eexists; eexists; reflexivity.
    + eexists. eexists. reflexivity.
  - intros ev e Hev [[Hty [Hcmd Hsp]] | [Hty [Hcmd Hsp]]];
      unfold evaluateTask; rewrite Hev, Hty.
    + simpl (String.eqb "test" "test"). cbv iota. rewrite Hcmd. cbn [negb].
      unfold try_catch, bind, spawn. rewrite Hsp. reflexivity.
    + simpl (String.eqb "command" "test"). simpl (String.eqb "command" "command").
      cbv iota. rewrite Hcmd. cbn [negb].
      unfold try_catch, bind, spawn. rewrite Hsp. reflexivity.
Qed.

(** X6. What an evaluation does to the world: nothing, or the launch of one
    process, or the launch of one process followed by one call of the
    language model; the last only for a Command evaluation with a check
    prompt, and the prompt sent is built from the check prompt. *)
Theorem evaluation_launches_at_most_one_process :
  forall env spec task aiderOutput w,
    let w' := snd (evaluateTask env spec task aiderOutput w) in
    trace w' = trace w
    \/ (exists argv, trace w' = (trace w ++ [EvSpawn argv])%list)
    \/ (exists ev argv cp stdout,
          evaluation task = Some ev
          /\ type ev = "command"
          /\ check_prompt ev = Some cp
          /\ trace w'
             = (trace w ++ [EvSpawn argv;
                            EvLanguageModel (language_model_prompt cp stdout)])%list).
Proof.
  intros env spec task aiderOutput w. cbv zeta.
  unfold evaluateTask. destruct (evaluation task) as [ev|]; [|left; reflexivity].
  unfold try_catch.
  destruct (String.eqb (type ev) "test") eqn:Htest.
  - destruct (negb (Js.truthy (test_command (aider_config spec))));
      [left; reflexivity|].
    unfold bind, spawn, exited, stderr_text, of_result, ret.
    destruct (env_spawn env (tick w) _) as [p|e];
      [|right; left; eexists; reflexivity].
    destruct (proc_exited p) as [code|e]; [|right; left; eexists; reflexivity].
    destruct (proc_stderr p) as [err|e]; [|right; left; eexists; reflexivity].
    destruct (negb (code =? 0)%Z); right; left; eexists; reflexivity.
  - destruct (String.eqb (type ev) "command") eqn:Hcommand; [|left; reflexivity].
    apply String.eqb_eq in Hcommand.
    destruct (negb (Js.truthy (command ev))); [left; reflexivity|].
    unfold bind, spawn, stdout_text, exited, stderr_text, of_result, ret.
    destruct (env_spawn env (tick w) _) as [p|e];
      [|right; left; eexists; reflexivity].
    destruct (proc_stdout p) as [out|e]; [|right; left; eexists; reflexivity].
    destruct (proc_stderr p) as [err|e]; [|right; left; eexists; reflexivity].
    destruct (proc_exited p) as [code|e]; [|right; left; eexists; reflexivity].
    destruct (negb (code =? 0)%Z); [right; left; eexists; reflexivity|].
    destruct (Js.truthy (check_prompt ev)) eqn:Hcp;
      [|right; left; eexists; reflexivity].
    right. right.
    pose proof (evaluateWithLanguageModel_state env
                  (Js.or_else (check_prompt ev) EmptyString) out
                  (advance [EvSpawn (Js.split space (Js.or_else (command ev) EmptyString))] w))
      as Hst.
    destruct (evaluateWithLanguageModel env (Js.or_else (check_prompt ev) EmptyString)
                out (advance [EvSpawn (Js.split space
                                         (Js.or_else (command ev) EmptyString))] w))
      as [[r|e] w1]; cbn [snd] in *; subst w1;
      (exists ev; eexists; exists (Js.or_else (check_prompt ev) EmptyString), out;
       split; [reflexivity|]; split; [exact Hcommand|]; split;
       [destruct (check_prompt ev) as [[|c s]|]; try discriminate; reflexivity|];
       cbn [trace advance]; rewrite <- app_assoc; reflexivity).
Qed.

(** X7. A Test evaluation with a test command is decided by the exit code of
    that command alone: zero is a success, anything else a failure whose
    message contains the exit code and the captured stderr. The command line
    is the test command split at spaces, and the language model is not
    called. *)
Theorem test_evaluation_follows_exit_code :
  forall env spec task ev aiderOutput w p err code,
    evaluation task = Some ev ->
    type ev = "test" ->
    Js.truthy (test_command (aider_config spec)) = true ->
    env_spawn env (tick w)
      (Js.split space (Js.or_else (test_command (aider_config spec)) EmptyString))
      = Ok p ->
    proc_exited p = Ok code ->
    proc_stderr p = Ok err ->
    exists res,
      evaluateTask env spec task aiderOutput w
        = (Ok res,
           advance [EvSpawn (Js.split space
                               (Js.or_else (test_command (aider_config spec))
                                           EmptyString))] w)
      /\ e_success res = (code =? 0)%Z
      /\ (code = 0%Z -> e_error res = None)
      /\ (code <> 0%Z ->
          exists msg, e_error res = Some msg
                      /\ Js.includes msg (Js.string_of_Z code) = true
                      /\ Js.includes msg err = true).
Proof.
  intros env spec task ev aiderOutput w p err code Hev Hty Hcmd Hsp Hex Herr.
  unfold evaluateTask. rewrite Hev, Hty. simpl (String.eqb "test" "test"). cbv iota.
  rewrite Hcmd. cbn [negb].
  unfold try_catch, bind, spawn, exited, stderr_text, of_result, ret.
  rewrite Hsp, Hex, Herr.
  destruct (code =? 0)%Z eqn:Hc; cbn [negb]; eexists; (split; [reflexivity|]);
    cbn [e_success e_error].
  - split; [reflexivity|]. split; [reflexivity|].
    intros Hne. apply Z.eqb_eq in Hc. contradiction.
  - split; [reflexivity|]. split.
    + intros H0. apply Z.eqb_neq in Hc. contradiction.
    + intros _. eexists. split; [reflexivity|]. split.
      * apply includes_middle.
      * apply includes_append_left, includes_append_left, includes_end.
Qed.

Lemma test_evaluation_follows_exit_code_witness :
  exists res,
    fst (evaluateTask Scenario.lint_fails_env Cases.tested_spec
           (Scenario.tested "parse") "ok" Scenario.start) = Ok res
    /\ e_success res = false
    /\ exists msg, e_error res = Some msg
                   /\ Js.includes msg "2" = true
                   /\ Js.includes msg "lint failed" = true.
Proof.
  destruct (test_evaluation_follows_exit_code Scenario.lint_fails_env
              Cases.tested_spec (Scenario.tested "parse")
              {| type := "test"; command := None; check_prompt := None |}
              "ok" Scenario.start
              (Scenario.clean_exit 2 "checked 3 files" "lint failed")
              "lint failed" 2%Z
              eq_refl eq_refl eq_refl eq_refl eq_refl eq_refl)
    as [res [Hrun [Hs [_ Hmsg]]]].
  exists res. rewrite Hrun. split; [reflexivity|]. split; [exact Hs|].
  apply Hmsg. discriminate.
Defined.

(** X8. A Command evaluation whose command exits zero: without a check prompt
    it is a success and the language model is not called; with a check
    prompt the verdict is the judgment of the language model on the stdout
    of the command (not of the agent), so a reply [yes] is a success. *)
Theorem command_zero_exit_defers_to_judgment :
  forall env spec task ev aiderOutput w p out err,
    evaluation task = Some ev ->
    type ev = "command" ->
    Js.truthy (command ev) = true ->
    env_spawn env (tick w) (Js.split space (Js.or_else (command ev) EmptyString)) = Ok p ->
    proc_stdout p = Ok out ->
    proc_stderr p = Ok err ->
    proc_exited p = Ok 0%Z ->
    let launched :=
      advance [EvSpawn (Js.split space (Js.or_else (command ev) EmptyString))] w in
    (Js.truthy (check_prompt ev) = false ->
       evaluateTask env spec task aiderOutput w
         = (Ok {| e_success := true; e_error := None |}, launched))
    /\ (forall cp,
          check_prompt ev = Some cp -> Js.truthy (Some cp) = true ->
          evaluateTask env spec task aiderOutput w
            = evaluateWithLanguageModel env cp out launched)
    /\ (forall cp reply w',
          check_prompt ev = Some cp -> Js.truthy (Some cp) = true ->
          queryLanguageModel env (language_model_prompt cp out) launched
            = (Ok reply, w') ->
          evaluateTask env spec task aiderOutput w = (Ok (parse_response reply), w')).
Proof.
  intros env spec task ev aiderOutput w p out err Hev Hty Hcmd Hsp Hout Herr Hex launched.
  assert (Hrun : forall cp,
             check_prompt ev = Some cp -> Js.truthy (Some cp) = true ->
             evaluateTask env spec task aiderOutput w
               = evaluateWithLanguageModel env cp out launched).
  { intros cp Hcp Ht.
    unfold evaluateTask. rewrite Hev, Hty.
    simpl (String.eqb "command" "test"). simpl (String.eqb "command" "command").
    cbv iota. rewrite Hcmd. cbn [negb].
    unfold try_catch at 1. unfold bind, spawn, stdout_text, stderr_text, exited, of_result.
    rewrite Hsp, Hout, Herr, Hex. cbn [Z.eqb negb]. rewrite Hcp, Ht.
    fold launched.
    replace (Js.or_else (Some cp) EmptyString) with cp
      by (destruct cp; [discriminate | reflexivity]).
    unfold evaluateWithLanguageModel, try_catch, bind, ret.
    destruct (queryLanguageModel env (language_model_prompt cp out) launched)
      as [[r|e] w1]; reflexivity. }
  split; [|split].
  - intros Hcp.
    unfold evaluateTask. rewrite Hev, Hty.
    simpl (String.eqb "command" "test"). simpl (String.eqb "command" "command").
    cbv iota. rewrite Hcmd. cbn [negb].
    unfold try_catch, bind, spawn, stdout_text, stderr_text, exited, of_result.
    rewrite Hsp, Hout, Herr, Hex. cbn [Z.eqb negb]. rewrite Hcp. reflexivity.
  - exact Hrun.
  - intros cp reply w' Hcp Ht Hq. rewrite (Hrun cp Hcp Ht).
    unfold evaluateWithLanguageModel, try_catch, bind, ret. rewrite Hq. reflexivity.
Qed.

Lemma command_zero_exit_defers_to_judgment_witness :
  evaluateTask Scenario.passing_env (Scenario.one_task 3)
    (Scenario.checked "lint" "eslint ." (Some "Is it clean?")) "ok" Scenario.start
  = evaluateWithLanguageModel Scenario.passing_env "Is it clean?" EmptyString
      (advance [EvSpawn ["eslint"; "."]] Scenario.start).
Proof.
  apply (proj1 (proj2 (command_zero_exit_defers_to_judgment
           Scenario.passing_env (Scenario.one_task 3)
           (Scenario.checked "lint" "eslint ." (Some "Is it clean?"))
           {| type := "command"; command := Some "eslint .";
              check_prompt := Some "Is it clean?" |}
           "ok" Scenario.start
           (Scenario.clean_exit 0 EmptyString EmptyString) EmptyString EmptyString
           eq_refl eq_refl eq_refl eq_refl eq_refl eq_refl eq_refl))
         "Is it clean?"); reflexivity.
Defined.

(* ================================================================== *)
(** ** More on strings *)
(* ================================================================== *)

Lemma string_append_assoc (a b c : string) : (a ++ b) ++ c = a ++ b ++ c.
Proof. induction a as [|x a IH]; simpl; [reflexivity | rewrite IH; reflexivity]. Qed.

Lemma prefix_split (p s : string) :
  prefix p s = true -> exists rest, s = p ++ rest.
Proof.
  revert s. induction p as [|c p IH]; intros s H.
  - exists s. reflexivity.
  - destruct s as [|c' s]; [discriminate|]. simpl in H.
    destruct (ascii_dec c c') as [->|]; [|discriminate].
    destruct (IH s H) as [rest ->]. exists rest. reflexivity.
Qed.

Lemma includes_split (s sub : string) :
  Js.includes s sub = true -> exists before rest, s = before ++ sub ++ rest.
Proof.
  induction s as [|c s IH]; cbn [Js.includes]; intros H.
  - rewrite orb_false_r in H. destruct (prefix_split _ _ H) as [rest ->].
    exists EmptyString, rest. reflexivity.
  - apply orb_true_iff in H. destruct H as [H | H].
    + destruct (prefix_split _ _ H) as [rest ->].
      exists EmptyString, rest. reflexivity.
    + destruct (IH H) as [before [rest ->]].
      exists (String c before), rest. reflexivity.
Qed.

(** Whoever contains [a ++ b] contains [b]. *)
Lemma includes_tail_of_needle (s a b : string) :
  Js.includes s (a ++ b) = true -> Js.includes s b = true.
Proof.
  intros H. destruct (includes_split _ _ H) as [before [rest ->]].
  rewrite string_append_assoc, <- string_append_assoc.
  apply includes_middle.
Qed.

(* ================================================================== *)
(** ** detectVC and createBranch *)
(* ================================================================== *)

(** X13. [detectVC] never throws. When the [.jj] directory exists it answers
    [jj] without launching anything; otherwise it launches [jj status] once
    and answers [jj] exactly when that command exits zero, [git] in every
    other case, a failed launch included. *)
Theorem version_control_detection :
  forall env w,
    exists vcs w',
      detectVC env w = (Ok vcs, w')
      /\ (fst (existsSync env ".jj" w) = Ok true ->
          vcs = JJ /\ trace w' = trace w)
      /\ (fst (existsSync env ".jj" w) = Ok false ->
          trace w' = (trace w ++ [EvSpawn ["jj"; "status"]])%list
          /\ (vcs = JJ <->
              exists p, env_spawn env (S (tick w)) ["jj"; "status"] = Ok p
                        /\ proc_exited p = Ok 0%Z)).
Proof.
  intros env w. unfold detectVC, bind.
  pose proof (existsSync_state env ".jj" w) as Hst.
  destruct (existsSync env ".jj" w) as [[present|e] w0] eqn:Eex; cbn [fst snd] in *.
  2:{ exfalso. unfold existsSync in Eex.
      destruct (lookup_file ".jj" (files w)); discriminate. }
  subst w0. destruct present.
  - eexists. eexists. split; [reflexivity|]. split.
    + intros _. split; [reflexivity|]. cbn. apply app_nil_r.
    + discriminate.
  - unfold try_catch, bind, spawn, exited, stderr_text, of_result, ret.
    cbn [tick advance].
    destruct (env_spawn env (S (tick w)) ["jj"; "status"]) as [p|e].
    + destruct (proc_exited p) as [code|e] eqn:Hcode.
      * destruct (code =? 0)%Z eqn:Hz.
        -- eexists. eexists. split; [reflexivity|]. split; [discriminate|].
           intros _. split; [cbn; rewrite app_nil_r; reflexivity|].
           split; [|reflexivity]. intros _. exists p. split; [reflexivity|].
           apply Z.eqb_eq in Hz. subst. exact Hcode.
        -- assert (Hno : ~ (exists p0, Ok p = Ok p0 /\ proc_exited p0 = Ok 0%Z)).
           { intros [p0 [Hp H0]]. inversion Hp; subst. rewrite Hcode in H0.
             inversion H0; subst. discriminate. }
           destruct (proc_stderr p); eexists; eexists;
             (split; [reflexivity|]); (split; [discriminate|]);
             intros _; (split; [cbn; rewrite app_nil_r; reflexivity|]);
             (split; [discriminate | intros H; contradiction]).
      * eexists. eexists. split; [reflexivity|]. split; [discriminate|].
        intros _. split; [cbn; rewrite app_nil_r; reflexivity|].
        split; [discriminate|].
        intros [p0 [Hp H0]]. inversion Hp; subst. congruence.
    + eexists. eexists. split; [reflexivity|]. split; [discriminate|].
      intros _. split; [cbn; rewrite app_nil_r; reflexivity|].
      split; [discriminate|]. intros [p0 [Hp _]]. discriminate.
Qed.

Lemma createBranch_try_branch_step env vcs specName worktreePath w bp :
  env_spawn env (tick w) (branch_argv vcs specName) = Ok bp ->
  branch_step_passes bp ->
  createBranch_try env vcs specName worktreePath w =
  (worktreeProcess <- spawn env (worktree_argv vcs worktreePath specName) ;;
   worktreeExitCode <- exited worktreeProcess ;;
   (if negb (worktreeExitCode =? 0)%Z then
      stderr <- stderr_text worktreeProcess ;;
      throw (ErrorObj ("Failed to create worktree: " ++ stderr))
    else ret tt) ;;
   ret worktreePath)%js (advance [EvSpawn (branch_argv vcs specName)] w).
Proof.
  intros Hsp Hpass. unfold createBranch_try.
  unfold bind at 1. unfold spawn at 1. rewrite Hsp.
  unfold bind at 1. unfold exited at 1, of_result.
  destruct Hpass as [H0 | [code [err [Hc [Hnz [He Hinc]]]]]].
  - rewrite H0. unfold bind at 1. cbn [Z.eqb negb ret]. reflexivity.
  - rewrite Hc. apply Z.eqb_neq in Hnz. unfold bind at 1. rewrite Hnz.
    cbn [negb]. unfold bind at 1. unfold stderr_text, of_result. rewrite He.
    rewrite Hinc. cbn [negb ret]. reflexivity.
Qed.

Lemma createBranch_try_ok_branch env vcs specName worktreePath w p w1 :
  createBranch_try env vcs specName worktreePath w = (Ok p, w1) ->
  exists bp, env_spawn env (tick w) (branch_argv vcs specName) = Ok bp
             /\ branch_step_passes bp.
Proof.
  intros Ht.
  unfold createBranch_try, bind, spawn, exited, stderr_text, of_result, ret, throw in Ht.
  destruct (env_spawn env (tick w) (branch_argv vcs specName)) as [bp|];
    [|discriminate].
  exists bp. split; [reflexivity|].
  destruct (proc_exited bp) as [bcode|] eqn:Hbcode; [|discriminate].
  destruct (bcode =? 0)%Z eqn:Hbz.
  - left. apply Z.eqb_eq in Hbz. subst. exact Hbcode.
  - cbn [negb] in Ht. cbv beta iota in Ht.
    destruct (proc_stderr bp) as [err|] eqn:Herr; [|discriminate].
    destruct (Js.includes err "already exists") eqn:Hinc.
    + right. exists bcode, err. repeat split; try assumption; try reflexivity.
      apply Z.eqb_neq. exact Hbz.
    + cbn [negb] in Ht. cbv beta iota in Ht. discriminate.
Qed.

Lemma worktree_step_ok env vcs specName worktreePath w p w1 :
  (worktreeProcess <- spawn env (worktree_argv vcs worktreePath specName) ;;
   worktreeExitCode <- exited worktreeProcess ;;
   (if negb (worktreeExitCode =? 0)%Z then
      stderr <- stderr_text worktreeProcess ;;
      throw (ErrorObj ("Failed to create worktree: " ++ stderr))
    else ret tt) ;;
   ret worktreePath)%js w = (Ok p, w1) ->
  p = worktreePath
  /\ w1 = advance [EvSpawn (worktree_argv vcs worktreePath specName)] w
  /\ exists wp, env_spawn env (tick w) (worktree_argv vcs worktreePath specName) = Ok wp
                /\ proc_exited wp = Ok 0%Z.
Proof.
  intros H. unfold bind, spawn, exited, stderr_text, of_result, ret, throw in H.
  destruct (env_spawn env (tick w) (worktree_argv vcs worktreePath specName)) as [wp|];
    [|discriminate].
  destruct (proc_exited wp) as [code|] eqn:Hcode; [|discriminate].
  destruct (code =? 0)%Z eqn:Hz; cbn [negb] in H; cbv beta iota in H.
  - inversion H; subst. apply Z.eqb_eq in Hz. subst code.
    repeat split. exists wp. split; [reflexivity | exact Hcode].
  - destruct (proc_stderr wp); discriminate.
Qed.

Lemma createBranch_catch_throws env specName worktreePath e s :
  exists m s', createBranch_catch env specName worktreePath e s = (Throw m, s').
Proof.
  unfold createBranch_catch, message_includes, bind, ret, throw.
  destruct e as [m|]; [|eexists; eexists; reflexivity].
  destruct (Js.includes m "already exists"); [eexists; eexists; reflexivity|].
  destruct (Js.includes m "not a git repository"); [eexists; eexists; reflexivity|].
  destruct (Js.includes m "path already exists"); [eexists; eexists; reflexivity|].
  destruct (Js.includes m "Permission denied"); eexists; eexists; reflexivity.
Qed.

Lemma files_existsSync env path : stable same_files (existsSync env path).
Proof.
  intros w. unfold existsSync, same_files.
  destruct (lookup_file path (files w)); reflexivity.
Qed.

Lemma files_spawn env argv : stable same_files (spawn env argv).
Proof. intros w. reflexivity. Qed.

(** The version-control commands write no file through the program. *)
Lemma files_createBranch env specName : stable same_files (createBranch env specName).
Proof.
  unfold createBranch, createBranch_try, createBranch_catch, detectVC,
    stdout_text, stderr_text, exited.
  repeat (stable_step || apply files_existsSync || apply files_spawn).
Qed.

(** X14. When [createBranch] returns, it returns the path
    [join('..', 'worktrees', specName)], and after the detection of the
    version-control system it launched exactly two commands, the branch
    creation and then the worktree creation; the branch step passed and
    the worktree command exited zero. Working directory and files are as
    before. *)
Theorem created_worktree_is_the_joined_path :
  forall env specName w path w',
    createBranch env specName w = (Ok path, w') ->
    path = env_join env [".."; "worktrees"; specName]
    /\ cwd w' = cwd w /\ files w' = files w
    /\ exists vcs w0 bp wp,
         detectVC env w = (Ok vcs, w0)
         /\ trace w' = (trace w0 ++ [EvSpawn (branch_argv vcs specName);
                                     EvSpawn (worktree_argv vcs path specName)])%list
         /\ env_spawn env (tick w0) (branch_argv vcs specName) = Ok bp
         /\ branch_step_passes bp
         /\ env_spawn env (S (tick w0)) (worktree_argv vcs path specName) = Ok wp
         /\ proc_exited wp = Ok 0%Z.
Proof.
  intros env specName w path w' Hrun.
  pose proof (cwd_createBranch env specName w) as Hcwd.
  pose proof (files_createBranch env specName w) as Hext.
  rewrite Hrun in Hcwd, Hext. cbn [snd] in Hcwd, Hext.
  unfold createBranch in Hrun. unfold bind at 1 in Hrun.
  destruct (detectVC env w) as [[vcs|e] w0] eqn:Hd; [|discriminate].
  set (wt := env_join env [".."; "worktrees"; specName]) in *.
  unfold try_catch in Hrun.
  destruct (createBranch_try env vcs specName wt w0) as [[p|e] w1] eqn:Ht.
  2:{ exfalso. destruct (createBranch_catch_throws env specName wt e w1) as [m [s' Hc]].
      rewrite Hc in Hrun. discriminate. }
  inversion Hrun; subst p w1. clear Hrun.
  destruct (createBranch_try_ok_branch _ _ _ _ _ _ _ Ht) as [bp [Hbp Hpass]].
  rewrite (createBranch_try_branch_step _ _ _ _ _ _ Hbp Hpass) in Ht.
  destruct (worktree_step_ok _ _ _ _ _ _ _ Ht) as [Hp [Hw' [wp [Hwp Hex]]]].
  subst path. split; [reflexivity|]. split; [exact Hcwd|].
  split; [exact Hext|].
  exists vcs, w0, bp, wp. split; [reflexivity|].
  split; [subst w'; cbn [trace advance]; rewrite <- app_assoc; reflexivity|].
  split; [exact Hbp|]. split; [exact Hpass|]. split; assumption.
Qed.

Lemma created_worktree_is_the_joined_path_witness :
  fst (createBranch Scenario.passing_env "feat" Scenario.start)
    = Ok "../worktrees/feat"
  /\ trace (snd (createBranch Scenario.passing_env "feat" Scenario.start))
     = [EvSpawn ["jj"; "branch"; "create"; "feat"];
        EvSpawn ["jj"; "worktree"; "add"; "../worktrees/feat"; "feat"]].
Proof.
  destruct (createBranch Scenario.passing_env "feat" Scenario.start)
    as [res w'] eqn:E.
  assert (Hr : res = Ok "../worktrees/feat").
  { vm_compute in E. inversion E. reflexivity. }
  subst res. split; [reflexivity|].
  destruct (created_worktree_is_the_joined_path _ _ _ _ _ E)
    as [_ [_ [_ [vcs [w0 [bp [wp [Hd [Ht _]]]]]]]]].
  vm_compute in Hd. inversion Hd; subst. exact Ht.
Defined.

Lemma createBranch_catch_already_exists env specName worktreePath m w :
  Js.includes m "already exists" = true ->
  createBranch_catch env specName worktreePath (ErrorObj m) w
    = (Throw (ErrorObj (branch_exists_message specName)), w).
Proof.
  intros H. unfold createBranch_catch, message_includes, bind, ret, throw.
  rewrite H. reflexivity.
Qed.

(** X15. The handler of [createBranch] tests the error message against
    ['already exists'] before ['path already exists']. A message that
    contains the second contains the first, so the message about the
    worktree path is never the one thrown: whatever the [Error] caught, the
    handler throws an [Error], a message with ['already exists'] in it is
    reported as an existing branch, and the worktree-path message never
    comes out. *)
Theorem worktree_path_message_is_never_thrown :
  forall env specName worktreePath m w,
    exists msg,
      createBranch_catch env specName worktreePath (ErrorObj m) w
        = (Throw (ErrorObj msg), w)
      /\ (Js.includes m "already exists" = true ->
          msg = branch_exists_message specName)
      /\ (Js.includes m "path already exists" = true ->
          msg = branch_exists_message specName)
      /\ msg <> worktree_path_message worktreePath.
Proof.
  intros env specName worktreePath m w.
  unfold createBranch_catch, message_includes, bind, ret, throw.
  destruct (Js.includes m "already exists") eqn:H1.
  - eexists. split; [reflexivity|]. split; [reflexivity|]. split; [reflexivity|].
    unfold worktree_path_message. cbn. discriminate.
  - assert (H3 : Js.includes m "path already exists" = false).
    { destruct (Js.includes m "path already exists") eqn:H3; [|reflexivity].
      change "path already exists" with ("path " ++ "already exists") in H3.
      apply includes_tail_of_needle in H3. congruence. }
    rewrite H3.
    destruct (Js.includes m "not a git repository");
      [|destruct (Js.includes m "Permission denied")];
      (eexists; split; [reflexivity|]; split; [discriminate|];
       split; [discriminate|]; unfold worktree_path_message; cbn; discriminate).
Qed.

(** X16. [createBranch] tolerates an existing branch but not an existing
    worktree: when the branch step passed and the worktree command exits
    non-zero with ['already exists'] in its stderr, [createBranch] throws,
    and the message blames the branch. *)
Theorem existing_worktree_is_reported_as_existing_branch :
  forall env specName w vcs w0 bp wp code err,
    detectVC env w = (Ok vcs, w0) ->
    env_spawn env (tick w0) (branch_argv vcs specName) = Ok bp ->
    branch_step_passes bp ->
    env_spawn env (S (tick w0))
      (worktree_argv vcs (env_join env [".."; "worktrees"; specName]) specName) = Ok wp ->
    proc_exited wp = Ok code -> code <> 0%Z ->
    proc_stderr wp = Ok err ->
    Js.includes err "already exists" = true ->
    fst (createBranch env specName w)
      = Throw (ErrorObj (branch_exists_message specName)).
Proof.
  intros env specName w vcs w0 bp wp code err Hd Hbp Hpass Hwp Hex Hnz Herr Hinc.
  unfold createBranch. unfold bind at 1. rewrite Hd.
  unfold try_catch.
  rewrite (createBranch_try_branch_step _ _ _ _ _ _ Hbp Hpass).
  unfold bind, spawn, exited, stderr_text, of_result, ret, throw.
  cbn [tick advance]. rewrite Hwp, Hex.
  apply Z.eqb_neq in Hnz. rewrite Hnz. cbn [negb]. rewrite Herr.
  rewrite createBranch_catch_already_exists; [reflexivity|].
  apply includes_append_left. exact Hinc.
Qed.

Lemma existing_worktree_is_reported_as_existing_branch_witness :
  fst (createBranch Cases.worktree_exists_env "feat" Scenario.start)
    = Throw (ErrorObj "Branch 'feat' already exists. Use a different name or clean up the existing branch first.").
Proof.
  apply (existing_worktree_is_reported_as_existing_branch
           Cases.worktree_exists_env "feat" Scenario.start JJ
           (snd (detectVC Cases.worktree_exists_env Scenario.start))
           (Scenario.clean_exit 0 EmptyString EmptyString)
           (Scenario.clean_exit 128 EmptyString
              "fatal: '../worktrees/feat' already exists")
           128%Z "fatal: '../worktrees/feat' already exists").
  - vm_compute. reflexivity.
  - reflexivity.
  - left. reflexivity.
  - reflexivity.
  - reflexivity.
  - discriminate.
  - reflexivity.
  - vm_compute. reflexivity.
Defined.

(* ================================================================== *)
(** ** cleanupBranch *)
(* ================================================================== *)

Lemma detectVC_returns env w : exists vcs w', detectVC env w = (Ok vcs, w').
Proof.
  unfold detectVC, bind, try_catch, spawn, exited, stderr_text, of_result, ret.
  destruct (existsSync env ".jj" w) as [[present|e] w0] eqn:Eex.
  2:{ exfalso. unfold existsSync in Eex.
      destruct (lookup_file ".jj" (files w)); discriminate. }
  destruct present; [eexists; eexists; reflexivity|].
  destruct (env_spawn env (tick w0) ["jj"; "status"]) as [p|];
    [|eexists; eexists; reflexivity].
  destruct (proc_exited p) as [code|]; [|eexists; eexists; reflexivity].
  destruct (code =? 0)%Z; [eexists; eexists; reflexivity|].
  destruct (proc_stderr p); eexists; eexists; reflexivity.
Qed.

(** A cleanup step launches its command and returns, whatever the command
    does. *)
Lemma cleanup_step_outcome env argv w :
  cleanup_step env argv w = (Ok tt, advance [EvSpawn argv] w).
Proof.
  unfold cleanup_step, try_catch, bind, spawn, exited, stderr_text, of_result, ret.
  destruct (env_spawn env (tick w) argv) as [p|]; [|reflexivity].
  destruct (proc_exited p) as [code|]; [|reflexivity].
  destruct (code =? 0)%Z; cbn [negb]; [reflexivity|].
  destruct (proc_stderr p); reflexivity.
Qed.

(** X17. [cleanupBranch] never throws, and after the detection of the
    version-control system it always launches both commands, the worktree
    removal and then the branch deletion: a removal that fails to launch,
    exits non-zero or whose streams cannot be read does not keep the
    deletion from being tried. *)
Theorem cleanup_always_tries_both_steps :
  forall env specName w,
    exists vcs w0,
      detectVC env w = (Ok vcs, w0)
      /\ cleanupBranch env specName w
         = (Ok tt,
            advance [EvSpawn (delete_branch_argv vcs specName)]
              (advance [EvSpawn (remove_worktree_argv vcs
                                   (env_join env [".."; "worktrees"; specName]))]
                 w0)).
Proof.
  intros env specName w.
  destruct (detectVC_returns env w) as [vcs [w0 Hd]].
  exists vcs, w0. split; [exact Hd|].
  unfold cleanupBranch. unfold bind at 1. rewrite Hd.
  unfold try_catch, bind. rewrite !cleanup_step_outcome. reflexivity.
Qed.

(* ================================================================== *)
(** ** Runs of executeAllTasks *)
(* ================================================================== *)

Section RunShape.

Variable env : Env.
Variable spec : Spec.
Variable specName : string.

Lemma loop_results_shape (todo : list Task) :
  forall w todo' rs ds w',
    executeAllTasks_loop env spec specName todo w = (Ok (todo', rs, ds), w') ->
    successes_then_failure rs.
Proof.
  induction todo as [|task rest IH]; intros w todo' rs ds w' Hrun; simpl in Hrun.
  - inversion Hrun; subst. left. constructor.
  - destruct (is_done task); unfold bind in Hrun.
    + destruct (executeAllTasks_loop env spec specName rest w)
        as [[[[p' rs0] ds0]|e] w0] eqn:Erest; [|discriminate].
      inversion Hrun; subst. exact (IH _ _ _ _ _ Erest).
    + destruct (executeTask env spec task specName w) as [[r|e] w0]; [|discriminate].
      destruct (success r) eqn:Hs.
      * destruct (executeAllTasks_loop env spec specName rest w0)
          as [[[[p' rs0] ds0]|e] w3] eqn:Erest; [|discriminate].
        inversion Hrun; subst.
        destruct (IH _ _ _ _ _ Erest) as [Hall | [oks [r' [Ho [Hall Hf]]]]].
        -- left. constructor; assumption.
        -- right. exists (r :: oks), r'. subst rs0.
           split; [reflexivity|]. split; [constructor; assumption | exact Hf].
      * inversion Hrun; subst. right. exists [], r.
        split; [reflexivity|]. split; [constructor | exact Hs].
Qed.

(** The tasks still pending after the loop are the pending tasks it started
    with, less one for each success, taken from the front. *)
Lemma loop_pending (todo : list Task) :
  forall w todo' rs ds w',
    executeAllTasks_loop env spec specName todo w = (Ok (todo', rs, ds), w') ->
    filter pending todo'
      = skipn (length (filter success rs)) (filter pending todo)
    /\ length todo' = length todo.
Proof.
  induction todo as [|task rest IH]; intros w todo' rs ds w' Hrun; simpl in Hrun.
  - inversion Hrun; subst. split; reflexivity.
  - cbn [filter].
    assert (Hp : pending task = negb (is_done task)) by reflexivity.
    destruct (is_done task) eqn:Hd; unfold bind in Hrun.
    + destruct (executeAllTasks_loop env spec specName rest w)
        as [[[[p' rs0] ds0]|e] w0] eqn:Erest; [|discriminate].
      inversion Hrun; subst.
      destruct (IH _ _ _ _ _ Erest) as [H1 H2].
      cbn [filter]. rewrite Hp. cbn [negb].
      split; [exact H1 | simpl; f_equal; exact H2].
    + destruct (executeTask env spec task specName w) as [[r|e] w0]; [|discriminate].
      destruct (success r) eqn:Hs.
      * destruct (executeAllTasks_loop env spec specName rest w0)
          as [[[[p' rs0] ds0]|e] w3] eqn:Erest; [|discriminate].
        inversion Hrun; subst.
        destruct (IH _ _ _ _ _ Erest) as [H1 H2].
        cbn [filter]. rewrite Hs, Hp.
        assert (Hm : pending (mark_done task) = false) by reflexivity.
        rewrite Hm. cbn [negb length skipn].
        split; [exact H1 | simpl; f_equal; exact H2].
      * inversion Hrun; subst. cbn [filter]. rewrite Hs, Hp.
        cbn [negb length skipn]. split; reflexivity.
Qed.

(** When every result is a success, nothing is left pending. *)
Lemma loop_all_succeeded (todo : list Task) :
  forall w todo' rs ds w',
    executeAllTasks_loop env spec specName todo w = (Ok (todo', rs, ds), w') ->
    Forall succeeded rs ->
    filter pending todo' = [].
Proof.
  induction todo as [|task rest IH]; intros w todo' rs ds w' Hrun Hall; simpl in Hrun.
  - inversion Hrun; subst. reflexivity.
  - destruct (is_done task) eqn:Hd; unfold bind in Hrun.
    + destruct (executeAllTasks_loop env spec specName rest w)
        as [[[[p' rs0] ds0]|e] w0] eqn:Erest; [|discriminate].
      inversion Hrun; subst. cbn [filter]. unfold pending at 1. rewrite Hd.
      cbn [negb]. exact (IH _ _ _ _ _ Erest Hall).
    + destruct (executeTask env spec task specName w) as [[r|e] w0]; [|discriminate].
      destruct (success r) eqn:Hs.
      * destruct (executeAllTasks_loop env spec specName rest w0)
          as [[[[p' rs0] ds0]|e] w3] eqn:Erest; [|discriminate].
        inversion Hrun; subst. inversion Hall; subst.
        cbn [filter].
        assert (Hm : pending (mark_done task) = false) by reflexivity.
        rewrite Hm. exact (IH _ _ _ _ _ Erest H2).
      * inversion Hrun; subst. inversion Hall; subst.
        unfold succeeded in *. congruence.
Qed.

End RunShape.

(** X18. [executeAllTasks] never throws. Its results are successes followed
    by at most one failure, which is the last result, and the tasks still
    pending in the spec afterwards are the tasks that were pending before,
    less one for each success, taken from the front. The task list keeps its
    length. *)
Theorem run_returns_successes_then_at_most_one_failure :
  forall env spec specName mainRepoRoot w,
    exists tasks' rs w',
      executeAllTasks env spec specName mainRepoRoot w = (Ok (tasks', rs), w')
      /\ successes_then_failure rs
      /\ filter pending tasks'
           = skipn (length (filter success rs)) (filter pending (tasks spec))
      /\ length tasks' = length (tasks spec).
Proof.
  intros env spec specName mainRepoRoot w.
  destruct (loop_returns env spec specName (tasks spec) w) as [t' [rs [ds [w1 Hl]]]].
  exists t', rs, w1.
  split; [exact (executeAllTasks_after_loop env spec specName mainRepoRoot w _ _ _ _ Hl)|].
  split; [exact (loop_results_shape env spec specName _ _ _ _ _ _ Hl)|].
  exact (loop_pending env spec specName _ _ _ _ _ _ Hl).
Qed.

(** X19. After a run in which every executed task succeeded, no task of the
    spec is pending, and a second run on that spec executes nothing: it
    returns no result and leaves the world as it found it (no process, no
    language-model call, no write). *)
Theorem rerun_after_full_success_does_nothing :
  forall env spec specName mainRepoRoot w tasks' rs w',
    executeAllTasks env spec specName mainRepoRoot w = (Ok (tasks', rs), w') ->
    Forall succeeded rs ->
    Forall (fun task => is_done task = true) tasks'
    /\ forall spec2 w2,
         tasks spec2 = tasks' ->
         executeAllTasks env spec2 specName mainRepoRoot w2 = (Ok (tasks', []), w2).
Proof.
  intros env spec specName mainRepoRoot w tasks' rs w' Hrun Hall.
  destruct (executeAllTasks_inv env spec specName mainRepoRoot w _ _ _ Hrun)
    as [ds Hl].
  assert (Hnone := loop_all_succeeded env spec specName _ _ _ _ _ _ Hl Hall).
  split.
  - clear - Hnone. induction tasks' as [|t l IH]; constructor.
    + cbn [filter] in Hnone. unfold pending at 1 in Hnone.
      destruct (is_done t); [reflexivity | discriminate].
    + apply IH. cbn [filter] in Hnone. destruct (pending t); [discriminate|exact Hnone].
  - intros spec2 w2 Ht. unfold executeAllTasks, bind.
    rewrite Ht, (loop_nothing_pending env spec2 specName tasks' w2 Hnone).
    reflexivity.
Qed.

Lemma rerun_after_full_success_does_nothing_witness :
  executeAllTasks Scenario.passing_env
    (Scenario.spec_of 2 [mark_done (Scenario.plain "parse");
                         mark_done (Scenario.plain "print")])
    "feat" "/repo" Scenario.start
  = (Ok ([mark_done (Scenario.plain "parse"); mark_done (Scenario.plain "print")],
         []),
     Scenario.start).
Proof.
  destruct (executeAllTasks Scenario.passing_env (Scenario.two_tasks 2) "feat" "/repo"
              Scenario.start) as [res w'] eqn:E.
  assert (Hr : exists rs,
             res = Ok ([mark_done (Scenario.plain "parse");
                        mark_done (Scenario.plain "print")], rs)
             /\ Forall succeeded rs).
  { vm_compute in E. inversion E. eexists. split; [reflexivity|].
    repeat constructor. }
  destruct Hr as [rs [-> Hall]].
  apply (proj2 (rerun_after_full_success_does_nothing _ _ _ _ _ _ _ _ E Hall)).
  reflexivity.
Defined.

(* ================================================================== *)
(** ** Merging configurations *)
(* ================================================================== *)

Lemma existsb_eqb_In (x : string) (l : list string) :
  existsb (String.eqb x) l = true <-> In x l.
Proof.
  rewrite existsb_exists. split.
  - intros [y [Hy He]]. apply String.eqb_eq in He. subst. exact Hy.
  - intros H. exists x. split; [exact H | apply String.eqb_refl].
Qed.

Lemma Set_add_In (set : list string) (x y : string) :
  In y (Set_add set x) <-> In y set \/ y = x.
Proof.
  unfold Set_add. destruct (existsb (String.eqb x) set) eqn:E.
  - apply existsb_eqb_In in E. split; [auto|]. intros [H | ->]; assumption.
  - rewrite in_app_iff. simpl. split; intros [H | H]; auto.
    + destruct H as [H | []]; auto.
Qed.

Lemma Set_add_NoDup (set : list string) (x : string) :
  NoDup set -> NoDup (Set_add set x).
Proof.
  intros H. unfold Set_add. destruct (existsb (String.eqb x) set) eqn:E; [exact H|].
  assert (Hn : ~ In x set).
  { intros Hin. apply existsb_eqb_In in Hin. congruence. }
  clear E. induction H as [|a l Ha Hl IH]; simpl.
  - constructor; [intros []|constructor].
  - constructor.
    + rewrite in_app_iff. simpl. intros [H | [H | []]]; [contradiction|].
      subst. apply Hn. left. reflexivity.
    + apply IH. intros Hin. apply Hn. right. exact Hin.
Qed.

Lemma fold_Set_add (xs : list string) :
  forall set,
    NoDup set ->
    NoDup (fold_left Set_add xs set)
    /\ (forall y, In y (fold_left Set_add xs set) <-> In y set \/ In y xs)
    /\ exists added, fold_left Set_add xs set = (set ++ added)%list.
Proof.
  induction xs as [|x xs IH]; intros set Hnd; simpl.
  - split; [exact Hnd|]. split; [intros y; tauto|]. exists []. symmetry. apply app_nil_r.
  - destruct (IH (Set_add set x) (Set_add_NoDup set x Hnd)) as [H1 [H2 [added H3]]].
    split; [exact H1|]. split.
    + intros y. rewrite H2, Set_add_In. intuition (subst; auto).
    + rewrite H3. unfold Set_add. destruct (existsb (String.eqb x) set).
      * exists added. reflexivity.
      * exists (x :: added). rewrite <- app_assoc. reflexivity.
Qed.

(** Adding values it already holds leaves a set as it is. *)
Lemma fold_Set_add_known (xs set : list string) :
  (forall y, In y xs -> In y set) -> fold_left Set_add xs set = set.
Proof.
  revert set. induction xs as [|x xs IH]; intros set Hin; simpl; [reflexivity|].
  assert (Hx : Set_add set x = set).
  { unfold Set_add. destruct (existsb (String.eqb x) set) eqn:E; [reflexivity|].
    assert (In x set) by (apply Hin; left; reflexivity).
    apply existsb_eqb_In in H. congruence. }
  rewrite Hx. apply IH. intros y Hy. apply Hin. right. exact Hy.
Qed.

(** A list without duplicates goes through a set unchanged. *)
Lemma fold_Set_add_fresh (xs : list string) :
  forall set, NoDup (set ++ xs)%list -> fold_left Set_add xs set = (set ++ xs)%list.
Proof.
  induction xs as [|x xs IH]; intros set Hnd; simpl.
  - symmetry. apply app_nil_r.
  - assert (Hx : Set_add set x = (set ++ [x])%list).
    { unfold Set_add. destruct (existsb (String.eqb x) set) eqn:E; [|reflexivity].
      apply existsb_eqb_In in E. apply NoDup_remove_2 in Hnd.
      exfalso. apply Hnd. apply in_or_app. left. exact E. }
    rewrite Hx. rewrite IH.
    + rewrite <- app_assoc. reflexivity.
    + rewrite <- app_assoc. exact Hnd.
Qed.

Lemma Set_of_spec (xs : list string) :
  NoDup (Set_of xs) /\ (forall y, In y (Set_of xs) <-> In y xs).
Proof.
  destruct (fold_Set_add xs [] (NoDup_nil _)) as [H1 [H2 _]].
  split; [exact H1|]. intros y. unfold Set_of. rewrite H2. simpl. tauto.
Qed.

Lemma Set_of_NoDup_id (xs : list string) : NoDup xs -> Set_of xs = xs.
Proof. intros H. unfold Set_of. rewrite fold_Set_add_fresh; [reflexivity | exact H]. Qed.

Lemma Set_of_app (a b : list string) :
  Set_of (a ++ b)%list = fold_left Set_add b (Set_of a).
Proof. unfold Set_of. apply fold_left_app. Qed.

Lemma merge_files_spec (projectFiles : option (list string)) (specFiles : list string) :
  NoDup (merge_files projectFiles specFiles)
  /\ (forall y, In y (merge_files projectFiles specFiles)
                <-> In y (or_empty projectFiles) \/ In y specFiles)
  /\ (NoDup (or_empty projectFiles) ->
      exists added, merge_files projectFiles specFiles = (or_empty projectFiles ++ added)%list).
Proof.
  unfold merge_files.
  destruct (Set_of_spec (or_empty projectFiles ++ specFiles)%list) as [H1 H2].
  split; [exact H1|]. split.
  - intros y. rewrite H2. apply in_app_iff.
  - intros Hnd. rewrite Set_of_app, (Set_of_NoDup_id _ Hnd).
    destruct (fold_Set_add specFiles (or_empty projectFiles) Hnd) as [_ [_ H3]].
    exact H3.
Qed.

(** Merging the same spec files into the merged list changes nothing. *)
Lemma merge_files_again (projectFiles : option (list string)) (specFiles : list string) :
  merge_files (Some (merge_files projectFiles specFiles)) specFiles
  = merge_files projectFiles specFiles.
Proof.
  destruct (merge_files_spec projectFiles specFiles) as [Hnd [Hin _]].
  unfold merge_files at 1. cbn [or_empty].
  rewrite Set_of_app, (Set_of_NoDup_id _ Hnd).
  apply fold_Set_add_known. intros y Hy. apply Hin. right. exact Hy.
Qed.

(** X20. With project settings and a spec configuration that lists files,
    the merged list has no duplicates and holds exactly the entries of the
    two lists; when the project list has no duplicates itself, the merged
    list starts with it, the entries the spec adds come after. The same
    holds for the read-only files. *)
Theorem merged_file_lists_are_duplicate_free_unions :
  forall specConfig project merged,
    mergeAiderConfig (Some specConfig) (Some project) = Ok merged ->
    (forall files,
        Partial.editable_files specConfig = Some files ->
        exists l,
          Complete.editable_files merged = Some l
          /\ NoDup l
          /\ (forall y, In y l <->
                        In y (or_empty (Complete.editable_files project)) \/ In y files)
          /\ (NoDup (or_empty (Complete.editable_files project)) ->
              exists added, l = (or_empty (Complete.editable_files project) ++ added)%list))
    /\ (forall files,
        Partial.readonly_files specConfig = Some files ->
        exists l,
          Complete.readonly_files merged = Some l
          /\ NoDup l
          /\ (forall y, In y l <->
                        In y (or_empty (Complete.readonly_files project)) \/ In y files)
          /\ (NoDup (or_empty (Complete.readonly_files project)) ->
              exists added, l = (or_empty (Complete.readonly_files project) ++ added)%list))
    /\ (Partial.editable_files specConfig = None ->
        Complete.editable_files merged = Complete.editable_files project)
    /\ (Partial.readonly_files specConfig = None ->
        Complete.readonly_files merged = Complete.readonly_files project).
Proof.
  intros specConfig project merged H. cbn in H. inversion H; subst merged; clear H.
  cbn [Complete.editable_files Complete.readonly_files].
  split; [|split; [|split]].
  - intros files Hf. rewrite Hf. eexists. split; [reflexivity|].
    apply merge_files_spec.
  - intros files Hf. rewrite Hf. eexists. split; [reflexivity|].
    apply merge_files_spec.
  - intros Hf. rewrite Hf. reflexivity.
  - intros Hf. rewrite Hf. reflexivity.
Qed.

Lemma merged_file_lists_are_duplicate_free_unions_witness :
  exists merged l,
    mergeAiderConfig (Some Cases.spec_config) (Some Cases.project_config) = Ok merged
    /\ Complete.editable_files merged = Some l
    /\ NoDup l
    /\ Complete.readonly_files merged = Some ["docs/spec.md"].
Proof.
  destruct (merged_file_lists_are_duplicate_free_unions
              Cases.spec_config Cases.project_config _ eq_refl)
    as [Hed [_ [_ Hro]]].
  destruct (Hed _ eq_refl) as [l [Hl [Hnd _]]].
  eexists. exists l. split; [reflexivity|]. split; [exact Hl|].
  split; [exact Hnd|]. exact (Hro eq_refl).
Defined.

(** X21. Merging is stable: with project settings present, merging the spec
    configuration into the merged configuration once more gives the merged
    configuration again. *)
Theorem merging_twice_is_merging_once :
  forall specConfig project merged,
    mergeAiderConfig specConfig (Some project) = Ok merged ->
    mergeAiderConfig specConfig (Some merged) = Ok merged.
Proof.
  intros specConfig project merged H.
  destruct specConfig as [sc|]; cbn in H; inversion H; subst merged; clear H;
    [|reflexivity].
  cbn. f_equal.
  destruct sc as [m a e r n t]; cbn.
  f_equal.
  - destruct m; reflexivity.
  - destruct a; reflexivity.
  - destruct e; [|reflexivity]. f_equal. apply merge_files_again.
  - destruct r; [|reflexivity]. f_equal. apply merge_files_again.
  - destruct n; reflexivity.
  - destruct t; reflexivity.
Qed.

Lemma merging_twice_is_merging_once_witness :
  exists merged,
    mergeAiderConfig (Some Cases.spec_config) (Some Cases.project_config) = Ok merged
    /\ mergeAiderConfig (Some Cases.spec_config) (Some merged) = Ok merged.
Proof.
  eexists. split; [reflexivity|].
  apply (merging_twice_is_merging_once (Some Cases.spec_config) Cases.project_config).
  reflexivity.
Defined.

(** X22. The merge fails exactly when there is neither a spec configuration
    nor project settings. A spec configuration merged without project
    settings keeps its file list as it is, duplicates included; merged into
    project settings that list no files, the same list loses its duplicates.
    The two merges agree on the list exactly when it has no duplicates. *)
Theorem file_lists_lose_duplicates_only_with_project_settings :
  (forall specConfig projectSettings,
      (exists e, mergeAiderConfig specConfig projectSettings = Throw e)
      <-> specConfig = None /\ projectSettings = None)
  /\ (forall sc files project alone merged,
        Partial.editable_files sc = Some files ->
        Complete.editable_files project = None ->
        mergeAiderConfig (Some sc) None = Ok alone ->
        mergeAiderConfig (Some sc) (Some project) = Ok merged ->
        Complete.editable_files alone = Some files
        /\ Complete.editable_files merged = Some (Set_of files)
        /\ (Complete.editable_files alone = Complete.editable_files merged
            <-> NoDup files)).
Proof.
  split.
  - intros [sc|] [p|]; cbn; split.
    all: try (intros [e H]; discriminate).
    all: try (intros [H1 H2]; discriminate).
    + intros _. split; reflexivity.
    + intros _. eexists. reflexivity.
  - intros sc files project alone merged Hf Hp Ha Hm.
    cbn in Ha, Hm. inversion Ha; subst alone. inversion Hm; subst merged.
    cbn [Complete.editable_files]. rewrite Hf, Hp. cbn [or_empty].
    unfold merge_files. cbn [or_empty app].
    split; [reflexivity|]. split; [reflexivity|]. split.
    + intros H. inversion H as [Heq]. rewrite Heq. apply Set_of_spec.
    + intros H. rewrite (Set_of_NoDup_id _ H). reflexivity.
Qed.

Lemma file_lists_lose_duplicates_only_with_project_settings_witness :
  exists alone merged,
    mergeAiderConfig (Some Cases.spec_config) None = Ok alone
    /\ mergeAiderConfig (Some Cases.spec_config) (Some Cases.bare_project_config)
       = Ok merged
    /\ Complete.editable_files alone
       = Some ["src/index.ts"; "src/cli.ts"; "src/index.ts"]
    /\ Complete.editable_files merged
       = Some (Set_of ["src/index.ts"; "src/cli.ts"; "src/index.ts"]).
Proof.
  eexists. eexists. split; [reflexivity|]. split; [reflexivity|].
  destruct (proj2 file_lists_lose_duplicates_only_with_project_settings
              Cases.spec_config _ Cases.bare_project_config _ _
              eq_refl eq_refl eq_refl eq_refl) as [H1 [H2 _]].
  split; [exact H1 | exact H2].
Defined.

(* ================================================================== *)
(** ** The command line *)
(* ================================================================== *)

Lemma findIndex_first (flag : string) (args : list string) :
  forall i,
    Cli.findIndex (fun arg => String.eqb arg flag) args = Some i
    <-> Cli.first_at flag args i.
Proof.
  unfold Cli.first_at.
  induction args as [|a args IH]; intros i; simpl.
  - split; [discriminate|]. intros [H _]. destruct i; discriminate.
  - destruct (String.eqb a flag) eqn:E.
    + apply String.eqb_eq in E. subst a. split.
      * intros H. inversion H; subst. split; [reflexivity|]. intros j Hj. lia.
      * intros [H Hfirst]. destruct i as [|i]; [reflexivity|].
        exfalso. apply (Hfirst 0%nat); [lia | reflexivity].
    + apply String.eqb_neq in E.
      destruct (Cli.findIndex (fun arg => String.eqb arg flag) args) as [k|] eqn:Ek.
      * split.
        -- intros H. inversion H; subst. destruct (proj1 (IH k) eq_refl) as [H1 H2].
           split; [exact H1|]. intros [|j] Hj; simpl.
           ++ intros Hc. inversion Hc. contradiction.
           ++ apply H2. lia.
        -- intros [H Hfirst]. destruct i as [|i]; simpl in H.
           ++ inversion H. contradiction.
           ++ f_equal. assert (Hi : Some k = Some i).
              { apply IH. split; [exact H|]. intros j Hj.
                apply (Hfirst (S j)). lia. }
              inversion Hi. reflexivity.
      * split; [discriminate|]. intros [H Hfirst]. destruct i as [|i]; simpl in H.
        -- inversion H. contradiction.
        -- assert (Hi : None = Some i).
           { apply IH. split; [exact H|]. intros j Hj. apply (Hfirst (S j)). lia. }
           discriminate.
Qed.

Section ParseArgs.

Variable basename : string -> string -> string.
Variable extname : string -> string.

(** X23. [parseArgs] returns exactly when the command line has a command and
    one more argument, and the command, lowercased, is [generate], [run] or
    [cleanup]. A call that returns gives that lowercased command and a spec
    name; the spec file is given for [run] only. An unknown command is
    reported even when its argument is missing too. *)
Theorem command_line_is_accepted_exactly_when :
  forall argv,
    ((exists parsed, Cli.parseArgs basename extname argv = Ok parsed)
     <-> exists node script arg0 arg1 more,
           argv = node :: script :: arg0 :: arg1 :: more
           /\ In (Js.toLowerCase arg0) ["generate"; "run"; "cleanup"])
    /\ (forall parsed,
          Cli.parseArgs basename extname argv = Ok parsed ->
          In (Cli.command parsed) ["generate"; "run"; "cleanup"]
          /\ Some (Cli.command parsed) = option_map Js.toLowerCase (nth_error argv 2)
          /\ Cli.specName parsed <> None
          /\ (Cli.specFile parsed <> None <-> Cli.command parsed = "run")
          /\ (Cli.specFile parsed <> None -> Cli.specFile parsed = nth_error argv 3))
    /\ (forall arg0,
          nth_error argv 2 = Some arg0 ->
          ~ In (Js.toLowerCase arg0) ["generate"; "run"; "cleanup"] ->
          Cli.parseArgs basename extname argv
            = Throw (ErrorObj ("Invalid command: " ++ Js.toLowerCase arg0
                               ++ ". Must be one of: generate, run, cleanup"))).
Proof.
  intros argv.
  assert (Hshort : forall short : list string,
             skipn 2 short = [] ->
             ((exists parsed, Cli.parseArgs basename extname short = Ok parsed)
              <-> exists node script arg0 arg1 more,
                    short = node :: script :: arg0 :: arg1 :: more
                    /\ In (Js.toLowerCase arg0) ["generate"; "run"; "cleanup"])
             /\ (forall parsed,
                   Cli.parseArgs basename extname short = Ok parsed ->
                   In (Cli.command parsed) ["generate"; "run"; "cleanup"]
                   /\ Some (Cli.command parsed)
                      = option_map Js.toLowerCase (nth_error short 2)
                   /\ Cli.specName parsed <> None
                   /\ (Cli.specFile parsed <> None <-> Cli.command parsed = "run")
                   /\ (Cli.specFile parsed <> None ->
                       Cli.specFile parsed = nth_error short 3))
             /\ (forall arg0,
                   nth_error short 2 = Some arg0 ->
                   ~ In (Js.toLowerCase arg0) ["generate"; "run"; "cleanup"] ->
                   Cli.parseArgs basename extname short
                     = Throw (ErrorObj ("Invalid command: " ++ Js.toLowerCase arg0
                                        ++ ". Must be one of: generate, run, cleanup")))).
  { intros short Hs. unfold Cli.parseArgs. rewrite Hs.
    split; [split|split].
    - intros [p Hp]. discriminate.
    - intros [n [s [a0 [a1 [m [H _]]]]]]. subst short. discriminate.
    - intros p Hp. discriminate.
    - intros a Ha. exfalso.
      destruct short as [|x [|y [|z l]]]; try discriminate. }
  destruct argv as [|node [|script [|arg0 rest]]];
    [apply Hshort; reflexivity | apply Hshort; reflexivity
     | apply Hshort; reflexivity |].
  clear Hshort.
  - unfold Cli.parseArgs. cbn [skipn nth_error option_map].
    set (cmd := Js.toLowerCase arg0).
    destruct (String.eqb cmd "generate") eqn:Eg;
      [|destruct (String.eqb cmd "run") eqn:Er;
        [|destruct (String.eqb cmd "cleanup") eqn:Ec]];
      cbn [negb andb].
    4:{ apply String.eqb_neq in Eg, Er, Ec.
        assert (Hnot : ~ In cmd ["generate"; "run"; "cleanup"]).
        { simpl. intros [H | [H | [H | []]]]; congruence. }
        split; [split|split].
        - intros [p Hp]. discriminate.
        - intros [n [s [a0 [a1 [m [H Hin]]]]]]. inversion H; subst.
          contradiction.
        - intros p Hp. discriminate.
        - intros a Ha _. inversion Ha; subst. reflexivity. }
    all: match goal with
         | H : String.eqb ?x ?c = true |- _ =>
             apply String.eqb_eq in H;
             assert (Hin : In x ["generate"; "run"; "cleanup"])
               by (rewrite H; simpl; auto)
         end.
    all: destruct rest as [|arg1 more].
    all: split; [split|split].
    all: try (intros [p Hp]; discriminate).
    all: try (intros [n [s [a0 [a1 [m [H _]]]]]]; discriminate).
    all: try (intros p Hp; discriminate).
    all: try (intros a Ha Hn; inversion Ha; subst; contradiction).
    all: try (intros _; eexists; reflexivity).
    all: try (intros _; exists node, script, arg0, arg1, more;
              split; [reflexivity | exact Hin]).
    all: intros p Hp; inversion Hp; subst p; clear Hp;
      cbn [Cli.command Cli.specName Cli.specFile nth_error];
      (split; [exact Hin|]); (split; [reflexivity|]);
      (split; [discriminate|]); split.
    all: try (split; [intros H; exfalso; apply H; reflexivity
                     | intros H; congruence]).
    all: try (intros H; exfalso; apply H; reflexivity).
    all: try (split; [intros _; assumption | intros _; discriminate]).
    all: try (intros _; reflexivity).
Qed.

(** X24. The preset of a parsed command line is the argument that follows
    the first [--preset], and only [generate] has one: a [--preset] that
    ends the command line gives no preset, a second [--preset] is not looked
    at, and a [--preset] right after the command is taken as the spec name
    as well, the argument after it as the preset. *)
Theorem preset_follows_the_first_flag :
  forall argv parsed,
    Cli.parseArgs basename extname argv = Ok parsed ->
    (forall p,
        Cli.preset parsed = Some p
        <-> Cli.command parsed = "generate"
            /\ exists i, 1 <= i
                         /\ Cli.first_at "--preset" (skipn 2 argv) i
                         /\ nth_error (skipn 2 argv) (S i) = Some p)
    /\ (Cli.command parsed = "generate" ->
        Cli.first_at "--preset" (skipn 2 argv) 1 ->
        Cli.specName parsed = Some "--preset"
        /\ Cli.preset parsed = nth_error (skipn 2 argv) 2).
Proof.
  intros argv parsed. unfold Cli.parseArgs.
  destruct (skipn 2 argv) as [|arg0 rest] eqn:Hargs; [discriminate|].
  set (cmd := Js.toLowerCase arg0).
  assert (Hflag : cmd = "generate" -> arg0 <> "--preset").
  { intros Hc Ha. unfold cmd in Hc. rewrite Ha in Hc. vm_compute in Hc.
    discriminate Hc. }
  destruct (String.eqb cmd "generate") eqn:Eg;
    [|destruct (String.eqb cmd "run") eqn:Er;
      [|destruct (String.eqb cmd "cleanup") eqn:Ec]];
    cbn [negb andb]; try discriminate.
  - apply String.eqb_eq in Eg. specialize (Hflag Eg).
    destruct rest as [|arg1 more]; [discriminate|].
    set (fi := Cli.findIndex (fun arg => String.eqb arg "--preset")
                 (arg0 :: arg1 :: more)).
    assert (Hfi : forall i, fi = Some i
                            <-> Cli.first_at "--preset" (arg0 :: arg1 :: more) i)
      by (intros i; apply findIndex_first).
    clearbody fi.
    set (n := length (arg0 :: arg1 :: more)).
    assert (Hn : forall i, (i <? n)%nat = true
                           <-> nth_error (arg0 :: arg1 :: more) i <> None).
    { intros i. rewrite Nat.ltb_lt. symmetry. apply nth_error_Some. }
    clearbody n.
    intros H. injection H as <-.
    cbn [Cli.command Cli.preset Cli.specName].
    split.
    + intros p. split.
      * intros Hp. split; [exact Eg|].
        destruct fi as [i|]; [|discriminate].
        destruct ((i + 1 <? n)%nat); [|discriminate].
        rewrite Nat.add_1_r in Hp.
        exists i. split; [|split; [apply Hfi; reflexivity | exact Hp]].
        destruct i as [|i]; [|lia].
        destruct (proj1 (Hfi 0%nat) eq_refl) as [E0 _].
        simpl in E0. inversion E0. contradiction.
      * intros [_ [i [_ [Hfirst Hnext]]]].
        apply Hfi in Hfirst. rewrite Hfirst.
        rewrite Nat.add_1_r.
        assert (Hlt : (S i <? n)%nat = true).
        { apply Hn. rewrite Hnext. discriminate. }
        rewrite Hlt. exact Hnext.
    + intros _ Hfirst. split.
      * destruct Hfirst as [H1 _]. simpl in H1. inversion H1. reflexivity.
      * apply Hfi in Hfirst. rewrite Hfirst.
        cbn [Nat.add].
        destruct ((2 <? n)%nat) eqn:E2; [reflexivity|].
        destruct (nth_error (arg0 :: arg1 :: more) 2) eqn:E3; [|reflexivity].
        assert (Ht : (2 <? n)%nat = true) by (apply Hn; rewrite E3; discriminate).
        congruence.
  - apply String.eqb_eq in Er.
    destruct rest as [|arg1 more]; [discriminate|].
    intros H. inversion H; subst parsed; clear H.
    cbn [Cli.command Cli.preset Cli.specName].
    split.
    + intros p. split; [discriminate|]. intros [Hc _]. congruence.
    + intros Hc. congruence.
  - apply String.eqb_eq in Ec.
    destruct rest as [|arg1 more]; [discriminate|].
    intros H. inversion H; subst parsed; clear H.
    cbn [Cli.command Cli.preset Cli.specName].
    split.
    + intros p. split; [discriminate|]. intros [Hc _]. congruence.
    + intros Hc. congruence.
Qed.

End ParseArgs.

Lemma preset_follows_the_first_flag_witness :
  exists parsed,
    Cli.parseArgs Cases.basename Cases.extname Cases.flag_as_name = Ok parsed
    /\ Cli.specName parsed = Some "--preset"
    /\ Cli.preset parsed = Some "docs".
Proof.
  eexists. split; [reflexivity|].
  apply (proj2 (preset_follows_the_first_flag Cases.basename Cases.extname
                  Cases.flag_as_name _ eq_refl)).
  - reflexivity.
  - split; [reflexivity|]. intros j Hj.
    assert (j = 0%nat) by lia. subst j. discriminate.
Defined.

(* ================================================================== *)
(** ** The validators *)
(* ================================================================== *)

Lemma bind_ok {St A B} (c : M St A) (k : A -> M St B) s b s' :
  bind c k s = (Ok b, s') <->
  exists a s1, c s = (Ok a, s1) /\ k a s1 = (Ok b, s').
Proof.
  unfold bind. split.
  - destruct (c s) as [[a|e] s1]; [|discriminate].
    intros H. exists a, s1. split; [reflexivity | exact H].
  - intros [a [s1 [Hc Hk]]]. rewrite Hc. exact Hk.
Qed.

Lemma filled_string_spec (v : JsValue) :
  not_a_filled_string v = false <-> filled_string v.
Proof.
  unfold not_a_filled_string, filled_string, trims_to_empty, is_string.
  destruct v; cbn [negb orb]; split; try discriminate;
    try (intros [s0 [H _]]; discriminate).
  - intros H. exists s. split; [reflexivity|]. apply String.eqb_neq. exact H.
  - intros [s0 [H Hn]]. inversion H; subst. apply String.eqb_neq. exact Hn.
Qed.

Section ValidatorFacts.

Variable typeError : JsValue -> string -> string.
Context {St : Type}.

Lemma throw_if_ok (condition : bool) (message : string) (s s' : St) :
  throw_if condition message s = (Ok tt, s') <-> condition = false /\ s' = s.
Proof.
  unfold throw_if. destruct condition; cbn; split.
  - discriminate.
  - intros [H _]. discriminate.
  - intros H. inversion H. auto.
  - intros [_ ->]. reflexivity.
Qed.

Lemma get_object (fields : list (string * JsValue)) (field : string) (s : St) :
  get typeError (JObject fields) field s = (Ok (field_of fields field), s).
Proof. reflexivity. Qed.

Lemma required_fields_object (fields : list (string * JsValue))
  (requiredFields : list string) (objectName : string) (s s' : St) :
  validateRequiredFields typeError (JObject fields) requiredFields objectName s
    = (Ok tt, s')
  <-> s' = s
      /\ Forall (fun field => field_of fields field <> JUndefined) requiredFields.
Proof.
  induction requiredFields as [|field rest IH]; cbn [validateRequiredFields].
  - cbn. split.
    + intros H. inversion H. split; [reflexivity | constructor].
    + intros [-> _]. reflexivity.
  - rewrite bind_ok. split.
    + intros [v [s1 [Hg Hrest]]]. rewrite get_object in Hg. inversion Hg; subst v s1.
      apply bind_ok in Hrest. destruct Hrest as [[] [s2 [Ht Hrest]]].
      apply throw_if_ok in Ht. destruct Ht as [Hu ->].
      apply IH in Hrest. destruct Hrest as [-> Hall].
      split; [reflexivity|]. constructor; [|exact Hall].
      intros E. rewrite E in Hu. discriminate.
    + intros [-> Hall]. inversion Hall as [|? ? Hf Hrest']; subst.
      exists (field_of fields field), s. split; [apply get_object|].
      apply bind_ok. exists tt, s. split.
      * apply throw_if_ok. split; [|reflexivity].
        destruct (field_of fields field); try reflexivity. contradiction.
      * apply IH. split; [reflexivity | exact Hrest'].
Qed.

(** Only an object has a required field. *)
Lemma required_fields_need_an_object (obj : JsValue) (field : string)
  (rest : list string) (objectName : string) (s s' : St) :
  validateRequiredFields typeError obj (field :: rest) objectName s = (Ok tt, s') ->
  exists fields, obj = JObject fields.
Proof.
  cbn [validateRequiredFields]. rewrite bind_ok.
  intros [v [s1 [Hg Hrest]]].
  apply bind_ok in Hrest. destruct Hrest as [[] [s2 [Ht _]]].
  apply throw_if_ok in Ht. destruct Ht as [Hu _].
  destruct obj; cbn in Hg; inversion Hg; subst; try discriminate.
  eexists. reflexivity.
Qed.

Lemma validateTaskEvaluation_ok (evaluation : JsValue) (taskIndex : nat) (s s' : St) :
  validateTaskEvaluation typeError evaluation taskIndex s = (Ok tt, s')
  <-> s' = s /\ well_formed_evaluation evaluation.
Proof.
  unfold validateTaskEvaluation, well_formed_evaluation. rewrite bind_ok. split.
  - intros [[] [s1 [Hreq Hrest]]].
    destruct (required_fields_need_an_object _ _ _ _ _ _ Hreq) as [fields ->].
    apply required_fields_object in Hreq. destruct Hreq as [-> _].
    apply bind_ok in Hrest. destruct Hrest as [type [s2 [Hg Hrest]]].
    rewrite get_object in Hg. inversion Hg; subst type s2. clear Hg.
    apply bind_ok in Hrest. destruct Hrest as [[] [s2 [Ht Hrest]]].
    apply throw_if_ok in Ht. destruct Ht as [Htype ->].
    destruct (field_of fields "type") as [| | | |t| |] eqn:Etype;
      cbn [is_literal negb andb] in Htype, Hrest; try discriminate.
    destruct (String.eqb t "command") eqn:Ec.
    + apply String.eqb_eq in Ec. subst t.
      apply bind_ok in Hrest. destruct Hrest as [[] [s2 [Hreq Hrest]]].
      apply required_fields_object in Hreq. destruct Hreq as [-> _].
      apply bind_ok in Hrest. destruct Hrest as [c [s2 [Hg Hrest]]].
      rewrite get_object in Hg. inversion Hg; subst c s2. clear Hg.
      apply bind_ok in Hrest. destruct Hrest as [[] [s2 [Ht Hrest]]].
      apply throw_if_ok in Ht. destruct Ht as [Hc ->].
      apply bind_ok in Hrest. destruct Hrest as [c [s2 [Hg Hrest]]].
      rewrite get_object in Hg. inversion Hg; subst c s2. clear Hg.
      apply throw_if_ok in Hrest. destruct Hrest as [Hp ->].
      split; [reflexivity|]. exists fields. split; [reflexivity|].
      right. split; [exact Etype|].
      split; apply filled_string_spec; assumption.
    + destruct (String.eqb t "test") eqn:Et; [|discriminate].
      apply String.eqb_eq in Et. subst t.
      cbn in Hrest. inversion Hrest; subst.
      split; [reflexivity|]. exists fields. split; [reflexivity|].
      left. exact Etype.
  - intros [-> [fields [-> Hshape]]].
    assert (Htype : field_of fields "type" <> JUndefined).
    { destruct Hshape as [H | [H _]]; rewrite H; discriminate. }
    exists tt, s. split.
    { apply required_fields_object. split; [reflexivity|].
      constructor; [exact Htype | constructor]. }
    apply bind_ok. exists (field_of fields "type"), s.
    split; [apply get_object|].
    destruct Hshape as [H | [H [Hc Hp]]]; rewrite H; cbn [is_literal].
    + reflexivity.
    + apply bind_ok. exists tt, s. split; [reflexivity|].
      cbn [String.eqb Ascii.eqb Bool.eqb andb].
      change (String.eqb "command" "command") with true. cbv iota.
      apply bind_ok. exists tt, s. split.
      { apply required_fields_object. split; [reflexivity|].
        destruct Hc as [c [Hc _]]. destruct Hp as [p [Hp _]].
        constructor; [rewrite Hc; discriminate|].
        constructor; [rewrite Hp; discriminate | constructor]. }
      apply bind_ok. exists (field_of fields "command"), s.
      split; [apply get_object|].
      apply bind_ok. exists tt, s. split.
      { apply throw_if_ok. split; [|reflexivity].
        apply filled_string_spec. exact Hc. }
      apply bind_ok. exists (field_of fields "check_prompt"), s.
      split; [apply get_object|].
      apply throw_if_ok. split; [|reflexivity].
      apply filled_string_spec. exact Hp.
Qed.

Lemma validateTask_ok (task : JsValue) (index : nat) (s s' : St) :
  validateTask typeError task index s = (Ok tt, s')
  <-> s' = s /\ well_formed_task task.
Proof.
  unfold validateTask, well_formed_task. rewrite bind_ok. split.
  - intros [[] [s1 [Hreq Hrest]]].
    destruct (required_fields_need_an_object _ _ _ _ _ _ Hreq) as [fields ->].
    apply required_fields_object in Hreq. destruct Hreq as [-> _].
    apply bind_ok in Hrest. destruct Hrest as [v [s2 [Hg Hrest]]].
    rewrite get_object in Hg. inversion Hg; subst v s2. clear Hg.
    apply bind_ok in Hrest. destruct Hrest as [[] [s2 [Ht Hrest]]].
    apply throw_if_ok in Ht. destruct Ht as [Hname ->].
    apply bind_ok in Hrest. destruct Hrest as [v [s2 [Hg Hrest]]].
    rewrite get_object in Hg. inversion Hg; subst v s2. clear Hg.
    apply bind_ok in Hrest. destruct Hrest as [[] [s2 [Ht Hrest]]].
    apply throw_if_ok in Ht. destruct Ht as [Hprompt ->].
    apply bind_ok in Hrest. destruct Hrest as [v [s2 [Hg Hrest]]].
    rewrite get_object in Hg. inversion Hg; subst v s2. clear Hg.
    apply bind_ok in Hrest. destruct Hrest as [[] [s2 [Ht Hrest]]].
    apply throw_if_ok in Ht. destruct Ht as [Hdone ->].
    apply bind_ok in Hrest. destruct Hrest as [v [s2 [Hg Hrest]]].
    rewrite get_object in Hg. inversion Hg; subst v s2. clear Hg.
    assert (Hev : s' = s
                  /\ (field_of fields "evaluation" = JUndefined
                      \/ well_formed_evaluation (field_of fields "evaluation"))).
    { destruct (is_undefined (field_of fields "evaluation")) eqn:Eu;
        cbn [negb] in Hrest.
      - inversion Hrest; subst. split; [reflexivity|]. left.
        destruct (field_of fields "evaluation"); try discriminate. reflexivity.
      - apply validateTaskEvaluation_ok in Hrest. destruct Hrest as [-> Hw].
        split; [reflexivity|]. right. exact Hw. }
    destruct Hev as [-> Hev]. split; [reflexivity|].
    exists fields. split; [reflexivity|].
    split; [apply filled_string_spec; exact Hname|].
    split; [apply filled_string_spec; exact Hprompt|].
    split; [|exact Hev].
    destruct (field_of fields "done"); cbn in Hdone; try discriminate.
    + left. reflexivity.
    + right. eexists. reflexivity.
  - intros [-> [fields [-> [Hname [Hprompt [Hdone Hev]]]]]].
    exists tt, s. split.
    { apply required_fields_object. split; [reflexivity|].
      destruct Hname as [n [Hn _]]. destruct Hprompt as [p [Hp _]].
      constructor; [rewrite Hn; discriminate|].
      constructor; [rewrite Hp; discriminate | constructor]. }
    apply bind_ok. exists (field_of fields "name"), s. split; [apply get_object|].
    apply bind_ok. exists tt, s. split.
    { apply throw_if_ok. split; [|reflexivity]. apply filled_string_spec. exact Hname. }
    apply bind_ok. exists (field_of fields "prompt"), s. split; [apply get_object|].
    apply bind_ok. exists tt, s. split.
    { apply throw_if_ok. split; [|reflexivity]. apply filled_string_spec. exact Hprompt. }
    apply bind_ok. exists (field_of fields "done"), s. split; [apply get_object|].
    apply bind_ok. exists tt, s. split.
    { apply throw_if_ok. split; [|reflexivity].
      destruct Hdone as [H | [b H]]; rewrite H; reflexivity. }
    apply bind_ok. exists (field_of fields "evaluation"), s. split; [apply get_object|].
    destruct Hev as [H | H].
    + rewrite H. reflexivity.
    + assert (Hu : is_undefined (field_of fields "evaluation") = false).
      { destruct H as [f [H _]]. rewrite H. reflexivity. }
      rewrite Hu. cbn [negb]. apply validateTaskEvaluation_ok.
      split; [reflexivity | exact H].
Qed.

Lemma validate_each_ok (tasks : list JsValue) :
  forall (index : nat) (s s' : St),
    validate_each typeError tasks index s = (Ok tt, s')
    <-> s' = s /\ Forall well_formed_task tasks.
Proof.
  induction tasks as [|task rest IH]; intros index s s'; cbn [validate_each].
  - cbn. split.
    + intros H. inversion H. split; [reflexivity | constructor].
    + intros [-> _]. reflexivity.
  - rewrite bind_ok. split.
    + intros [[] [s1 [Ht Hrest]]]. apply validateTask_ok in Ht.
      destruct Ht as [-> Hw]. apply IH in Hrest. destruct Hrest as [-> Hall].
      split; [reflexivity | constructor; assumption].
    + intros [-> Hall]. inversion Hall; subst. exists tt, s. split.
      * apply validateTask_ok. split; [reflexivity | assumption].
      * apply IH. split; [reflexivity | assumption].
Qed.

(** The loop stops at the first task that does not validate: what it throws
    is what that task throws, under its own index, and the tasks after it
    are not looked at. *)
Lemma validate_each_first_failure (pre : list JsValue) :
  forall (bad : JsValue) (post : list JsValue) (index : nat) (s : St) e s',
    Forall well_formed_task pre ->
    validateTask typeError bad (index + length pre) s = (Throw e, s') ->
    validate_each typeError (pre ++ bad :: post)%list index s = (Throw e, s').
Proof.
  induction pre as [|task pre IH]; intros bad post index s e s' Hall Hbad;
    cbn [validate_each app].
  - cbn [length] in Hbad. rewrite Nat.add_0_r in Hbad.
    unfold bind. rewrite Hbad. reflexivity.
  - inversion Hall; subst. unfold bind.
    assert (Ht : validateTask typeError task index s = (Ok tt, s))
      by (apply validateTask_ok; split; [reflexivity | assumption]).
    rewrite Ht. apply IH; [assumption|].
    cbn [length] in Hbad. rewrite Nat.add_succ_r in Hbad. exact Hbad.
Qed.

End ValidatorFacts.

Lemma validateTasks_ok :
  forall (typeError : JsValue -> string -> string) (St : Type)
         (tasks : JsValue) (s s' : St),
    validateTasks typeError tasks s = (Ok tt, s')
    <-> s' = s /\ well_formed_tasks tasks.
Proof.
  intros typeError St tasks s s'. unfold validateTasks, well_formed_tasks.
  rewrite bind_ok. split.
  - intros [[] [s1 [Ht Hrest]]]. apply throw_if_ok in Ht. destruct Ht as [Harr ->].
    destruct tasks as [| | | | |items|]; try discriminate.
    apply bind_ok in Hrest. destruct Hrest as [[] [s2 [Ht Hrest]]].
    apply throw_if_ok in Ht. destruct Ht as [Hlen ->].
    apply validate_each_ok in Hrest. destruct Hrest as [-> Hall].
    split; [reflexivity|]. exists items. split; [reflexivity|].
    split; [|exact Hall]. intros ->. discriminate.
  - intros [-> [items [-> [Hne Hall]]]].
    exists tt, s. split; [reflexivity|].
    apply bind_ok. exists tt, s. split.
    + apply throw_if_ok. split; [|reflexivity].
      destruct items; [contradiction | reflexivity].
    + apply validate_each_ok. split; [reflexivity | exact Hall].
Qed.

(** X25. [validateTask] accepts a value exactly when it is a well-formed
    task: an object with a name and a prompt that are strings with something
    other than white space in them, a [done] that is absent or a boolean,
    and an evaluation that is absent, of type [test], or of type [command]
    with a filled command and a filled check prompt. [validateTasks] accepts
    exactly the non-empty arrays of well-formed tasks. Validation leaves the
    state as it was. *)
Theorem accepted_tasks_are_the_well_formed_ones :
  forall (typeError : JsValue -> string -> string) (St : Type) (s s' : St),
    (forall task index,
        validateTask typeError task index s = (Ok tt, s')
        <-> s' = s /\ well_formed_task task)
    /\ (forall tasks,
          validateTasks typeError tasks s = (Ok tt, s')
          <-> s' = s
              /\ exists items,
                   tasks = JArray items /\ items <> []
                   /\ Forall well_formed_task items).
Proof.
  intros typeError St s s'. split.
  - intros task index. apply validateTask_ok.
  - intros tasks. apply validateTasks_ok.
Qed.

(** X26. [validateTasks] stops at the first task that does not validate: it
    throws what [validateTask] throws for that task under its own index,
    whatever comes after it in the list. *)
Theorem first_invalid_task_is_the_one_reported :
  forall (typeError : JsValue -> string -> string) (St : Type)
         (pre post : list JsValue) (bad : JsValue) (s : St) e s',
    Forall well_formed_task pre ->
    validateTask typeError bad (length pre) s = (Throw e, s') ->
    validateTasks typeError (JArray (pre ++ bad :: post)%list) s = (Throw e, s').
Proof.
  intros typeError St pre post bad s e s' Hall Hbad.
  unfold validateTasks. unfold bind at 1. cbn [throw_if is_array negb ret].
  unfold bind at 1.
  assert (Hlen : (length (pre ++ bad :: post)%list =? 0)%nat = false).
  { rewrite length_app. cbn [length]. apply Nat.eqb_neq. lia. }
  rewrite Hlen. cbn [throw_if ret].
  apply validate_each_first_failure; [exact Hall | exact Hbad].
Qed.

Lemma first_invalid_task_is_the_one_reported_witness :
  validateTasks Cases.null_message
    (JArray [Cases.parse_task; JNull; JString "never looked at"]) tt
  = (Throw (ErrorObj (Cases.null_message JNull "name")), tt).
Proof.
  apply (first_invalid_task_is_the_one_reported Cases.null_message unit
           [Cases.parse_task] [JString "never looked at"] JNull tt).
  - constructor; [|constructor].
    exists [("name", JString "parse"); ("prompt", JString "Implement parse")].
    split; [reflexivity|].
    split; [eexists; split; [reflexivity | vm_compute; discriminate]|].
    split; [eexists; split; [reflexivity | vm_compute; discriminate]|].
    split; left; reflexivity.
  - reflexivity.
Defined.

Lemma validateAiderConfig_ok :
  forall (typeError : JsValue -> string -> string) (St : Type)
         (config : JsValue) (s s' : St),
    validateAiderConfig typeError config s = (Ok tt, s')
    <-> s' = s /\ well_formed_config config.
Proof.
  intros typeError St config s s'.
  unfold validateAiderConfig, well_formed_config. rewrite bind_ok. split.
  - intros [[] [s1 [Hreq Hrest]]].
    destruct (required_fields_need_an_object _ _ _ _ _ _ _ Hreq) as [fields ->].
    apply required_fields_object in Hreq. destruct Hreq as [-> _].
    apply bind_ok in Hrest. destruct Hrest as [v [s2 [Hg Hrest]]].
    rewrite get_object in Hg. inversion Hg; subst v s2. clear Hg.
    apply bind_ok in Hrest. destruct Hrest as [[] [s2 [Ht Hrest]]].
    apply throw_if_ok in Ht. destruct Ht as [Hm1 ->].
    apply bind_ok in Hrest. destruct Hrest as [[] [s2 [Ht Hrest]]].
    apply throw_if_ok in Ht. destruct Ht as [Hm2 ->].
    apply bind_ok in Hrest. destruct Hrest as [v [s2 [Hg Hrest]]].
    rewrite get_object in Hg. inversion Hg; subst v s2. clear Hg.
    apply bind_ok in Hrest. destruct Hrest as [[] [s2 [Ht Hrest]]].
    apply throw_if_ok in Ht. destruct Ht as [Harch ->].
    apply bind_ok in Hrest. destruct Hrest as [v [s2 [Hg Hrest]]].
    rewrite get_object in Hg. inversion Hg; subst v s2. clear Hg.
    apply bind_ok in Hrest. destruct Hrest as [[] [s2 [Ht Hrest]]].
    apply throw_if_ok in Ht. destruct Ht as [Hed ->].
    apply bind_ok in Hrest. destruct Hrest as [v [s2 [Hg Hrest]]].
    rewrite get_object in Hg. inversion Hg; subst v s2. clear Hg.
    apply bind_ok in Hrest. destruct Hrest as [[] [s2 [Ht Hrest]]].
    apply throw_if_ok in Ht. destruct Ht as [Hro ->].
    apply bind_ok in Hrest. destruct Hrest as [v [s2 [Hg Hrest]]].
    rewrite get_object in Hg. inversion Hg; subst v s2. clear Hg.
    apply bind_ok in Hrest. destruct Hrest as [[] [s2 [Ht Hrest]]].
    apply throw_if_ok in Ht. destruct Ht as [Hret ->].
    apply bind_ok in Hrest. destruct Hrest as [v [s2 [Hg Hrest]]].
    rewrite get_object in Hg. inversion Hg; subst v s2. clear Hg.
    apply throw_if_ok in Hrest. destruct Hrest as [Htc ->].
    split; [reflexivity|]. exists fields. split; [reflexivity|].
    split.
    { apply filled_string_spec. unfold not_a_filled_string.
      rewrite Hm1, Hm2. reflexivity. }
    split.
    { destruct (field_of fields "architect_mode"); try discriminate.
      eexists. reflexivity. }
    split.
    { destruct (field_of fields "editable_files"); try discriminate.
      eexists. reflexivity. }
    split.
    { destruct (field_of fields "readonly_files"); try discriminate.
      eexists. reflexivity. }
    split.
    { destruct (field_of fields "retries"); try discriminate.
      eexists. split; [reflexivity | exact Hret]. }
    destruct (field_of fields "test_command"); try discriminate.
    + left. reflexivity.
    + right. eexists. reflexivity.
  - intros [-> [fields [-> [Hm [[b Ha] [[ed He] [[ro Hr] [[n [Hn Hpos]] Htc]]]]]]]].
    pose proof (proj2 (filled_string_spec _) Hm) as Hm'.
    unfold not_a_filled_string in Hm'. apply orb_false_iff in Hm'.
    destruct Hm' as [Hm1 Hm2].
    exists tt, s. split.
    { apply required_fields_object. split; [reflexivity|].
      destruct Hm as [m [Hm _]].
      repeat constructor; congruence. }
    apply bind_ok. exists (field_of fields "model"), s. split; [apply get_object|].
    apply bind_ok. exists tt, s. split; [apply throw_if_ok; auto|].
    apply bind_ok. exists tt, s. split; [apply throw_if_ok; auto|].
    apply bind_ok. exists (field_of fields "architect_mode"), s.
    split; [apply get_object|].
    apply bind_ok. exists tt, s. split;
      [apply throw_if_ok; split; [rewrite Ha|]; reflexivity|].
    apply bind_ok. exists (field_of fields "editable_files"), s.
    split; [apply get_object|].
    apply bind_ok. exists tt, s. split;
      [apply throw_if_ok; split; [rewrite He|]; reflexivity|].
    apply bind_ok. exists (field_of fields "readonly_files"), s.
    split; [apply get_object|].
    apply bind_ok. exists tt, s. split;
      [apply throw_if_ok; split; [rewrite Hr|]; reflexivity|].
    apply bind_ok. exists (field_of fields "retries"), s.
    split; [apply get_object|].
    apply bind_ok. exists tt, s. split;
      [apply throw_if_ok; split; [rewrite Hn; exact Hpos | reflexivity]|].
    apply bind_ok. exists (field_of fields "test_command"), s.
    split; [apply get_object|].
    apply throw_if_ok. split; [|reflexivity].
    destruct Htc as [H | [t H]]; rewrite H; reflexivity.
Qed.

Lemma field_of_other (k field : string) (v : JsValue) fields :
  String.eqb k field = false ->
  field_of ((k, v) :: fields) field = field_of fields field.
Proof. intros H. unfold field_of. cbn [lookup_field]. rewrite H. reflexivity. Qed.

(** X27. [validateAiderConfig] accepts a value exactly when it is an object
    whose model is a string with something other than white space in it,
    whose architect mode is a boolean, whose two file lists are arrays,
    whose retries are a number that is not below zero, and whose test
    command is absent or a string. The entries of the file lists are not
    looked at, and the retries need not be a whole number: in an accepted
    configuration they can be replaced by not-a-number, by infinity or by
    a fraction, and the configuration is accepted still. *)
Theorem accepted_configurations_are_the_well_formed_ones :
  forall (typeError : JsValue -> string -> string) (St : Type)
         (config : JsValue) (s s' : St),
    (validateAiderConfig typeError config s = (Ok tt, s')
     <-> s' = s /\ well_formed_config config)
    /\ (forall fields n,
          config = JObject fields ->
          validateAiderConfig typeError config s = (Ok tt, s) ->
          In n [NaN; Infinity false; Finite 5 2] ->
          validateAiderConfig typeError
            (JObject (("retries", JNumber n) :: fields)) s = (Ok tt, s)).
Proof.
  intros typeError St config s s'. split; [apply validateAiderConfig_ok|].
  intros fields n -> Hok Hn.
  apply validateAiderConfig_ok in Hok. apply validateAiderConfig_ok.
  destruct Hok as [_ [fields' [Hf [Hm [Ha [He [Hr [_ Htc]]]]]]]].
  inversion Hf; subst fields'. clear Hf.
  split; [reflexivity|].
  exists (("retries", JNumber n) :: fields). split; [reflexivity|].
  rewrite !field_of_other by reflexivity.
  repeat (split; [assumption|]).
  split; [|assumption].
  exists n. split; [reflexivity|].
  destruct Hn as [<- | [<- | [<- | []]]]; reflexivity.
Qed.

(* ================================================================== *)
(** ** executeTask: failures before the retry loop *)
(* ================================================================== *)

(** The version-control commands are not the agent. *)
Lemma createBranch_launches_no_agent env specName w :
  agent_invocations (snd (createBranch env specName w)) = agent_invocations w.
Proof.
  apply (agent_invocations_extends version_control_only).
  - intros e He. destruct He as [He _]. exact He.
  - apply stable_createBranch.
Qed.

(** X28. A failure before the retry loop is reported without an attempt.
    When [createBranch] throws, or when the worktree directory it names is
    missing, [executeTask] returns a failure with [attempts = 0] and no
    output: the agent is not launched, [process.chdir] is not called and the
    working directory is the one it started in. The error carries the
    message of what went wrong. *)
Theorem failure_before_the_loop_makes_no_attempt :
  forall env spec task specName w,
    (forall m w1,
        createBranch env specName w = (Throw (ErrorObj m), w1) ->
        exists msg,
          executeTask env spec task specName w
            = (Ok {| success := false; attempts := 0; error := Some msg;
                     output := None |}, w1)
          /\ Js.includes msg m = true
          /\ cwd w1 = cwd w
          /\ agent_invocations w1 = agent_invocations w)
    /\ (forall path w1,
          createBranch env specName w = (Ok path, w1) ->
          fst (existsSync env (env_join env [cwd w1; path]) w1) = Ok false ->
          executeTask env spec task specName w
            = (Ok {| success := false; attempts := 0;
                     error := Some ("Failed to access worktree: "
                                    ++ "Worktree directory does not exist: "
                                    ++ env_join env [cwd w1; path]
                                    ++ ". Check if the worktree was properly created.");
                     output := None |},
               advance [] w1)
          /\ cwd w1 = cwd w
          /\ agent_invocations w1 = agent_invocations w).
Proof.
  intros env spec task specName w.
  pose proof (cwd_createBranch env specName w) as Hcwd.
  pose proof (createBranch_launches_no_agent env specName w) as Hagent.
  split.
  - intros m w1 Hcb. rewrite Hcb in Hcwd, Hagent. cbn [snd] in Hcwd, Hagent.
    unfold executeTask, try_catch, executeTask_try.
    unfold bind at 1. unfold liftW at 1. cbn [fst snd]. rewrite Hcb.
    unfold executeTask_catch, message_includes, bind, ret, getF, modifyF.
    cbn [fst snd message_text].
    destruct (Js.includes m "Worktree directory does not exist");
      [|destruct (Js.includes m "Branch"); [|destruct (Js.includes m "chdir")]];
      cbn [fst snd]; eexists; (split; [reflexivity|]);
      (split; [|split; [exact Hcwd | exact Hagent]]).
    + apply includes_middle.
    + apply includes_middle.
    + apply includes_middle.
    + apply includes_end.
  - intros path w1 Hcb Hex. rewrite Hcb in Hcwd, Hagent. cbn [snd] in Hcwd, Hagent.
    split; [|split; [exact Hcwd | exact Hagent]].
    pose proof (existsSync_state env (env_join env [cwd w1; path]) w1) as Hst.
    destruct (existsSync env (env_join env [cwd w1; path]) w1) as [present w2] eqn:Ee.
    cbn [fst snd] in Hex, Hst. subst present w2.
    unfold executeTask, try_catch, executeTask_try.
    unfold bind, liftW, process_cwd. cbn [fst snd]. rewrite Hcb. cbn [fst snd].
    rewrite Ee. cbn [fst snd negb throw].
    unfold executeTask_catch, message_includes, bind, ret, getF, modifyF.
    cbn [fst snd message_text].
    assert (Hinc : Js.includes
                     ("Worktree directory does not exist: "
                      ++ env_join env [cwd w1; path])
                     "Worktree directory does not exist" = true).
    { apply includes_of_prefix.
      change "Worktree directory does not exist: "
        with ("Worktree directory does not exist" ++ ": ").
      rewrite string_append_assoc. apply prefix_append. }
    rewrite Hinc. cbn [fst snd]. rewrite string_append_assoc. reflexivity.
Qed.

Lemma failure_before_the_loop_makes_no_attempt_witness :
  fst (executeTask Scenario.no_worktree_env (Scenario.one_task 3)
         (Scenario.plain "parse") "feat" Scenario.start)
    = Ok {| success := false; attempts := 0;
            error := Some "Failed to access worktree: Worktree directory does not exist: /repo/../worktrees/feat. Check if the worktree was properly created.";
            output := None |}.
Proof.
  destruct (proj2 (failure_before_the_loop_makes_no_attempt
                     Scenario.no_worktree_env (Scenario.one_task 3)
                     (Scenario.plain "parse") "feat" Scenario.start)
              "../worktrees/feat"
              (snd (createBranch Scenario.no_worktree_env "feat" Scenario.start)))
    as [Hrun _].
  - vm_compute. reflexivity.
  - vm_compute. reflexivity.
  - rewrite Hrun. reflexivity.
Defined.

(* ================================================================== *)
(** ** parseSpec *)
(* ================================================================== *)

Lemma try_rethrow {St A} (c : M St A) (s : St) :
  try_catch c (fun error => throw error) s = c s.
Proof. unfold try_catch, throw. destruct (c s) as [[a|e] s']; reflexivity. Qed.

Section ParseSpecFacts.

Variable env : Env.
Variable typeError : JsValue -> string -> string.
Variable yaml_load : string -> YamlOutcome.

(** The checks of [parseSpec] on the value [yaml.load] returned. *)
Lemma spec_checks_ok (spec : JsValue) (w w' : World) (v : JsValue) :
  (throw_if (negb (truthy_value spec)) "Empty or invalid YAML file" ;;
   validateRequiredFields typeError spec ["aider_config"; "objective"; "tasks"]
     "spec" ;;
   aider_config <- get typeError spec "aider_config" ;;
   validateAiderConfig typeError aider_config ;;
   tasks <- get typeError spec "tasks" ;;
   validateTasks typeError tasks ;;
   ret spec)%js w = (Ok v, w')
  <-> v = spec /\ w' = w /\ well_formed_spec spec.
Proof.
  unfold well_formed_spec. rewrite bind_ok. split.
  - intros [[] [w1 [Ht Hrest]]]. apply throw_if_ok in Ht. destruct Ht as [_ ->].
    apply bind_ok in Hrest. destruct Hrest as [[] [w1 [Hreq Hrest]]].
    destruct (required_fields_need_an_object _ _ _ _ _ _ _ Hreq) as [fields ->].
    apply required_fields_object in Hreq. destruct Hreq as [-> Hall].
    inversion Hall as [|? ? _ Hall1]; subst.
    inversion Hall1 as [|? ? Hobj _]; subst.
    apply bind_ok in Hrest. destruct Hrest as [c [w1 [Hg Hrest]]].
    rewrite get_object in Hg. inversion Hg; subst c w1. clear Hg.
    apply bind_ok in Hrest. destruct Hrest as [[] [w1 [Hc Hrest]]].
    apply validateAiderConfig_ok in Hc. destruct Hc as [-> Hc].
    apply bind_ok in Hrest. destruct Hrest as [t [w1 [Hg Hrest]]].
    rewrite get_object in Hg. inversion Hg; subst t w1. clear Hg.
    apply bind_ok in Hrest. destruct Hrest as [[] [w1 [Ht Hrest]]].
    apply validateTasks_ok in Ht. destruct Ht as [-> Ht].
    inversion Hrest; subst.
    split; [reflexivity|]. split; [reflexivity|].
    exists fields. repeat split; assumption.
  - intros [-> [-> [fields [-> [Hc [Hobj Ht]]]]]].
    exists tt, w. split; [reflexivity|].
    apply bind_ok. exists tt, w. split.
    { apply required_fields_object. split; [reflexivity|].
      constructor.
      { destruct Hc as [f [Hf _]]. rewrite Hf. discriminate. }
      constructor; [exact Hobj|].
      constructor; [|constructor].
      destruct Ht as [items [Hi _]]. rewrite Hi. discriminate. }
    apply bind_ok. exists (field_of fields "aider_config"), w.
    split; [apply get_object|].
    apply bind_ok. exists tt, w.
    split; [apply validateAiderConfig_ok; split; [reflexivity | exact Hc]|].
    apply bind_ok. exists (field_of fields "tasks"), w.
    split; [apply get_object|].
    apply bind_ok. exists tt, w.
    split; [apply validateTasks_ok; split; [reflexivity | exact Ht]|].
    reflexivity.
Qed.

End ParseSpecFacts.

(** X30. [parseSpec] returns a spec exactly when the file can be read, its
    text parses to a value, and that value is a well-formed spec: an object
    with a well-formed [aider_config], an [objective] of whatever type, and
    a non-empty array of well-formed tasks; [implementation_details] is not
    asked for. The value returned is the parsed value itself. A
    [YAMLException] comes out as an [Error] that gives the reason and, when
    the exception has a mark, the line and the column counted from one; a
    text that parses to a falsy value is an empty or invalid file. *)
Theorem parsed_specs_are_the_well_formed_ones :
  forall env (typeError : JsValue -> string -> string)
         (yaml_load : string -> YamlOutcome) filePath w,
    (forall spec w',
        parseSpec env typeError yaml_load filePath w = (Ok spec, w')
        <-> exists fileContent,
              Bun_file_text env filePath w = (Ok fileContent, w')
              /\ yaml_load fileContent = YamlValue spec
              /\ well_formed_spec spec)
    /\ (forall fileContent w' line column reason,
          Bun_file_text env filePath w = (Ok fileContent, w') ->
          yaml_load fileContent = YAMLException (Some (line, column)) reason ->
          parseSpec env typeError yaml_load filePath w
            = (Throw (ErrorObj ("YAML parsing error at line "
                                ++ Js.string_of_nat (S line) ++ ", column "
                                ++ Js.string_of_nat (S column) ++ ": " ++ reason)),
               w'))
    /\ (forall fileContent w' v,
          Bun_file_text env filePath w = (Ok fileContent, w') ->
          yaml_load fileContent = YamlValue v ->
          truthy_value v = false ->
          parseSpec env typeError yaml_load filePath w
            = (Throw (ErrorObj "Empty or invalid YAML file"), w')).
Proof.
  intros env typeError yaml_load filePath w. split; [|split].
  - intros spec w'. unfold parseSpec. rewrite try_rethrow, bind_ok. split.
    + intros [fileContent [w1 [Hread Hrest]]].
      destruct (yaml_load fileContent) as [v|mark reason] eqn:Hy; [|discriminate].
      apply spec_checks_ok in Hrest. destruct Hrest as [-> [-> Hw]].
      exists fileContent. repeat split; assumption.
    + intros [fileContent [Hread [Hy Hw]]].
      exists fileContent, w'. split; [exact Hread|]. rewrite Hy.
      apply spec_checks_ok. repeat split. exact Hw.
  - intros fileContent w' line column reason Hread Hy.
    unfold parseSpec. rewrite try_rethrow. unfold bind. rewrite Hread, Hy.
    unfold lineInfo. rewrite !Nat.add_1_r.
    rewrite !string_append_assoc. reflexivity.
  - intros fileContent w' v Hread Hy Hfalse.
    unfold parseSpec. rewrite try_rethrow. unfold bind at 1. rewrite Hread, Hy.
    unfold bind at 1. rewrite Hfalse. reflexivity.
Qed.

Lemma parsed_specs_are_the_well_formed_ones_witness :
  parseSpec Scenario.passing_env Cases.null_message
    (fun _ => YamlValue Cases.spec_value) "specs/feat.yaml" Cases.with_spec_file
  = (Ok Cases.spec_value, advance [] Cases.with_spec_file).
Proof.
  apply (proj1 (parsed_specs_are_the_well_formed_ones Scenario.passing_env
                  Cases.null_message (fun _ => YamlValue Cases.spec_value)
                  "specs/feat.yaml" Cases.with_spec_file)).
  exists "tasks: ...". split; [reflexivity|]. split; [reflexivity|].
  eexists. split; [reflexivity|]. split; [|split].
  - eexists. split; [reflexivity|].
    split; [eexists; split; [reflexivity | vm_compute; discriminate]|].
    split; [eexists; reflexivity|].
    split; [eexists; reflexivity|].
    split; [eexists; reflexivity|].
    split; [eexists; split; reflexivity|].
    left. reflexivity.
  - vm_compute. discriminate.
  - eexists. split; [reflexivity|]. split; [discriminate|].
    constructor; [|constructor].
    eexists. split; [reflexivity|].
    split; [eexists; split; [reflexivity | vm_compute; discriminate]|].
    split; [eexists; split; [reflexivity | vm_compute; discriminate]|].
    split; left; reflexivity.
Defined.
